(** * Kinso message priority engine

    A shallow embedding of the ingestion-and-prioritisation engine
    ([lib/store.ts], [lib/priority.ts], the [app/api] route handlers) and the
    properties of it that the specification states.

    Conventions of the embedding.
    - A JavaScript [string] is a [string] of bytes; [toLowerCase] maps the
      ASCII capitals and leaves every other byte alone.
    - A [Date] is its time value in milliseconds, or [InvalidDate] (what
      [new Date(text)] yields on unparsable text).  The clock [new Date()] is
      read as one instant [now] during one call.
    - [uuidv4()] is an input: every operation that draws an identifier takes
      it as an argument, so nothing is assumed about the generator.
    - The weighted sum of [calculatePriority] is computed in IEEE-754
      binary64, bit for bit ([SpecFloat] with [prec = 53], [emax = 1024]).
      Quotients of time differences are only compared against thresholds that
      are exact doubles, rounding is monotone, and so they are computed in
      [Q].
    - A [Map] is an association list in insertion order; [Conversation]
      objects, the only ones mutated after creation, live in a heap and the
      two maps that share them hold references. *)

From Stdlib Require Import ZArith List String Ascii Bool Lia QArith Qround.
From Stdlib Require Import Sorting.Sorted Sorting.Permutation.
From Stdlib Require Import Floats.SpecFloat.
Import ListNotations.

Set Warnings "-register-all".

Local Open Scope string_scope.
Local Open Scope list_scope.
Local Open Scope Z_scope.

(* ================================================================== *)
(** * Part I: definitions *)
(* ================================================================== *)

(** ** Strings *)

Module JsString.

Definition lower_ascii (c : ascii) : ascii :=
  let n := nat_of_ascii c in
  if ((65 <=? n) && (n <=? 90))%nat then ascii_of_nat (n + 32) else c.

(** [String.prototype.toLowerCase] *)
Fixpoint toLowerCase (s : string) : string :=
  match s with
  | EmptyString => EmptyString
  | String c rest => String (lower_ascii c) (toLowerCase rest)
  end.

(** [String.prototype.includes] *)
Fixpoint includes (s sub : string) : bool :=
  if String.prefix sub s then true
  else match s with
       | EmptyString => false
       | String _ rest => includes rest sub
       end.

(** Specification side: [sub] occurs in [s] when letter case is ignored,
    position by position. *)
Fixpoint ci_prefix (sub s : string) : bool :=
  match sub, s with
  | EmptyString, _ => true
  | String _ _, EmptyString => false
  | String a sub', String b s' =>
      Ascii.eqb (lower_ascii a) (lower_ascii b) && ci_prefix sub' s'
  end.

Fixpoint ci_substring (sub s : string) : bool :=
  if ci_prefix sub s then true
  else match s with
       | EmptyString => false
       | String _ rest => ci_substring sub rest
       end.

End JsString.

(** ** Numbers: IEEE-754 binary64 *)

Module Number.

Definition prec : Z := 53.
Definition emax : Z := 1024.

(** An integer literal, or an integer-valued intermediate result. *)
Definition of_Z (z : Z) : spec_float := binary_normalize prec emax z 0 false.

Definition add : spec_float -> spec_float -> spec_float := SFadd prec emax.
Definition mul : spec_float -> spec_float -> spec_float := SFmul prec emax.
Definition div : spec_float -> spec_float -> spec_float := SFdiv prec emax.
Definition leb : spec_float -> spec_float -> bool := SFleb.
Definition eqb : spec_float -> spec_float -> bool := SFeqb.

(** The doubles denoted by the decimal literals of [WEIGHTS]. *)
Definition lit_0_4 : spec_float := S754_finite false 7205759403792794 (-54).
Definition lit_0_2 : spec_float := S754_finite false 7205759403792794 (-55).
Definition lit_0_15 : spec_float := S754_finite false 5404319552844595 (-55).
Definition lit_0_05 : spec_float := S754_finite false 7205759403792794 (-57).

Definition is_nan (x : spec_float) : bool :=
  match x with S754_nan => true | _ => false end.

Definition is_finite (x : spec_float) : bool :=
  match x with S754_zero _ | S754_finite _ _ _ => true | _ => false end.

(** What [Math.round] returns: an integer, an infinity or NaN.  The sign
    of a zero result is dropped; [Math.max(0, -0)] is [+0] anyway. *)
Inductive Integral : Type :=
| IntVal (z : Z)
| PosInfinity
| NegInfinity
| NotANumber.

(** [Math.round x] is [floor (x + 1/2)], computed exactly. *)
Definition Math_round (x : spec_float) : Integral :=
  match x with
  | S754_nan => NotANumber
  | S754_infinity s => if s then NegInfinity else PosInfinity
  | S754_zero _ => IntVal 0
  | S754_finite s m e =>
      let sm := if s then Zneg m else Zpos m in
      match e with
      | Zneg k => IntVal ((2 * sm + 2 ^ Zpos k) / 2 ^ (Zpos k + 1))
      | _ => IntVal (sm * 2 ^ e)
      end
  end.

(** [Math.min(a, y)] and [Math.max(a, y)] for an integer literal [a]. *)
Definition Math_min (a : Z) (y : Integral) : Integral :=
  match y with
  | IntVal z => IntVal (Z.min a z)
  | PosInfinity => IntVal a
  | NegInfinity => NegInfinity
  | NotANumber => NotANumber
  end.

Definition Math_max (a : Z) (y : Integral) : Integral :=
  match y with
  | IntVal z => IntVal (Z.max a z)
  | PosInfinity => PosInfinity
  | NegInfinity => IntVal a
  | NotANumber => NotANumber
  end.

(** Reading an integral number back as an integer.  The default is taken
    on no path of the engine (lemma [calculatePriority_Z] below). *)
Definition to_Z (y : Integral) : Z :=
  match y with IntVal z => z | _ => 0 end.

End Number.

Import Number.

(** ** Values of a metadata bag ([Record<string, unknown>]) *)

Inductive JsValue : Type :=
| JsUndefined
| JsNull
| JsBool (b : bool)
| JsNumber (x : spec_float)
| JsStr (s : string)
| JsArray (items : list JsValue)
| JsObject (fields : list (string * JsValue)).

Definition Metadata : Type := list (string * JsValue).

(** Property read [metadata.key]; an absent key reads [undefined]. *)
Fixpoint prop (metadata : Metadata) (key : string) : JsValue :=
  match metadata with
  | [] => JsUndefined
  | (k, v) :: rest => if String.eqb k key then v else prop rest key
  end.

(** ToBoolean *)
Definition truthy (v : JsValue) : bool :=
  match v with
  | JsUndefined | JsNull => false
  | JsBool b => b
  | JsNumber x => match x with S754_zero _ | S754_nan => false | _ => true end
  | JsStr s => negb (String.eqb s "")
  | JsArray _ | JsObject _ => true
  end.

(** [v === 'text'] *)
Definition strict_eq_str (v : JsValue) (text : string) : bool :=
  match v with JsStr s => String.eqb s text | _ => false end.

(** [v === n] for an integer literal [n] *)
Definition strict_eq_int (v : JsValue) (n : Z) : bool :=
  match v with JsNumber x => Number.eqb x (of_Z n) | _ => false end.

(** [Array.isArray(v) && v.length > 0] *)
Definition nonempty_array (v : JsValue) : bool :=
  match v with
  | JsArray items => 0 <? Z.of_nat (List.length items)
  | _ => false
  end.

(** ** Dates *)

Inductive Date : Type :=
| ValidDate (ms : Z)
| InvalidDate.

(** [getTime()]; [None] stands for NaN. *)
Definition getTime (d : Date) : option Z :=
  match d with ValidDate ms => Some ms | InvalidDate => None end.

Definition Qlt_bool (x y : Q) : bool := negb (Qle_bool y x).

(** ** Priority calculator ([lib/priority.ts]) *)

Inductive Source : Type := email | slack | whatsapp | linkedin.

Definition Source_eqb (a b : Source) : bool :=
  match a, b with
  | email, email | slack, slack | whatsapp, whatsapp | linkedin, linkedin => true
  | _, _ => false
  end.

Definition Source_name (s : Source) : string :=
  match s with
  | email => "email" | slack => "slack"
  | whatsapp => "whatsapp" | linkedin => "linkedin"
  end.

Record PriorityContext : Type := {
  ctx_source : Source;
  ctx_content : string;
  ctx_lastMessageAt : Date;
  ctx_contactPriority : spec_float;
  ctx_metadata : Metadata
}.

Record PrioritySignals : Type := {
  sig_contactPriority : spec_float;
  sig_urgencyKeywords : Z;
  sig_recency : Z;
  sig_responseExpectation : Z;
  sig_providerBoost : Z
}.

Definition INACTIVITY_THRESHOLD_DAYS : Z := 7.

(** [Object.entries(URGENCY_KEYWORDS)], in the order the literal lists them. *)
Definition URGENCY_KEYWORDS : list (string * Z) :=
  [ ("urgent", 20); ("asap", 20); ("emergency", 20); ("critical", 18);
    ("deadline", 15); ("immediately", 18);
    ("important", 10); ("priority", 8); ("needed", 7); ("soon", 6);
    ("time-sensitive", 10);
    ("when you can", 3); ("quick question", 5); ("no rush", 0) ].

Definition RESPONSE_EXPECTATION (s : Source) : Z :=
  match s with
  | email => 5
  | slack => 12
  | whatsapp => 15
  | linkedin => 3
  end.

Definition calculateUrgencyScore (content : string) : Z :=
  let lowerContent := JsString.toLowerCase content in
  let maxScore :=
    fold_left
      (fun maxScore entry =>
         let '(keyword, score) := entry in
         if JsString.includes lowerContent keyword
         then Z.max maxScore score else maxScore)
      URGENCY_KEYWORDS 0 in
  Z.min maxScore 20.

Definition calculateRecencyScore (now : Z) (lastMessageAt : Date) : Z :=
  match getTime lastMessageAt with
  | None => 0
  | Some t =>
      let hoursSince := (inject_Z (now - t) / inject_Z (1000 * 60 * 60))%Q in
      if Qlt_bool hoursSince (inject_Z 1) then 20
      else if Qlt_bool hoursSince (inject_Z 4) then 15
      else if Qlt_bool hoursSince (inject_Z 24) then 10
      else if Qlt_bool hoursSince (inject_Z 72) then 5
      else 0
  end.

Definition isInactive (now : Z) (lastMessageAt : Date) : bool :=
  match getTime lastMessageAt with
  | None => false
  | Some t =>
      let daysSince := (inject_Z (now - t) / inject_Z (1000 * 60 * 60 * 24))%Q in
      Qle_bool (inject_Z INACTIVITY_THRESHOLD_DAYS) daysSince
  end.

Definition calculateProviderBoost (source : Source) (metadata : Metadata) : Z :=
  let boost := 0 in
  let boost :=
    match source with
    | email =>
        let boost :=
          if strict_eq_str (prop metadata "importance") "high"
          then boost + 5 else boost in
        if strict_eq_str (prop metadata "importance") "low"
        then boost - 3 else boost
    | slack =>
        let boost :=
          if truthy (prop metadata "isDirectMessage") then boost + 10 else boost in
        let boost :=
          if nonempty_array (prop metadata "mentions") then boost + 5 else boost in
        if negb (truthy (prop metadata "isDirectMessage"))
           && negb (truthy (prop metadata "mentions"))
        then boost - 5 else boost
    | whatsapp =>
        let boost :=
          if truthy (prop metadata "isForwarded") then boost - 5 else boost in
        if truthy (prop metadata "isGroupChat") then boost - 10 else boost
    | linkedin =>
        let boost :=
          if strict_eq_int (prop metadata "connectionDegree") 1
          then boost + 5 else boost in
        if truthy (prop metadata "isInMail") then boost - 5 else boost
    end in
  Z.max (-10) (Z.min 10 boost).

Definition calculatePrioritySignals (now : Z) (context : PriorityContext)
  : PrioritySignals :=
  {| sig_contactPriority := ctx_contactPriority context;
     sig_urgencyKeywords := calculateUrgencyScore (ctx_content context);
     sig_recency := calculateRecencyScore now (ctx_lastMessageAt context);
     sig_responseExpectation := RESPONSE_EXPECTATION (ctx_source context);
     sig_providerBoost :=
       calculateProviderBoost (ctx_source context) (ctx_metadata context) |}.

(** The weighted sum of the normalised signals, as the source associates it. *)
Definition weightedSum (signals : PrioritySignals) : spec_float :=
  let n_contactPriority := sig_contactPriority signals in
  let n_urgencyKeywords :=
    mul (div (of_Z (sig_urgencyKeywords signals)) (of_Z 20)) (of_Z 100) in
  let n_recency :=
    mul (div (of_Z (sig_recency signals)) (of_Z 20)) (of_Z 100) in
  let n_responseExpectation :=
    mul (div (of_Z (sig_responseExpectation signals)) (of_Z 15)) (of_Z 100) in
  let n_providerBoost :=
    mul (div (add (of_Z (sig_providerBoost signals)) (of_Z 10)) (of_Z 20))
        (of_Z 100) in
  add (add (add (add (mul n_contactPriority lit_0_4)
                     (mul n_urgencyKeywords lit_0_2))
                (mul n_recency lit_0_2))
           (mul n_responseExpectation lit_0_15))
      (mul n_providerBoost lit_0_05).

Definition calculatePriority (now : Z) (context : PriorityContext) : Integral :=
  if isInactive now (ctx_lastMessageAt context) then IntVal 0
  else
    let signals := calculatePrioritySignals now context in
    Math_max 0 (Math_min 100 (Math_round (weightedSum signals))).

Definition getPriorityWithInactivityCheck
  (now : Z) (storedPriority : Z) (lastMessageAt : Date) : Z :=
  if isInactive now lastMessageAt then 0 else storedPriority.


Definition matching_scores (table : list (string * Z)) (content : string)
  : list Z :=
  map snd (filter (fun entry => JsString.ci_substring (fst entry) content) table).


(** ** [Map]: association lists in insertion order *)

Module JsMap.

Definition t (V : Type) : Type := list (string * V).

Definition empty {V : Type} : t V := [].

Fixpoint get {V : Type} (m : t V) (key : string) : option V :=
  match m with
  | [] => None
  | (k, v) :: rest => if String.eqb k key then Some v else get rest key
  end.

(** [set] replaces the value of a key that is present, in place, and
    appends a new key at the end. *)
Fixpoint set {V : Type} (m : t V) (key : string) (value : V) : t V :=
  match m with
  | [] => [(key, value)]
  | (k, v) :: rest =>
      if String.eqb k key then (k, value) :: rest
      else (k, v) :: set rest key value
  end.

Definition keys {V : Type} (m : t V) : list string := map fst m.
Definition values {V : Type} (m : t V) : list V := map snd m.

End JsMap.

(** ** Arrays *)

(** [Array.prototype.slice(start, end)] on integer arguments. *)
Definition Array_slice {A : Type} (l : list A) (start finish : Z) : list A :=
  let len := Z.of_nat (List.length l) in
  let k := if start <? 0 then Z.max (len + start) 0 else Z.min start len in
  let final := if finish <? 0 then Z.max (len + finish) 0 else Z.min finish len in
  firstn (Z.to_nat (final - k)) (skipn (Z.to_nat k) l).

(** [Array.prototype.sort(compare)]: the sort is stable, so for a consistent
    comparator its result is the one computed by stable insertion. *)
Fixpoint sort_insert {A : Type} (compare : A -> A -> Z) (x : A) (l : list A)
  : list A :=
  match l with
  | [] => [x]
  | y :: rest =>
      if compare x y <=? 0 then x :: y :: rest
      else y :: sort_insert compare x rest
  end.

Definition Array_sort {A : Type} (compare : A -> A -> Z) (l : list A) : list A :=
  fold_right (sort_insert compare) [] l.

(** ** Entities ([lib/types.ts]) *)

Module User.
Record t : Type := {
  id : string;
  email : string;
  name : string;
  createdAt : Z;
  updatedAt : Z
}.
End User.

Module Contact.
Record t : Type := {
  id : string;
  userId : string;
  email : string;
  name : string;
  source : Source;
  priority : Z;
  createdAt : Z;
  updatedAt : Z
}.
End Contact.

Module Conversation.
Record t : Type := {
  id : string;
  externalId : string;
  userId : string;
  contactId : string;
  source : Source;
  title : string;
  priority : Z;
  lastMessageAt : Date;
  createdAt : Z;
  updatedAt : Z
}.
End Conversation.

Module Message.
Record t : Type := {
  id : string;
  externalId : string;
  conversationId : string;
  source : Source;
  content : string;
  metadata : Metadata;
  createdAt : Date;
  updatedAt : Z
}.
End Message.

Inductive SSEEventType : Type :=
| conversation_updated
| conversation_new
| message_new.

Record SSEEventData : Type := {
  ev_conversationId : string;
  ev_userId : string;
  ev_priority : option Z;
  ev_messageId : option string
}.

Record SSEEvent : Type := {
  ev_type : SSEEventType;
  ev_data : SSEEventData
}.

(** ** Effects: what a call writes outside the store, and how it ends *)

Inductive Output : Type :=
| Delivered (listener : nat) (event : SSEEvent)
| ConsoleError (label : string) (error : string).

Inductive Completion (A : Type) : Type :=
| Normal (value : A)
| Thrown (error : string).

Arguments Normal {A} value.
Arguments Thrown {A} error.

(** ** Change notifier (class [EventEmitter] of [lib/store.ts]) *)

Module EventEmitter.

(** A listener is a function object: [listenerId] is its identity, and
    [handler] tells whether a call with the event returns ([None]) or
    throws ([Some error]).  The listeners of this repository (the two
    stream routes) write to their own response stream only; a call is
    recorded as [Delivered]. *)
Record Listener : Type := {
  listenerId : nat;
  handler : SSEEvent -> option string
}.

(** [listeners] is a [Set]: insertion order, no identity twice. *)
Record t : Type := { listeners : list Listener }.

Definition Eff (A : Type) : Type := (list Output * Completion A)%type.

Definition has (em : t) (listener : Listener) : bool :=
  existsb (fun l => Nat.eqb (listenerId l) (listenerId listener)) (listeners em).

Definition subscribe (listener : Listener) (em : t) : t :=
  if has em listener then em
  else {| listeners := listeners em ++ [listener] |}.

(** The closure that [subscribe] returns. *)
Definition unsubscribe (listener : Listener) (em : t) : t :=
  {| listeners :=
       filter (fun l => negb (Nat.eqb (listenerId l) (listenerId listener)))
              (listeners em) |}.

Definition call (listener : Listener) (event : SSEEvent) : Eff unit :=
  ([Delivered (listenerId listener) event],
   match handler listener event with
   | None => Normal tt
   | Some error => Thrown error
   end).

Definition console_error (label error : string) : Eff unit :=
  ([ConsoleError label error], Normal tt).

Definition try_catch {A : Type} (body : Eff A) (catch : string -> Eff A)
  : Eff A :=
  match body with
  | (out, Thrown error) =>
      let '(out', r) := catch error in (out ++ out', r)
  | (out, Normal v) => (out, Normal v)
  end.

(** [Set.prototype.forEach]: a callback that throws ends the iteration. *)
Fixpoint forEach (callback : Listener -> Eff unit) (ls : list Listener)
  : Eff unit :=
  match ls with
  | [] => ([], Normal tt)
  | l :: rest =>
      match callback l with
      | (out, Normal _) =>
          let '(out', r) := forEach callback rest in (out ++ out', r)
      | (out, Thrown error) => (out, Thrown error)
      end
  end.

Definition emit (event : SSEEvent) (em : t) : Eff unit :=
  forEach
    (fun listener =>
       try_catch (call listener event)
                 (fun error => console_error "Error in SSE listener:" error))
    (listeners em).

(** The listeners that were handed the event, in the order of the calls. *)
Definition deliveries (out : list Output) : list (nat * SSEEvent) :=
  flat_map (fun o => match o with
                     | Delivered l e => [(l, e)]
                     | ConsoleError _ _ => []
                     end) out.

End EventEmitter.

(** ** The store (class [Store] of [lib/store.ts]) *)

Record Store : Type := {
  users : JsMap.t User.t;
  contacts : JsMap.t Contact.t;
  conversations : JsMap.t nat;
  messages : JsMap.t Message.t;
  messagesByExternalId : JsMap.t Message.t;
  contactsByUserAndEmail : JsMap.t Contact.t;
  conversationsByUserAndExternalId : JsMap.t nat;
  heap : list Conversation.t;
  events : EventEmitter.t
}.

(** A computation on the store: its outputs, the store it leaves, and its
    completion. *)
Definition M (A : Type) : Type := Store -> list Output * Store * Completion A.

Definition ret {A : Type} (a : A) : M A := fun s => ([], s, Normal a).

Definition bind {A B : Type} (m : M A) (k : A -> M B) : M B :=
  fun s =>
    match m s with
    | (out, s1, Normal a) =>
        let '(out', s2, r) := k a s1 in (out ++ out', s2, r)
    | (out, s1, Thrown error) => (out, s1, Thrown error)
    end.

Notation "x <- m ;; k" := (bind m (fun x => k))
  (at level 61, m at next level, right associativity).
Notation "m ;;; k" := (bind m (fun _ => k))
  (at level 61, right associativity).

Definition gets {A : Type} (f : Store -> A) : M A :=
  fun s => ([], s, Normal (f s)).

Definition modify (f : Store -> Store) : M unit :=
  fun s => ([], f s, Normal tt).

Definition throw {A : Type} (error : string) : M A :=
  fun s => ([], s, Thrown error).

Definition try_catch {A : Type} (body : M A) (catch : string -> M A) : M A :=
  fun s =>
    match body s with
    | (out, s1, Thrown error) =>
        let '(out', s2, r) := catch error s1 in (out ++ out', s2, r)
    | (out, s1, Normal v) => (out, s1, Normal v)
    end.

Definition console_error (label error : string) : M unit :=
  fun s => ([ConsoleError label error], s, Normal tt).

(** [this.events.emit(event)] *)
Definition emit (event : SSEEvent) : M unit :=
  fun s => let '(out, r) := EventEmitter.emit event (events s) in (out, s, r).

(** Field updates of the store. *)
Definition with_users (f : JsMap.t User.t -> JsMap.t User.t) (s : Store) : Store :=
  {| users := f (users s); contacts := contacts s;
     conversations := conversations s; messages := messages s;
     messagesByExternalId := messagesByExternalId s;
     contactsByUserAndEmail := contactsByUserAndEmail s;
     conversationsByUserAndExternalId := conversationsByUserAndExternalId s;
     heap := heap s; events := events s |}.

Definition with_contact (id key : string) (c : Contact.t) (s : Store) : Store :=
  {| users := users s; contacts := JsMap.set (contacts s) id c;
     conversations := conversations s; messages := messages s;
     messagesByExternalId := messagesByExternalId s;
     contactsByUserAndEmail := JsMap.set (contactsByUserAndEmail s) key c;
     conversationsByUserAndExternalId := conversationsByUserAndExternalId s;
     heap := heap s; events := events s |}.

(** A new conversation object is allocated at the end of the heap; both maps
    receive the reference. *)
Definition with_conversation (id key : string) (c : Conversation.t) (s : Store)
  : Store :=
  let r := List.length (heap s) in
  {| users := users s; contacts := contacts s;
     conversations := JsMap.set (conversations s) id r; messages := messages s;
     messagesByExternalId := messagesByExternalId s;
     contactsByUserAndEmail := contactsByUserAndEmail s;
     conversationsByUserAndExternalId :=
       JsMap.set (conversationsByUserAndExternalId s) key r;
     heap := heap s ++ [c]; events := events s |}.

Definition with_message (id key : string) (m : Message.t) (s : Store) : Store :=
  {| users := users s; contacts := contacts s;
     conversations := conversations s;
     messages := JsMap.set (messages s) id m;
     messagesByExternalId := JsMap.set (messagesByExternalId s) key m;
     contactsByUserAndEmail := contactsByUserAndEmail s;
     conversationsByUserAndExternalId := conversationsByUserAndExternalId s;
     heap := heap s; events := events s |}.

Fixpoint list_update {A : Type} (l : list A) (n : nat) (x : A) : list A :=
  match l, n with
  | [], _ => []
  | _ :: rest, O => x :: rest
  | y :: rest, S n' => y :: list_update rest n' x
  end.

(** Assignment to the fields of the conversation object at reference [r]. *)
Definition with_heap (r : nat) (c : Conversation.t) (s : Store) : Store :=
  {| users := users s; contacts := contacts s;
     conversations := conversations s; messages := messages s;
     messagesByExternalId := messagesByExternalId s;
     contactsByUserAndEmail := contactsByUserAndEmail s;
     conversationsByUserAndExternalId := conversationsByUserAndExternalId s;
     heap := list_update (heap s) r c; events := events s |}.

Definition with_events (f : EventEmitter.t -> EventEmitter.t) (s : Store) : Store :=
  {| users := users s; contacts := contacts s;
     conversations := conversations s; messages := messages s;
     messagesByExternalId := messagesByExternalId s;
     contactsByUserAndEmail := contactsByUserAndEmail s;
     conversationsByUserAndExternalId := conversationsByUserAndExternalId s;
     heap := heap s; events := f (events s) |}.

Definition deref (s : Store) (r : nat) : option Conversation.t :=
  nth_error (heap s) r.

(** *** User operations *)

Definition getUser (s : Store) (id : string) : option User.t :=
  JsMap.get (users s) id.

(** [data.id || uuidv4()] *)
Definition createUser (now : Z) (uuid : string)
  (data_id : option string) (data_email data_name : string) : M User.t :=
  let user :=
    {| User.id := match data_id with
                  | Some i => if String.eqb i "" then uuid else i
                  | None => uuid
                  end;
       User.email := JsString.toLowerCase data_email;
       User.name := data_name;
       User.createdAt := now;
       User.updatedAt := now |} in
  modify (with_users (fun m => JsMap.set m (User.id user) user)) ;;;
  ret user.

(** *** Contact operations *)

Definition getContact (s : Store) (id : string) : option Contact.t :=
  JsMap.get (contacts s) id.

Definition findContactByUserAndEmail (s : Store) (userId email : string)
  : option Contact.t :=
  let key := (userId ++ ":" ++ JsString.toLowerCase email)%string in
  JsMap.get (contactsByUserAndEmail s) key.

Record ContactData : Type := {
  cd_userId : string;
  cd_email : string;
  cd_name : string;
  cd_source : Source;
  cd_priority : option Z
}.

Definition createContact (now : Z) (uuid : string) (data : ContactData)
  : M Contact.t :=
  let contact :=
    {| Contact.id := uuid;
       Contact.userId := cd_userId data;
       Contact.email := JsString.toLowerCase (cd_email data);
       Contact.name := cd_name data;
       Contact.source := cd_source data;
       Contact.priority := match cd_priority data with Some p => p | None => 50 end;
       Contact.createdAt := now;
       Contact.updatedAt := now |} in
  modify (with_contact (Contact.id contact)
            (Contact.userId contact ++ ":" ++ Contact.email contact)%string
            contact) ;;;
  ret contact.

(** The argument of [findOrCreateContact] has no [priority] field. *)
Definition findOrCreateContact (now : Z) (uuid : string)
  (userId email name : string) (source : Source) : M Contact.t :=
  existing <- gets (fun s => findContactByUserAndEmail s userId email) ;;
  match existing with
  | Some contact => ret contact
  | None =>
      createContact now uuid
        {| cd_userId := userId; cd_email := email; cd_name := name;
           cd_source := source; cd_priority := None |}
  end.

(** *** Conversation operations *)

Definition getConversation (s : Store) (id : string) : option Conversation.t :=
  match JsMap.get (conversations s) id with
  | Some r => deref s r
  | None => None
  end.

Definition findConversationByUserAndExternalId
  (s : Store) (userId externalId : string) (source : Source)
  : option Conversation.t :=
  let key := (userId ++ ":" ++ Source_name source ++ ":" ++ externalId)%string in
  match JsMap.get (conversationsByUserAndExternalId s) key with
  | Some r => deref s r
  | None => None
  end.

Record ConversationData : Type := {
  cv_userId : string;
  cv_contactId : string;
  cv_externalId : string;
  cv_source : Source;
  cv_title : string
}.

Definition createConversation (now : Z) (uuid : string) (data : ConversationData)
  : M Conversation.t :=
  let conversation :=
    {| Conversation.id := uuid;
       Conversation.externalId := cv_externalId data;
       Conversation.userId := cv_userId data;
       Conversation.contactId := cv_contactId data;
       Conversation.source := cv_source data;
       Conversation.title := cv_title data;
       Conversation.priority := 50;
       Conversation.lastMessageAt := ValidDate now;
       Conversation.createdAt := now;
       Conversation.updatedAt := now |} in
  modify (with_conversation (Conversation.id conversation)
            (Conversation.userId conversation ++ ":"
             ++ Source_name (Conversation.source conversation) ++ ":"
             ++ Conversation.externalId conversation)%string
            conversation) ;;;
  emit {| ev_type := conversation_new;
          ev_data := {| ev_conversationId := Conversation.id conversation;
                        ev_userId := Conversation.userId conversation;
                        ev_priority := Some (Conversation.priority conversation);
                        ev_messageId := None |} |} ;;;
  ret conversation.

Definition findOrCreateConversation (now : Z) (uuid : string)
  (data : ConversationData) : M (Conversation.t * bool) :=
  existing <- gets (fun s =>
                findConversationByUserAndExternalId
                  s (cv_userId data) (cv_externalId data) (cv_source data)) ;;
  match existing with
  | Some conversation => ret (conversation, false)
  | None =>
      conversation <- createConversation now uuid data ;;
      ret (conversation, true)
  end.

Definition updateConversationPriority (now : Z)
  (conversationId : string) (priority : Z) (lastMessageAt : Date)
  : M (option Conversation.t) :=
  found <- gets (fun s =>
             match JsMap.get (conversations s) conversationId with
             | Some r => match deref s r with
                         | Some c => Some (r, c)
                         | None => None
                         end
             | None => None
             end) ;;
  match found with
  | None => ret None
  | Some (r, c) =>
      let conversation :=
        {| Conversation.id := Conversation.id c;
           Conversation.externalId := Conversation.externalId c;
           Conversation.userId := Conversation.userId c;
           Conversation.contactId := Conversation.contactId c;
           Conversation.source := Conversation.source c;
           Conversation.title := Conversation.title c;
           Conversation.priority := priority;
           Conversation.lastMessageAt := lastMessageAt;
           Conversation.createdAt := Conversation.createdAt c;
           Conversation.updatedAt := now |} in
      modify (with_heap r conversation) ;;;
      emit {| ev_type := conversation_updated;
              ev_data := {| ev_conversationId := Conversation.id conversation;
                            ev_userId := Conversation.userId conversation;
                            ev_priority := Some (Conversation.priority conversation);
                            ev_messageId := None |} |} ;;;
      ret (Some conversation)
  end.

(** [Array.from(this.conversations.values())] *)
Definition conversationValues (s : Store) : list Conversation.t :=
  flat_map (fun r => match deref s r with Some c => [c] | None => [] end)
           (JsMap.values (conversations s)).

(** The comparator passed to [sort]: priority DESC, then createdAt DESC. *)
Definition compareConversations (a b : Conversation.t) : Z :=
  if negb (Conversation.priority b =? Conversation.priority a)
  then Conversation.priority b - Conversation.priority a
  else Conversation.createdAt b - Conversation.createdAt a.

(** Arithmetic of the pagination window on integral numbers.  Integers
    beyond 2^53 are kept exact here; the window depends on them only through
    [slice_index], where whatever lies beyond the length is clamped. *)
Definition Integral_pred (x : Integral) : Integral :=
  match x with IntVal z => IntVal (z - 1) | other => other end.

Definition Integral_mul (x y : Integral) : Integral :=
  let inf_times (a : Z) (positive : bool) :=
    if a =? 0 then NotANumber
    else if Bool.eqb (0 <? a) positive then PosInfinity else NegInfinity in
  match x, y with
  | NotANumber, _ | _, NotANumber => NotANumber
  | IntVal a, IntVal b => IntVal (a * b)
  | IntVal a, PosInfinity | PosInfinity, IntVal a => inf_times a true
  | IntVal a, NegInfinity | NegInfinity, IntVal a => inf_times a false
  | PosInfinity, PosInfinity | NegInfinity, NegInfinity => PosInfinity
  | PosInfinity, NegInfinity | NegInfinity, PosInfinity => NegInfinity
  end.

Definition Integral_add (x y : Integral) : Integral :=
  match x, y with
  | NotANumber, _ | _, NotANumber => NotANumber
  | IntVal a, IntVal b => IntVal (a + b)
  | PosInfinity, NegInfinity | NegInfinity, PosInfinity => NotANumber
  | PosInfinity, _ | _, PosInfinity => PosInfinity
  | NegInfinity, _ | _, NegInfinity => NegInfinity
  end.

(** [slice] on numbers: NaN counts as 0, an infinity is clamped to the
    length. *)
Definition slice_index {A : Type} (l : list A) (x : Integral) : Z :=
  match x with
  | IntVal z => z
  | NotANumber => 0
  | PosInfinity => Z.of_nat (List.length l)
  | NegInfinity => - Z.of_nat (List.length l)
  end.

Definition Array_slice_num {A : Type} (l : list A) (start finish : Integral)
  : list A :=
  Array_slice l (slice_index l start) (slice_index l finish).

(** [options.source] holds whatever text the caller passed. *)
Definition getConversationsForUser (s : Store) (userId : string)
  (opt_page opt_limit : option Integral) (opt_source : option string)
  : list Conversation.t * Z :=
  let page := match opt_page with Some p => p | None => IntVal 1 end in
  let limit :=
    Math_min 100 (match opt_limit with Some l => l | None => IntVal 20 end) in
  let conversations :=
    filter (fun c => String.eqb (Conversation.userId c) userId)
           (conversationValues s) in
  let conversations :=
    match opt_source with
    | Some src =>
        if negb (String.eqb src "")
        then filter (fun c => String.eqb (Source_name (Conversation.source c)) src)
                    conversations
        else conversations
    | None => conversations
    end in
  let conversations := Array_sort compareConversations conversations in
  let total := Z.of_nat (List.length conversations) in
  let start := Integral_mul (Integral_pred page) limit in
  let paginated :=
    Array_slice_num conversations start (Integral_add start limit) in
  (paginated, total).

(** *** Message operations *)

Definition getMessage (s : Store) (id : string) : option Message.t :=
  JsMap.get (messages s) id.

Definition findMessageByExternalId (s : Store) (externalId : string)
  : option Message.t :=
  JsMap.get (messagesByExternalId s) externalId.

Record MessageData : Type := {
  md_conversationId : string;
  md_externalId : string;
  md_source : Source;
  md_content : string;
  md_metadata : Metadata;
  md_createdAt : option Date
}.

Definition createMessage (now : Z) (uuid : string) (data : MessageData)
  : M Message.t :=
  let message :=
    {| Message.id := uuid;
       Message.conversationId := md_conversationId data;
       Message.externalId := md_externalId data;
       Message.source := md_source data;
       Message.content := md_content data;
       Message.metadata := md_metadata data;
       Message.createdAt := match md_createdAt data with
                            | Some d => d
                            | None => ValidDate now
                            end;
       Message.updatedAt := now |} in
  modify (with_message (Message.id message) (Message.externalId message) message) ;;;
  conversation <- gets (fun s => getConversation s (md_conversationId data)) ;;
  match conversation with
  | Some conversation =>
      emit {| ev_type := message_new;
              ev_data := {| ev_conversationId := Conversation.id conversation;
                            ev_userId := Conversation.userId conversation;
                            ev_priority := None;
                            ev_messageId := Some (Message.id message) |} |}
  | None => ret tt
  end ;;;
  ret message.

Definition getMessageCountForConversation (s : Store) (conversationId : string)
  : Z :=
  Z.of_nat
    (List.length
       (filter (fun m => String.eqb (Message.conversationId m) conversationId)
               (JsMap.values (messages s)))).

(** The messages a store holds under one external id. *)
Definition messagesWithExternalId (s : Store) (externalId : string)
  : list Message.t :=
  filter (fun m => String.eqb (Message.externalId m) externalId)
         (JsMap.values (messages s)).

Definition compareMessagesNewestFirst (a b : Message.t) : Z :=
  match getTime (Message.createdAt b), getTime (Message.createdAt a) with
  | Some tb, Some ta => tb - ta
  | _, _ => 0
  end.

Definition getLatestMessageForConversation (s : Store) (conversationId : string)
  : option Message.t :=
  hd_error
    (Array_sort compareMessagesNewestFirst
       (filter (fun m => String.eqb (Message.conversationId m) conversationId)
               (JsMap.values (messages s)))).

(** ** Route handlers ([app/api]) *)

Record ApiError : Type := {
  err_code : string;
  err_message : string
}.

Inductive Response (A : Type) : Type :=
| Json (status : Z) (body : A)
| JsonError (status : Z) (error : ApiError).

Arguments Json {A} status body.
Arguments JsonError {A} status error.

Record MessageIngestionResponse : Type := {
  res_messageId : string;
  res_conversationId : string;
  res_contactId : string;
  res_priority : Z
}.

(** The identifiers one ingestion call may draw from [uuidv4()]. *)
Record Uuids : Type := {
  uuid_contact : string;
  uuid_conversation : string;
  uuid_message : string
}.

(** Request bodies.  A missing text field reads as the empty string (both
    are falsy); [receivedAt] is the date that [new Date(body.receivedAt)]
    denotes, [None] when the field is missing or empty. *)
Record EmailFrom : Type := { ef_email : string; ef_name : string }.

Record EmailMessageRequest : Type := {
  em_userId : string;
  em_externalMessageId : string;
  em_externalConversationId : string;
  em_from : option EmailFrom;
  em_subject : string;
  em_body : string;
  em_receivedAt : option Date;
  em_metadata : option Metadata
}.

Record SlackFrom : Type := {
  sf_email : string; sf_name : string; sf_slackUserId : option string
}.

Record SlackMessageRequest : Type := {
  sl_userId : string;
  sl_externalMessageId : string;
  sl_externalConversationId : string;
  sl_from : option SlackFrom;
  sl_content : string;
  sl_receivedAt : option Date;
  sl_metadata : option Metadata
}.

Record WhatsAppFrom : Type := {
  wf_email : string; wf_name : string; wf_phone : string
}.

Record WhatsAppMessageRequest : Type := {
  wa_userId : string;
  wa_externalMessageId : string;
  wa_externalConversationId : string;
  wa_from : option WhatsAppFrom;
  wa_content : string;
  wa_receivedAt : option Date;
  wa_metadata : option Metadata
}.

Record LinkedInFrom : Type := {
  lf_email : string; lf_name : string; lf_linkedinUrl : option string
}.

Record LinkedInMessageRequest : Type := {
  li_userId : string;
  li_externalMessageId : string;
  li_externalConversationId : string;
  li_from : option LinkedInFrom;
  li_content : string;
  li_receivedAt : option Date;
  li_metadata : option Metadata
}.

Definition is_empty (text : string) : bool := String.eqb text "".

(** [a || b] on text *)
Definition or_else (a b : string) : string := if is_empty a then b else a.

(** [body.metadata || {}] *)
Definition metadata_or_empty (m : option Metadata) : Metadata :=
  match m with Some md => md | None => [] end.

(** [{ ...body.metadata, key: value }] *)
Fixpoint Object_set (o : Metadata) (key : string) (value : JsValue) : Metadata :=
  match o with
  | [] => [(key, value)]
  | (k, v) :: rest =>
      if String.eqb k key then (k, value) :: rest
      else (k, v) :: Object_set rest key value
  end.

Definition optional_text (t : option string) : JsValue :=
  match t with Some s => JsStr s | None => JsUndefined end.

(** A metadata value used where text is expected ([channelName]). *)
Definition text_of (v : JsValue) : string :=
  match v with JsStr s => s | _ => "" end.

Definition validation_error {A : Type} (message : string) : Response A :=
  JsonError 400 {| err_code := "VALIDATION_ERROR"; err_message := message |}.

Definition user_not_found {A : Type} (userId : string) : Response A :=
  JsonError 404 {| err_code := "USER_NOT_FOUND";
                   err_message := ("User with id " ++ userId ++ " not found")%string |}.

Definition duplicate_message (externalMessageId : string)
  : Response MessageIngestionResponse :=
  JsonError 409
    {| err_code := "DUPLICATE_MESSAGE";
       err_message := ("Message with externalId " ++ externalMessageId
                       ++ " already exists")%string |}.

Definition internal_error {A : Type} : Response A :=
  JsonError 500 {| err_code := "INTERNAL_ERROR";
                   err_message := "An unexpected error occurred" |}.

(** The part the four ingestion handlers have in common, from the contact
    resolution to the response; they differ in the values passed here. *)
Definition resolveAndPersist (now : Z) (ids : Uuids) (source : Source)
  (userId externalMessageId externalConversationId : string)
  (contactEmail contactName title content : string)
  (messageMetadata priorityMetadata : Metadata) (receivedAt : option Date)
  : M (Response MessageIngestionResponse) :=
  contact <- findOrCreateContact now (uuid_contact ids)
               userId contactEmail contactName source ;;
  found <- findOrCreateConversation now (uuid_conversation ids)
             {| cv_userId := userId;
                cv_contactId := Contact.id contact;
                cv_externalId := externalConversationId;
                cv_source := source;
                cv_title := title |} ;;
  let conversation := fst found in
  let messageDate :=
    match receivedAt with Some d => d | None => ValidDate now end in
  message <- createMessage now (uuid_message ids)
               {| md_conversationId := Conversation.id conversation;
                  md_externalId := externalMessageId;
                  md_source := source;
                  md_content := content;
                  md_metadata := messageMetadata;
                  md_createdAt := Some messageDate |} ;;
  let priority :=
    to_Z (calculatePriority now
            {| ctx_source := source;
               ctx_content := content;
               ctx_lastMessageAt := messageDate;
               ctx_contactPriority := of_Z (Contact.priority contact);
               ctx_metadata := priorityMetadata |}) in
  updateConversationPriority now (Conversation.id conversation) priority
                             messageDate ;;;
  ret (Json 201 {| res_messageId := Message.id message;
                   res_conversationId := Conversation.id conversation;
                   res_contactId := Contact.id contact;
                   res_priority := priority |}).

Definition missing_ids : string :=
  "Missing required fields: userId, externalMessageId, externalConversationId".

(** [POST /api/messages/email]; [None] is a body that is not JSON. *)
Definition POST_email (now : Z) (ids : Uuids) (request : option EmailMessageRequest)
  : M (Response MessageIngestionResponse) :=
  try_catch
    (match request with
     | None => throw "SyntaxError"
     | Some body =>
         if is_empty (em_userId body) || is_empty (em_externalMessageId body)
            || is_empty (em_externalConversationId body)
         then ret (validation_error missing_ids)
         else
           match em_from body with
           | None =>
               ret (validation_error "Missing required fields: from.email, from.name")
           | Some from =>
               if is_empty (ef_email from) || is_empty (ef_name from)
               then ret (validation_error
                           "Missing required fields: from.email, from.name")
               else
                 user <- gets (fun s => getUser s (em_userId body)) ;;
                 match user with
                 | None => ret (user_not_found (em_userId body))
                 | Some _ =>
                     existingMessage <-
                       gets (fun s =>
                               findMessageByExternalId s (em_externalMessageId body)) ;;
                     match existingMessage with
                     | Some existing =>
                         gets (fun s =>
                                 getConversation s (Message.conversationId existing)) ;;;
                         ret (duplicate_message (em_externalMessageId body))
                     | None =>
                         resolveAndPersist now ids email
                           (em_userId body) (em_externalMessageId body)
                           (em_externalConversationId body)
                           (ef_email from) (ef_name from)
                           (or_else (em_subject body) "(No Subject)")
                           (em_body body)
                           (metadata_or_empty (em_metadata body))
                           (metadata_or_empty (em_metadata body))
                           (em_receivedAt body)
                     end
                 end
           end
     end)
    (fun error =>
       console_error "Error processing email message:" error ;;;
       ret internal_error).

(** [POST /api/messages/slack] *)
Definition POST_slack (now : Z) (ids : Uuids) (request : option SlackMessageRequest)
  : M (Response MessageIngestionResponse) :=
  try_catch
    (match request with
     | None => throw "SyntaxError"
     | Some body =>
         if is_empty (sl_userId body) || is_empty (sl_externalMessageId body)
            || is_empty (sl_externalConversationId body)
         then ret (validation_error missing_ids)
         else
           match sl_from body with
           | None =>
               ret (validation_error "Missing required fields: from.email, from.name")
           | Some from =>
               if is_empty (sf_email from) || is_empty (sf_name from)
               then ret (validation_error
                           "Missing required fields: from.email, from.name")
               else
                 user <- gets (fun s => getUser s (sl_userId body)) ;;
                 match user with
                 | None => ret (user_not_found (sl_userId body))
                 | Some _ =>
                     existingMessage <-
                       gets (fun s =>
                               findMessageByExternalId s (sl_externalMessageId body)) ;;
                     match existingMessage with
                     | Some _ => ret (duplicate_message (sl_externalMessageId body))
                     | None =>
                         let md := metadata_or_empty (sl_metadata body) in
                         let title :=
                           if truthy (prop md "channelName")
                           then text_of (prop md "channelName")
                           else if truthy (prop md "isDirectMessage")
                                then ("DM with " ++ sf_name from)%string
                                else "Slack Conversation" in
                         resolveAndPersist now ids slack
                           (sl_userId body) (sl_externalMessageId body)
                           (sl_externalConversationId body)
                           (sf_email from) (sf_name from) title
                           (sl_content body)
                           (Object_set md "slackUserId"
                              (optional_text (sf_slackUserId from)))
                           md
                           (sl_receivedAt body)
                     end
                 end
           end
     end)
    (fun error =>
       console_error "Error processing Slack message:" error ;;;
       ret internal_error).

(** [POST /api/messages/whatsapp] *)
Definition POST_whatsapp (now : Z) (ids : Uuids)
  (request : option WhatsAppMessageRequest)
  : M (Response MessageIngestionResponse) :=
  try_catch
    (match request with
     | None => throw "SyntaxError"
     | Some body =>
         if is_empty (wa_userId body) || is_empty (wa_externalMessageId body)
            || is_empty (wa_externalConversationId body)
         then ret (validation_error missing_ids)
         else
           match wa_from body with
           | None =>
               ret (validation_error "Missing required fields: from.name, from.phone")
           | Some from =>
               if is_empty (wf_name from) || is_empty (wf_phone from)
               then ret (validation_error
                           "Missing required fields: from.name, from.phone")
               else
                 user <- gets (fun s => getUser s (wa_userId body)) ;;
                 match user with
                 | None => ret (user_not_found (wa_userId body))
                 | Some _ =>
                     existingMessage <-
                       gets (fun s =>
                               findMessageByExternalId s (wa_externalMessageId body)) ;;
                     match existingMessage with
                     | Some _ => ret (duplicate_message (wa_externalMessageId body))
                     | None =>
                         let md := metadata_or_empty (wa_metadata body) in
                         let contactEmail :=
                           or_else (wf_email from)
                                   (wf_phone from ++ "@whatsapp.placeholder")%string in
                         let title :=
                           if truthy (prop md "isGroupChat")
                           then "WhatsApp Group"
                           else ("WhatsApp with " ++ wf_name from)%string in
                         resolveAndPersist now ids whatsapp
                           (wa_userId body) (wa_externalMessageId body)
                           (wa_externalConversationId body)
                           contactEmail (wf_name from) title
                           (wa_content body)
                           (Object_set md "phone" (JsStr (wf_phone from)))
                           md
                           (wa_receivedAt body)
                     end
                 end
           end
     end)
    (fun error =>
       console_error "Error processing WhatsApp message:" error ;;;
       ret internal_error).

(** [POST /api/messages/linkedin] *)
Definition POST_linkedin (now : Z) (ids : Uuids)
  (request : option LinkedInMessageRequest)
  : M (Response MessageIngestionResponse) :=
  try_catch
    (match request with
     | None => throw "SyntaxError"
     | Some body =>
         if is_empty (li_userId body) || is_empty (li_externalMessageId body)
            || is_empty (li_externalConversationId body)
         then ret (validation_error missing_ids)
         else
           match li_from body with
           | None =>
               ret (validation_error "Missing required fields: from.email, from.name")
           | Some from =>
               if is_empty (lf_email from) || is_empty (lf_name from)
               then ret (validation_error
                           "Missing required fields: from.email, from.name")
               else
                 user <- gets (fun s => getUser s (li_userId body)) ;;
                 match user with
                 | None => ret (user_not_found (li_userId body))
                 | Some _ =>
                     existingMessage <-
                       gets (fun s =>
                               findMessageByExternalId s (li_externalMessageId body)) ;;
                     match existingMessage with
                     | Some _ => ret (duplicate_message (li_externalMessageId body))
                     | None =>
                         let md := metadata_or_empty (li_metadata body) in
                         let title :=
                           if truthy (prop md "isInMail")
                           then ("InMail from " ++ lf_name from)%string
                           else ("LinkedIn with " ++ lf_name from)%string in
                         resolveAndPersist now ids linkedin
                           (li_userId body) (li_externalMessageId body)
                           (li_externalConversationId body)
                           (lf_email from) (lf_name from) title
                           (li_content body)
                           (Object_set md "linkedinUrl"
                              (optional_text (lf_linkedinUrl from)))
                           md
                           (li_receivedAt body)
                     end
                 end
           end
     end)
    (fun error =>
       console_error "Error processing LinkedIn message:" error ;;;
       ret internal_error).

(** [POST /api/users] *)
Record CreateUserRequest : Type := {
  cu_id : option string;
  cu_email : string;
  cu_name : string
}.

Definition POST_users (now : Z) (uuid : string) (request : option CreateUserRequest)
  : M (Response User.t) :=
  try_catch
    (match request with
     | None => throw "SyntaxError"
     | Some body =>
         if is_empty (cu_email body) || is_empty (cu_name body)
         then ret (validation_error "Missing required fields: email, name")
         else
           user <- createUser now uuid (cu_id body) (cu_email body) (cu_name body) ;;
           ret (Json 201 user)
     end)
    (fun error =>
       console_error "Error creating user:" error ;;;
       ret internal_error).

(** [GET /api/conversations] *)
Record ContactSummary : Type := {
  cs_id : string;
  cs_name : string;
  cs_email : string
}.

Record ConversationListItem : Type := {
  item_id : string;
  item_externalId : string;
  item_source : Source;
  item_title : string;
  item_priority : Z;
  item_lastMessageAt : Z;
  item_contact : ContactSummary;
  item_messageCount : Z;
  item_createdAt : Z;
  item_updatedAt : Z
}.

Record Pagination : Type := {
  pg_page : Integral;
  pg_limit : Integral;
  pg_total : Z;
  pg_totalPages : Integral
}.

Record ConversationList : Type := {
  list_data : list ConversationListItem;
  list_pagination : Pagination
}.

Fixpoint mapM {A B : Type} (f : A -> M B) (l : list A) : M (list B) :=
  match l with
  | [] => ret []
  | x :: rest =>
      y <- f x ;;
      ys <- mapM f rest ;;
      ret (y :: ys)
  end.

(** [Math.ceil(total / limit)] *)
Definition totalPages (total : Z) (limit : Integral) : Integral :=
  match limit with
  | IntVal l =>
      if l =? 0 then (if total =? 0 then NotANumber
                      else if 0 <? total then PosInfinity else NegInfinity)
      else IntVal (- ((- total) / l))
  | PosInfinity | NegInfinity => IntVal 0
  | NotANumber => NotANumber
  end.

(** One entry of the listing; [toISOString] throws on an invalid date. *)
Definition toListItem (now : Z) (conversation : Conversation.t)
  : M ConversationListItem :=
  contact <- gets (fun s => getContact s (Conversation.contactId conversation)) ;;
  messageCount <-
    gets (fun s => getMessageCountForConversation s (Conversation.id conversation)) ;;
  let priority :=
    getPriorityWithInactivityCheck now (Conversation.priority conversation)
                                   (Conversation.lastMessageAt conversation) in
  match getTime (Conversation.lastMessageAt conversation) with
  | None => throw "RangeError: Invalid time value"
  | Some lastMessageAt =>
      ret {| item_id := Conversation.id conversation;
             item_externalId := Conversation.externalId conversation;
             item_source := Conversation.source conversation;
             item_title := Conversation.title conversation;
             item_priority := priority;
             item_lastMessageAt := lastMessageAt;
             item_contact :=
               {| cs_id := match contact with
                           | Some c => Contact.id c | None => "" end;
                  cs_name := match contact with
                             | Some c => or_else (Contact.name c) "Unknown"
                             | None => "Unknown" end;
                  cs_email := match contact with
                              | Some c => Contact.email c | None => "" end |};
             item_messageCount := messageCount;
             item_createdAt := Conversation.createdAt conversation;
             item_updatedAt := Conversation.updatedAt conversation |}
  end.

(** The query: [q_page] and [q_limit] are what [parseInt] makes of the
    parameter, [None] when the parameter is missing or empty. *)
Definition GET_conversations (now : Z)
  (q_userId : option string) (q_page q_limit : option Integral)
  (q_source : option string) : M (Response ConversationList) :=
  try_catch
    (let page :=
       Math_max 1 (match q_page with Some p => p | None => IntVal 1 end) in
     let limit :=
       Math_min 100
         (Math_max 1 (match q_limit with Some l => l | None => IntVal 20 end)) in
     match q_userId with
     | None => ret (validation_error "Missing required query parameter: userId")
     | Some userId =>
         if is_empty userId
         then ret (validation_error "Missing required query parameter: userId")
         else
           user <- gets (fun s => getUser s userId) ;;
           match user with
           | None => ret (user_not_found userId)
           | Some _ =>
               found <- gets (fun s =>
                          getConversationsForUser s userId (Some page) (Some limit)
                                                  q_source) ;;
               let '(conversations, total) := found in
               data <- mapM (toListItem now) conversations ;;
               ret (Json 200
                      {| list_data := data;
                         list_pagination :=
                           {| pg_page := page; pg_limit := limit;
                              pg_total := total;
                              pg_totalPages := totalPages total limit |} |})
           end
     end)
    (fun error =>
       console_error "Error fetching conversations:" error ;;;
       ret internal_error).

(** ** The requests that change the store, and runs of them *)

(** An ingestion request on one of the four channels, with the identifiers
    its handling may draw. *)
Inductive Ingestion : Type :=
| ViaEmail (ids : Uuids) (body : option EmailMessageRequest)
| ViaSlack (ids : Uuids) (body : option SlackMessageRequest)
| ViaWhatsApp (ids : Uuids) (body : option WhatsAppMessageRequest)
| ViaLinkedIn (ids : Uuids) (body : option LinkedInMessageRequest).

Definition ingest (now : Z) (i : Ingestion)
  : M (Response MessageIngestionResponse) :=
  match i with
  | ViaEmail ids body => POST_email now ids body
  | ViaSlack ids body => POST_slack now ids body
  | ViaWhatsApp ids body => POST_whatsapp now ids body
  | ViaLinkedIn ids body => POST_linkedin now ids body
  end.

(** Besides ingestion, users are created and stream routes subscribe and
    unsubscribe their listeners. *)
Inductive Request : Type :=
| CreateUser (uuid : string) (body : option CreateUserRequest)
| Ingest (i : Ingestion)
| Subscribe (listener : EventEmitter.Listener)
| Unsubscribe (listener : EventEmitter.Listener).

(** The store a request leaves when it arrives at time [now]. *)
Definition handle (s : Store) (timed : Z * Request) : Store :=
  let '(now, request) := timed in
  match request with
  | CreateUser uuid body => snd (fst (POST_users now uuid body s))
  | Ingest i => snd (fst (ingest now i s))
  | Subscribe listener => with_events (EventEmitter.subscribe listener) s
  | Unsubscribe listener => with_events (EventEmitter.unsubscribe listener) s
  end.

Definition run (requests : list (Z * Request)) (s : Store) : Store :=
  fold_left handle requests s.

(** ** The store at start-up ([constructor] and [seedData]) *)

Definition emptyStore : Store :=
  {| users := JsMap.empty; contacts := JsMap.empty;
     conversations := JsMap.empty; messages := JsMap.empty;
     messagesByExternalId := JsMap.empty;
     contactsByUserAndEmail := JsMap.empty;
     conversationsByUserAndExternalId := JsMap.empty;
     heap := []; events := {| EventEmitter.listeners := [] |} |}.

Definition createSeededConversation (now : Z) (uuid : string)
  (data : ConversationData) (s : Store) : Conversation.t * Store :=
  let conversation :=
    {| Conversation.id := uuid;
       Conversation.externalId := cv_externalId data;
       Conversation.userId := cv_userId data;
       Conversation.contactId := cv_contactId data;
       Conversation.source := cv_source data;
       Conversation.title := cv_title data;
       Conversation.priority := 50;
       Conversation.lastMessageAt := ValidDate now;
       Conversation.createdAt := now;
       Conversation.updatedAt := now |} in
  (conversation,
   with_conversation (Conversation.id conversation)
     (Conversation.userId conversation ++ ":"
      ++ Source_name (Conversation.source conversation) ++ ":"
      ++ Conversation.externalId conversation)%string
     conversation s).

Definition createSeededMessage (now : Z) (uuid : string)
  (conversationId externalId : string) (source : Source) (content : string)
  (metadata : Metadata) (createdAt : Date) (s : Store) : Store :=
  let message :=
    {| Message.id := uuid;
       Message.conversationId := conversationId;
       Message.externalId := externalId;
       Message.source := source;
       Message.content := content;
       Message.metadata := metadata;
       Message.createdAt := createdAt;
       Message.updatedAt := now |} in
  with_message (Message.id message) (Message.externalId message) message s.

(** The body of the [forEach] of [updateConversationPrioritiesFromMessages],
    for the conversation object at reference [r]. *)
Definition updatePriorityFromMessages (now : Z) (s : Store) (r : nat) : Store :=
  match deref s r with
  | None => s
  | Some conversation =>
      match getLatestMessageForConversation s (Conversation.id conversation),
            JsMap.get (contacts s) (Conversation.contactId conversation) with
      | Some latestMessage, Some contact =>
          let priority :=
            to_Z (calculatePriority now
                    {| ctx_source := Conversation.source conversation;
                       ctx_content := Message.content latestMessage;
                       ctx_lastMessageAt := Message.createdAt latestMessage;
                       ctx_contactPriority := of_Z (Contact.priority contact);
                       ctx_metadata := Message.metadata latestMessage |}) in
          with_heap r
            {| Conversation.id := Conversation.id conversation;
               Conversation.externalId := Conversation.externalId conversation;
               Conversation.userId := Conversation.userId conversation;
               Conversation.contactId := Conversation.contactId conversation;
               Conversation.source := Conversation.source conversation;
               Conversation.title := Conversation.title conversation;
               Conversation.priority := priority;
               Conversation.lastMessageAt := Message.createdAt latestMessage;
               Conversation.createdAt := Conversation.createdAt conversation;
               Conversation.updatedAt := now |} s
      | _, _ => s
      end
  end.

Definition updateConversationPrioritiesFromMessages (now : Z) (s : Store) : Store :=
  fold_left (updatePriorityFromMessages now) (JsMap.values (conversations s)) s.

(** [new Date(now.getTime() - hours * 60 * 60 * 1000)]; a time value is
    cut to an integer. *)
Definition hoursAgo (now : Z) (hours : Q) : Date :=
  let t := (inject_Z now - hours * inject_Z (60 * 60 * 1000))%Q in
  ValidDate (Z.quot (Qnum t) (Zpos (Qden t))).

Definition jsTrue : JsValue := JsBool true.
Definition jsFalse : JsValue := JsBool false.

(** [uuid n] is the result of the [n]-th call of [uuidv4()]. *)
Definition seedData (now : Z) (uuid : nat -> string) : Store :=
  let demoUser :=
    {| User.id := "user-demo"; User.email := "demo@kinso.dev";
       User.name := "Demo User"; User.createdAt := now; User.updatedAt := now |} in
  let s := with_users (fun m => JsMap.set m (User.id demoUser) demoUser) emptyStore in
  let mkContact (id email name : string) (source : Source) (priority : Z) :=
    {| Contact.id := id; Contact.userId := User.id demoUser;
       Contact.email := email; Contact.name := name; Contact.source := source;
       Contact.priority := priority;
       Contact.createdAt := now; Contact.updatedAt := now |} in
  let contactCeo :=
    mkContact (uuid 0%nat) "sarah.chen@acme.com" "Sarah Chen (CEO)" email 90 in
  let contactSlack :=
    mkContact (uuid 1%nat) "mike.johnson@team.com" "Mike Johnson" slack 60 in
  let contactClient :=
    mkContact (uuid 2%nat) "alex.rivera@client.io" "Alex Rivera" whatsapp 75 in
  let contactLinkedin :=
    mkContact (uuid 3%nat) "recruiter@bigtech.com" "Jennifer Wu" linkedin 40 in
  let s :=
    fold_left
      (fun s contact =>
         with_contact (Contact.id contact)
           (Contact.userId contact ++ ":" ++ Contact.email contact)%string
           contact s)
      [contactCeo; contactSlack; contactClient; contactLinkedin] s in
  let conversation externalId contactId source title :=
    {| cv_userId := User.id demoUser; cv_contactId := contactId;
       cv_externalId := externalId; cv_source := source; cv_title := title |} in
  let '(conv1, s) :=
    createSeededConversation now (uuid 4%nat)
      (conversation "thread-001" (Contact.id contactCeo) email
         "Q4 Board Presentation - URGENT Review Needed") s in
  let s :=
    createSeededMessage now (uuid 5%nat) (Conversation.id conv1) "msg-001" email
      "Hi, I need you to review the Q4 board presentation ASAP. The board meeting is tomorrow and this is critical. Please prioritize this immediately."
      [("importance", JsStr "high"); ("hasAttachments", jsTrue)]
      (hoursAgo now 1) s in
  let s :=
    createSeededMessage now (uuid 6%nat) (Conversation.id conv1) "msg-002" email
      "Just following up - this is urgent. Can you confirm you received this?"
      [("importance", JsStr "high"); ("isReply", jsTrue)]
      (hoursAgo now (1 # 2)) s in
  let '(conv2, s) :=
    createSeededConversation now (uuid 7%nat)
      (conversation "dm-mike-001" (Contact.id contactSlack) slack
         "DM with Mike Johnson") s in
  let s :=
    createSeededMessage now (uuid 8%nat) (Conversation.id conv2) "msg-003" slack
      "Hey! Quick question about the API integration. Are we still using v2 or have we migrated to v3?"
      [("isDirectMessage", jsTrue)] (hoursAgo now 2) s in
  let s :=
    createSeededMessage now (uuid 9%nat) (Conversation.id conv2) "msg-004" slack
      "Also, the client is asking about the timeline. Can you give me an update when you get a chance?"
      [("isDirectMessage", jsTrue)] (hoursAgo now (3 # 2)) s in
  let '(conv3, s) :=
    createSeededConversation now (uuid 10%nat)
      (conversation "wa-alex-001" (Contact.id contactClient) whatsapp
         "Alex Rivera") s in
  let s :=
    createSeededMessage now (uuid 11%nat) (Conversation.id conv3) "msg-005" whatsapp
      "Hi! Just wanted to check on the project status. We have a deadline coming up and need to make sure everything is on track."
      [("messageType", JsStr "text")] (hoursAgo now 3) s in
  let s :=
    createSeededMessage now (uuid 12%nat) (Conversation.id conv3) "msg-006" whatsapp
      "Also, can we schedule a call for this week? Its important we align on next steps."
      [("messageType", JsStr "text")] (hoursAgo now (5 # 2)) s in
  let '(conv4, s) :=
    createSeededConversation now (uuid 13%nat)
      (conversation "li-jennifer-001" (Contact.id contactLinkedin) linkedin
         "Jennifer Wu - BigTech Opportunity") s in
  let s :=
    createSeededMessage now (uuid 14%nat) (Conversation.id conv4) "msg-007" linkedin
      "Hi! I came across your profile and I think you would be a great fit for a Senior Engineer role at BigTech. Would you be interested in learning more?"
      [("connectionDegree", JsNumber (of_Z 2)); ("isInMail", jsTrue);
       ("profileHeadline", JsStr "Tech Recruiter at BigTech")]
      (hoursAgo now 24) s in
  let '(conv5, s) :=
    createSeededConversation now (uuid 15%nat)
      (conversation "thread-002" (Contact.id contactCeo) email
         "Weekly Team Sync Notes") s in
  let s :=
    createSeededMessage now (uuid 16%nat) (Conversation.id conv5) "msg-008" email
      "Hi team, here are the notes from our weekly sync. Please review and let me know if I missed anything. No rush on this."
      [("importance", JsStr "normal")] (hoursAgo now 48) s in
  let '(conv6, s) :=
    createSeededConversation now (uuid 17%nat)
      (conversation "channel-eng-001" (Contact.id contactSlack) slack
         "#engineering") s in
  let s :=
    createSeededMessage now (uuid 18%nat) (Conversation.id conv6) "msg-009" slack
      "Has anyone seen the new TypeScript 5.4 features? Looks like they added some cool stuff for type inference."
      [("channelName", JsStr "engineering"); ("isDirectMessage", jsFalse)]
      (hoursAgo now 12) s in
  let s :=
    createSeededMessage now (uuid 19%nat) (Conversation.id conv6) "msg-010" slack
      "@demo-user what do you think about migrating our codebase?"
      [("channelName", JsStr "engineering"); ("isDirectMessage", jsFalse);
       ("mentions", JsArray [JsStr "demo-user"])]
      (hoursAgo now 10) s in
  updateConversationPrioritiesFromMessages now s.

(** The body of the loop of [calculateUrgencyScore], for a given test of
    the keyword. *)
Definition max_step (matches : string -> bool) (maxScore : Z) (entry : string * Z)
  : Z :=
  let '(keyword, score) := entry in
  if matches keyword then Z.max maxScore score else maxScore.

(** Specification side of the inactivity threshold: [now] minus the time of
    the last message is at least seven days, in milliseconds. *)
Definition sevenDaysOrMore (now : Z) (lastMessageAt : Date) : Prop :=
  match lastMessageAt with
  | ValidDate t => 7 * (24 * 60 * 60 * 1000) <= now - t
  | InvalidDate => False
  end.


(** The weighted, normalised term of a signal that ranges over [0, bound],
    and that of the provider boost, as [weightedSum] computes them. *)
Definition scaled_term (bound : Z) (weight : spec_float) (v : Z) : spec_float :=
  mul (mul (div (of_Z v) (of_Z bound)) (of_Z 100)) weight.

Definition boost_term (v : Z) : spec_float :=
  mul (mul (div (add (of_Z v) (of_Z 10)) (of_Z 20)) (of_Z 100)) lit_0_05.

(** The [n] integers from [lo] on. *)
Definition Zrange (lo : Z) (n : nat) : list Z :=
  map (fun i => lo + Z.of_nat i) (seq 0 n).


(** What a listener adds to the output of an emission: the delivery and,
    when the listener throws, the line logged by the [catch]. *)
Definition listener_output (event : SSEEvent) (listener : EventEmitter.Listener)
  : list Output :=
  Delivered (EventEmitter.listenerId listener) event
  :: match EventEmitter.handler listener event with
     | None => []
     | Some error => [ConsoleError "Error in SSE listener:" error]
     end.

(** The output of [this.events.emit(event)] in a store. *)
Definition emit_out (event : SSEEvent) (s : Store) : list Output :=
  flat_map (listener_output event) (EventEmitter.listeners (events s)).


(** The contact that [createContact] builds when no priority is given. *)
Definition newContact (now : Z) (uuid userId email name : string) (source : Source)
  : Contact.t :=
  {| Contact.id := uuid;
     Contact.userId := userId;
     Contact.email := JsString.toLowerCase email;
     Contact.name := name;
     Contact.source := source;
     Contact.priority := 50;
     Contact.createdAt := now;
     Contact.updatedAt := now |}.

(** The key of a contact in [contactsByUserAndEmail]. *)
Definition contactKey (userId email : string) : string :=
  (userId ++ ":" ++ JsString.toLowerCase email)%string.







(** ** Ingestion: the notions the statements use *)

Definition ing_externalMessageId (i : Ingestion) : option string :=
  match i with
  | ViaEmail _ (Some body) => Some (em_externalMessageId body)
  | ViaSlack _ (Some body) => Some (sl_externalMessageId body)
  | ViaWhatsApp _ (Some body) => Some (wa_externalMessageId body)
  | ViaLinkedIn _ (Some body) => Some (li_externalMessageId body)
  | _ => None
  end.

Definition ing_userId (i : Ingestion) : option string :=
  match i with
  | ViaEmail _ (Some body) => Some (em_userId body)
  | ViaSlack _ (Some body) => Some (sl_userId body)
  | ViaWhatsApp _ (Some body) => Some (wa_userId body)
  | ViaLinkedIn _ (Some body) => Some (li_userId body)
  | _ => None
  end.

Definition present (text : string) : bool := negb (is_empty text).

(** The required identifying fields are there: the three ids, and the
    sender fields the channel asks for. *)
Definition ing_valid (i : Ingestion) : bool :=
  match i with
  | ViaEmail _ (Some body) =>
      present (em_userId body) && present (em_externalMessageId body)
      && present (em_externalConversationId body)
      && match em_from body with
         | Some from => present (ef_email from) && present (ef_name from)
         | None => false
         end
  | ViaSlack _ (Some body) =>
      present (sl_userId body) && present (sl_externalMessageId body)
      && present (sl_externalConversationId body)
      && match sl_from body with
         | Some from => present (sf_email from) && present (sf_name from)
         | None => false
         end
  | ViaWhatsApp _ (Some body) =>
      present (wa_userId body) && present (wa_externalMessageId body)
      && present (wa_externalConversationId body)
      && match wa_from body with
         | Some from => present (wf_name from) && present (wf_phone from)
         | None => false
         end
  | ViaLinkedIn _ (Some body) =>
      present (li_userId body) && present (li_externalMessageId body)
      && present (li_externalConversationId body)
      && match li_from body with
         | Some from => present (lf_email from) && present (lf_name from)
         | None => false
         end
  | _ => false
  end.

Definition userExists (s : Store) (userId : option string) : bool :=
  match userId with
  | Some u => match getUser s u with Some _ => true | None => false end
  | None => false
  end.

Definition responseStatus {A : Type} (r : Response A) : Z :=
  match r with Json status _ => status | JsonError status _ => status end.

Definition responseCode {A : Type} (r : Response A) : string :=
  match r with Json _ _ => "" | JsonError _ e => err_code e end.

(** Every stored message sits under its own id, and the dedup index maps
    its external id to it. *)
Definition messages_indexed (s : Store) : Prop :=
  NoDup (JsMap.keys (messages s))
  /\ forall k m, In (k, m) (messages s) ->
       Message.id m = k
       /\ JsMap.get (messagesByExternalId s) (Message.externalId m) = Some m.

(** The stores the running system can be in. *)
Inductive reachable : Store -> Prop :=
| reachable_start (now : Z) (uuid : nat -> string) : reachable (seedData now uuid)
| reachable_step (s : Store) (now : Z) (request : Request) :
    reachable s -> reachable (handle s (now, request)).

(** A generator of identifiers for examples: A, B, C, ... *)
Definition demo_uuid (n : nat) : string :=
  String (ascii_of_nat (65 + n)) EmptyString.


(** The objects that the creating operations build, and the key of a
    conversation in [conversationsByUserAndExternalId]. *)
Definition newConversation (now : Z) (uuid : string) (data : ConversationData)
  : Conversation.t :=
  {| Conversation.id := uuid;
     Conversation.externalId := cv_externalId data;
     Conversation.userId := cv_userId data;
     Conversation.contactId := cv_contactId data;
     Conversation.source := cv_source data;
     Conversation.title := cv_title data;
     Conversation.priority := 50;
     Conversation.lastMessageAt := ValidDate now;
     Conversation.createdAt := now;
     Conversation.updatedAt := now |}.

Definition conversationKey (data : ConversationData) : string :=
  (cv_userId data ++ ":" ++ Source_name (cv_source data) ++ ":"
   ++ cv_externalId data)%string.

Definition newMessage (now : Z) (uuid : string) (data : MessageData) : Message.t :=
  {| Message.id := uuid;
     Message.conversationId := md_conversationId data;
     Message.externalId := md_externalId data;
     Message.source := md_source data;
     Message.content := md_content data;
     Message.metadata := md_metadata data;
     Message.createdAt := match md_createdAt data with
                          | Some d => d
                          | None => ValidDate now
                          end;
     Message.updatedAt := now |}.


(** How a handler answers, by the checks it makes in turn; in the last
    case it goes on to resolve the contact and persist the message. *)
Inductive ingest_outcome (now : Z) (i : Ingestion) (s : Store) : Prop :=
| outcome_not_json :
    ing_externalMessageId i = None ->
    (exists out, ingest now i s = (out, s, Normal internal_error)) ->
    ingest_outcome now i s
| outcome_invalid (ext message : string) :
    ing_externalMessageId i = Some ext ->
    ing_valid i = false ->
    ingest now i s = ([], s, Normal (validation_error message)) ->
    ingest_outcome now i s
| outcome_no_user (ext userId : string) :
    ing_externalMessageId i = Some ext ->
    ing_valid i = true ->
    ing_userId i = Some userId ->
    userExists s (ing_userId i) = false ->
    ingest now i s = ([], s, Normal (user_not_found userId)) ->
    ingest_outcome now i s
| outcome_duplicate (ext : string) (existing : Message.t) :
    ing_externalMessageId i = Some ext ->
    ing_valid i = true ->
    userExists s (ing_userId i) = true ->
    findMessageByExternalId s ext = Some existing ->
    ingest now i s = ([], s, Normal (duplicate_message ext)) ->
    ingest_outcome now i s
| outcome_created (ext : string) (out : list Output) (s' : Store)
    (response : MessageIngestionResponse) (message : Message.t) :
    ing_externalMessageId i = Some ext ->
    ing_valid i = true ->
    userExists s (ing_userId i) = true ->
    findMessageByExternalId s ext = None ->
    ingest now i s = (out, s', Normal (Json 201 response)) ->
    users s' = users s ->
    events s' = events s ->
    messages s' = JsMap.set (messages s) (Message.id message) message ->
    messagesByExternalId s' = JsMap.set (messagesByExternalId s) ext message ->
    Message.externalId message = ext ->
    (forall key c,
       JsMap.get (contactsByUserAndEmail s) key = Some c ->
       JsMap.get (contactsByUserAndEmail s') key = Some c) ->
    ingest_outcome now i s.


(** ** Listing: the notions the statements use *)

(** [a] may stand before [b]: a higher priority first and, among equal
    priorities, the later creation first. *)
Definition listedBefore (a b : Conversation.t) : Prop :=
  Conversation.priority a > Conversation.priority b
  \/ (Conversation.priority a = Conversation.priority b
      /\ Conversation.createdAt a >= Conversation.createdAt b).

(** The conversations of a user, of one channel when a channel is given. *)
Definition wanted (userId : string) (opt_source : option string)
  (c : Conversation.t) : bool :=
  String.eqb (Conversation.userId c) userId
  && match opt_source with
     | Some src =>
         is_empty src || String.eqb (Source_name (Conversation.source c)) src
     | None => true
     end.

Definition selectedConversations (s : Store) (userId : string)
  (opt_source : option string) : list Conversation.t :=
  filter (wanted userId opt_source) (conversationValues s).

(** The window of the listing for the page and limit that the store is
    given. *)
Definition pageOf (opt_page : option Integral) : Integral :=
  match opt_page with Some p => p | None => IntVal 1 end.

Definition limitOf (opt_limit : option Integral) : Integral :=
  Math_min 100 (match opt_limit with Some l => l | None => IntVal 20 end).

Definition windowStart (opt_page opt_limit : option Integral) : Integral :=
  Integral_mul (Integral_pred (pageOf opt_page)) (limitOf opt_limit).

(** The page and limit that [GET /api/conversations] passes to the store. *)
Definition routePage (q_page : option Integral) : Integral :=
  Math_max 1 (match q_page with Some p => p | None => IntVal 1 end).

Definition routeLimit (q_limit : option Integral) : Integral :=
  Math_min 100 (Math_max 1 (match q_limit with Some l => l | None => IntVal 20 end)).

(** The entry of the listing for a conversation, when its date is valid. *)
Definition listItem (now : Z) (s : Store) (conversation : Conversation.t)
  : option ConversationListItem :=
  match getTime (Conversation.lastMessageAt conversation) with
  | None => None
  | Some lastMessageAt =>
      let contact := getContact s (Conversation.contactId conversation) in
      Some
        {| item_id := Conversation.id conversation;
           item_externalId := Conversation.externalId conversation;
           item_source := Conversation.source conversation;
           item_title := Conversation.title conversation;
           item_priority :=
             getPriorityWithInactivityCheck now
               (Conversation.priority conversation)
               (Conversation.lastMessageAt conversation);
           item_lastMessageAt := lastMessageAt;
           item_contact :=
             {| cs_id := match contact with
                         | Some c => Contact.id c | None => "" end;
                cs_name := match contact with
                           | Some c => or_else (Contact.name c) "Unknown"
                           | None => "Unknown" end;
                cs_email := match contact with
                            | Some c => Contact.email c | None => "" end |};
           item_messageCount :=
             getMessageCountForConversation s (Conversation.id conversation);
           item_createdAt := Conversation.createdAt conversation;
           item_updatedAt := Conversation.updatedAt conversation |}
  end.

Fixpoint listItems (now : Z) (s : Store) (conversations : list Conversation.t)
  : option (list ConversationListItem) :=
  match conversations with
  | [] => Some []
  | c :: rest =>
      match listItem now s c with
      | None => None
      | Some item =>
          match listItems now s rest with
          | None => None
          | Some items => Some (item :: items)
          end
      end
  end.

(** The priority an entry reports for a conversation. *)
Definition reportedPriority (now : Z) (c : Conversation.t) : Z :=
  getPriorityWithInactivityCheck now (Conversation.priority c)
                                 (Conversation.lastMessageAt c).


(** A list of reported priorities that never goes up. *)
Definition descending (priorities : list Z) : Prop :=
  StronglySorted Z.ge priorities.

(** An example: the seeded store, one email eight days later, and the
    listing a minute after it. *)
Definition lunchRequest : Ingestion :=
  ViaEmail {| uuid_contact := "c1"; uuid_conversation := "v1";
              uuid_message := "m1" |}
    (Some {| em_userId := "user-demo"; em_externalMessageId := "new-msg-001";
             em_externalConversationId := "new-thread-001";
             em_from := Some {| ef_email := "boss@company.com";
                                ef_name := "The Boss" |};
             em_subject := "Lunch"; em_body := "Shall we have lunch on Friday?";
             em_receivedAt := None; em_metadata := None |}).

Definition eightDaysLater : Z := 1700000000000 + 8 * (24 * 60 * 60 * 1000).

Definition storeAfterLunch : Store :=
  run [(eightDaysLater, Ingest lunchRequest)] (seedData 1700000000000 demo_uuid).


(** ** Further notions the statements use *)

(** The recency score of a message of a given age in milliseconds. *)
Definition recencyOfAge (age : Z) : Z :=
  if age <? 1 * 3600000 then 20
  else if age <? 4 * 3600000 then 15
  else if age <? 24 * 3600000 then 10
  else if age <? 72 * 3600000 then 5
  else 0.


(** The weighted sum of the signals in exact arithmetic,
    0.4 c + u + r + re + 0.25 (pb + 10), rounded half up and clamped. *)
Definition exactScore (c u r re pb : Z) : Z :=
  Z.max 0
    (Z.min 100 ((8 * c + 20 * u + 20 * r + 20 * re + 5 * (pb + 10) + 10) / 20)).

(** The one combination of signals on which binary64 rounds the other way:
    no contact priority, no keyword, no recency, an email without
    importance.  The exact sum is 7.5; the doubles add up to 7.499.... *)
Definition roundsDown (c u r re pb : Z) : bool :=
  (c =? 0) && (u =? 0) && (r =? 0) && (re =? 5) && (pb =? 0).

Definition expectedScore (c u r re pb : Z) : Z :=
  if roundsDown c u r re pb then 7 else exactScore c u r re pb.

(** The values the signals take. *)
Definition urgencyValues : list Z := [0; 3; 5; 6; 7; 8; 10; 15; 18; 20].
Definition recencyValues : list Z := [0; 5; 10; 15; 20].

(** Response expectation and provider boost, channel by channel. *)
Definition channelSignals (source : Source) : list (Z * Z) :=
  match source with
  | email => [(5, 0); (5, 5); (5, -3)]
  | slack => [(12, 10); (12, 5); (12, 0); (12, -5)]
  | whatsapp => [(15, 0); (15, -5); (15, -10)]
  | linkedin => [(3, 0); (3, 5); (3, -5)]
  end.

Definition allChannelSignals : list (Z * Z) :=
  channelSignals email ++ channelSignals slack ++ channelSignals whatsapp
  ++ channelSignals linkedin.

Definition signalsOf (c u r re pb : Z) : PrioritySignals :=
  {| sig_contactPriority := of_Z c; sig_urgencyKeywords := u; sig_recency := r;
     sig_responseExpectation := re; sig_providerBoost := pb |}.

(** The check of the whole table of signals; every weighted term is
    computed once and passed on. *)
Definition urgencyTerms : list (Z * spec_float) :=
  map (fun u => (u, scaled_term 20 lit_0_2 u)) urgencyValues.

Definition recencyTerms : list (Z * spec_float) :=
  map (fun r => (r, scaled_term 20 lit_0_2 r)) recencyValues.

Definition channelTerms : list (Z * Z * (spec_float * spec_float)) :=
  map (fun p => (p, (scaled_term 15 lit_0_15 (fst p), boost_term (snd p))))
      allChannelSignals.

Definition agreesAt (t2 : spec_float) (c u r : Z)
  (pt : Z * Z * (spec_float * spec_float)) : bool :=
  to_Z (Math_max 0
          (Math_min 100
             (Math_round (add (add t2 (fst (snd pt))) (snd (snd pt))))))
  =? expectedScore c u r (fst (fst pt)) (snd (fst pt)).

Definition agreesFromRecency (t1 : spec_float) (c u : Z) (rt : Z * spec_float)
  : bool :=
  forallb (agreesAt (add t1 (snd rt)) c u (fst rt)) channelTerms.

Definition agreesFromUrgency (t0 : spec_float) (c : Z) (ut : Z * spec_float)
  : bool :=
  forallb (agreesFromRecency (add t0 (snd ut)) c (fst ut)) recencyTerms.

Definition agreesFromContact (c : Z) : bool :=
  forallb (agreesFromUrgency (mul (of_Z c) lit_0_4) c) urgencyTerms.

(** A context in which one field is replaced. *)
Definition withContactPriority (context : PriorityContext) (p : spec_float)
  : PriorityContext :=
  {| ctx_source := ctx_source context;
     ctx_content := ctx_content context;
     ctx_lastMessageAt := ctx_lastMessageAt context;
     ctx_contactPriority := p;
     ctx_metadata := ctx_metadata context |}.


Definition withLastMessageAt (context : PriorityContext) (d : Date)
  : PriorityContext :=
  {| ctx_source := ctx_source context;
     ctx_content := ctx_content context;
     ctx_lastMessageAt := d;
     ctx_contactPriority := ctx_contactPriority context;
     ctx_metadata := ctx_metadata context |}.

(** An email that carries no keyword, four days old, from a contact of
    priority 0. *)
Definition plainEmail : PriorityContext :=
  {| ctx_source := email;
     ctx_content := "see you at lunch";
     ctx_lastMessageAt := ValidDate (1700000000000 - 4 * (24 * 3600000));
     ctx_contactPriority := of_Z 0;
     ctx_metadata := [] |}.

(** ** A successful ingestion, step by step *)

(** The values a handler passes on once its checks have passed. *)
Record PersistCall : Type := {
  pc_ids : Uuids;
  pc_source : Source;
  pc_userId : string;
  pc_externalMessageId : string;
  pc_externalConversationId : string;
  pc_contactEmail : string;
  pc_contactName : string;
  pc_title : string;
  pc_content : string;
  pc_messageMetadata : Metadata;
  pc_priorityMetadata : Metadata;
  pc_receivedAt : option Date
}.

Definition ing_persist (i : Ingestion) : option PersistCall :=
  match i with
  | ViaEmail ids (Some body) =>
      match em_from body with
      | Some from =>
          Some {| pc_ids := ids; pc_source := email;
                  pc_userId := em_userId body;
                  pc_externalMessageId := em_externalMessageId body;
                  pc_externalConversationId := em_externalConversationId body;
                  pc_contactEmail := ef_email from;
                  pc_contactName := ef_name from;
                  pc_title := or_else (em_subject body) "(No Subject)";
                  pc_content := em_body body;
                  pc_messageMetadata := metadata_or_empty (em_metadata body);
                  pc_priorityMetadata := metadata_or_empty (em_metadata body);
                  pc_receivedAt := em_receivedAt body |}
      | None => None
      end
  | ViaSlack ids (Some body) =>
      match sl_from body with
      | Some from =>
          let md := metadata_or_empty (sl_metadata body) in
          Some {| pc_ids := ids; pc_source := slack;
                  pc_userId := sl_userId body;
                  pc_externalMessageId := sl_externalMessageId body;
                  pc_externalConversationId := sl_externalConversationId body;
                  pc_contactEmail := sf_email from;
                  pc_contactName := sf_name from;
                  pc_title :=
                    if truthy (prop md "channelName")
                    then text_of (prop md "channelName")
                    else if truthy (prop md "isDirectMessage")
                         then ("DM with " ++ sf_name from)%string
                         else "Slack Conversation";
                  pc_content := sl_content body;
                  pc_messageMetadata :=
                    Object_set md "slackUserId"
                      (optional_text (sf_slackUserId from));
                  pc_priorityMetadata := md;
                  pc_receivedAt := sl_receivedAt body |}
      | None => None
      end
  | ViaWhatsApp ids (Some body) =>
      match wa_from body with
      | Some from =>
          let md := metadata_or_empty (wa_metadata body) in
          Some {| pc_ids := ids; pc_source := whatsapp;
                  pc_userId := wa_userId body;
                  pc_externalMessageId := wa_externalMessageId body;
                  pc_externalConversationId := wa_externalConversationId body;
                  pc_contactEmail :=
                    or_else (wf_email from)
                            (wf_phone from ++ "@whatsapp.placeholder")%string;
                  pc_contactName := wf_name from;
                  pc_title :=
                    if truthy (prop md "isGroupChat")
                    then "WhatsApp Group"
                    else ("WhatsApp with " ++ wf_name from)%string;
                  pc_content := wa_content body;
                  pc_messageMetadata :=
                    Object_set md "phone" (JsStr (wf_phone from));
                  pc_priorityMetadata := md;
                  pc_receivedAt := wa_receivedAt body |}
      | None => None
      end
  | ViaLinkedIn ids (Some body) =>
      match li_from body with
      | Some from =>
          let md := metadata_or_empty (li_metadata body) in
          Some {| pc_ids := ids; pc_source := linkedin;
                  pc_userId := li_userId body;
                  pc_externalMessageId := li_externalMessageId body;
                  pc_externalConversationId := li_externalConversationId body;
                  pc_contactEmail := lf_email from;
                  pc_contactName := lf_name from;
                  pc_title :=
                    if truthy (prop md "isInMail")
                    then ("InMail from " ++ lf_name from)%string
                    else ("LinkedIn with " ++ lf_name from)%string;
                  pc_content := li_content body;
                  pc_messageMetadata :=
                    Object_set md "linkedinUrl"
                      (optional_text (lf_linkedinUrl from));
                  pc_priorityMetadata := md;
                  pc_receivedAt := li_receivedAt body |}
      | None => None
      end
  | _ => None
  end.

Definition persist (now : Z) (p : PersistCall)
  : M (Response MessageIngestionResponse) :=
  resolveAndPersist now (pc_ids p) (pc_source p) (pc_userId p)
    (pc_externalMessageId p) (pc_externalConversationId p)
    (pc_contactEmail p) (pc_contactName p) (pc_title p) (pc_content p)
    (pc_messageMetadata p) (pc_priorityMetadata p) (pc_receivedAt p).

(** The contact the call resolves to, and the store once it is resolved. *)
Definition resolvedContact (now : Z) (p : PersistCall) (s : Store) : Contact.t :=
  match findContactByUserAndEmail s (pc_userId p) (pc_contactEmail p) with
  | Some contact => contact
  | None =>
      newContact now (uuid_contact (pc_ids p)) (pc_userId p)
        (pc_contactEmail p) (pc_contactName p) (pc_source p)
  end.

Definition afterContact (now : Z) (p : PersistCall) (s : Store) : Store :=
  match findContactByUserAndEmail s (pc_userId p) (pc_contactEmail p) with
  | Some _ => s
  | None =>
      with_contact (uuid_contact (pc_ids p))
        (contactKey (pc_userId p) (pc_contactEmail p))
        (resolvedContact now p s) s
  end.

Definition conversationData (now : Z) (p : PersistCall) (s : Store)
  : ConversationData :=
  {| cv_userId := pc_userId p;
     cv_contactId := Contact.id (resolvedContact now p s);
     cv_externalId := pc_externalConversationId p;
     cv_source := pc_source p;
     cv_title := pc_title p |}.

(** The conversation of the message: the one on record for the user, the
    channel and the external id, else a new one. *)
Definition existingConversation (now : Z) (p : PersistCall) (s : Store)
  : option Conversation.t :=
  findConversationByUserAndExternalId (afterContact now p s)
    (pc_userId p) (pc_externalConversationId p) (pc_source p).

Definition resolvedConversation (now : Z) (p : PersistCall) (s : Store)
  : Conversation.t :=
  match existingConversation now p s with
  | Some conversation => conversation
  | None =>
      newConversation now (uuid_conversation (pc_ids p))
        (conversationData now p s)
  end.

Definition afterConversation (now : Z) (p : PersistCall) (s : Store) : Store :=
  match existingConversation now p s with
  | Some _ => afterContact now p s
  | None =>
      with_conversation (uuid_conversation (pc_ids p))
        (conversationKey (conversationData now p s))
        (newConversation now (uuid_conversation (pc_ids p))
           (conversationData now p s))
        (afterContact now p s)
  end.

Definition messageDate (now : Z) (p : PersistCall) : Date :=
  match pc_receivedAt p with Some d => d | None => ValidDate now end.

Definition persistedMessage (now : Z) (p : PersistCall) (s : Store) : Message.t :=
  newMessage now (uuid_message (pc_ids p))
    {| md_conversationId := Conversation.id (resolvedConversation now p s);
       md_externalId := pc_externalMessageId p;
       md_source := pc_source p;
       md_content := pc_content p;
       md_metadata := pc_messageMetadata p;
       md_createdAt := Some (messageDate now p) |}.

Definition afterMessage (now : Z) (p : PersistCall) (s : Store) : Store :=
  with_message (uuid_message (pc_ids p)) (pc_externalMessageId p)
    (persistedMessage now p s) (afterConversation now p s).

Definition priorityContext (now : Z) (p : PersistCall) (s : Store)
  : PriorityContext :=
  {| ctx_source := pc_source p;
     ctx_content := pc_content p;
     ctx_lastMessageAt := messageDate now p;
     ctx_contactPriority := of_Z (Contact.priority (resolvedContact now p s));
     ctx_metadata := pc_priorityMetadata p |}.

Definition persistedPriority (now : Z) (p : PersistCall) (s : Store) : Z :=
  to_Z (calculatePriority now (priorityContext now p s)).

(** The object that [updateConversationPriority] leaves. *)
Definition reprioritised (now : Z) (c : Conversation.t) (priority : Z)
  (lastMessageAt : Date) : Conversation.t :=
  {| Conversation.id := Conversation.id c;
     Conversation.externalId := Conversation.externalId c;
     Conversation.userId := Conversation.userId c;
     Conversation.contactId := Conversation.contactId c;
     Conversation.source := Conversation.source c;
     Conversation.title := Conversation.title c;
     Conversation.priority := priority;
     Conversation.lastMessageAt := lastMessageAt;
     Conversation.createdAt := Conversation.createdAt c;
     Conversation.updatedAt := now |}.

(** The object on record under an id, with its reference. *)
Definition conversationRef (s : Store) (conversationId : string)
  : option (nat * Conversation.t) :=
  match JsMap.get (conversations s) conversationId with
  | Some r => match deref s r with
              | Some c => Some (r, c)
              | None => None
              end
  | None => None
  end.

Definition afterPersist (now : Z) (p : PersistCall) (s : Store) : Store :=
  match conversationRef (afterMessage now p s)
          (Conversation.id (resolvedConversation now p s)) with
  | Some (r, c) =>
      with_heap r
        (reprioritised now c (persistedPriority now p s) (messageDate now p))
        (afterMessage now p s)
  | None => afterMessage now p s
  end.

Definition persistResponse (now : Z) (p : PersistCall) (s : Store)
  : MessageIngestionResponse :=
  {| res_messageId := uuid_message (pc_ids p);
     res_conversationId := Conversation.id (resolvedConversation now p s);
     res_contactId := Contact.id (resolvedContact now p s);
     res_priority := persistedPriority now p s |}.

(** The events of the call, in the order they are emitted. *)
Definition conversationNewEvent (c : Conversation.t) : SSEEvent :=
  {| ev_type := conversation_new;
     ev_data := {| ev_conversationId := Conversation.id c;
                   ev_userId := Conversation.userId c;
                   ev_priority := Some (Conversation.priority c);
                   ev_messageId := None |} |}.

Definition messageNewEvent (c : Conversation.t) (messageId : string) : SSEEvent :=
  {| ev_type := message_new;
     ev_data := {| ev_conversationId := Conversation.id c;
                   ev_userId := Conversation.userId c;
                   ev_priority := None;
                   ev_messageId := Some messageId |} |}.

Definition conversationUpdatedEvent (c : Conversation.t) : SSEEvent :=
  {| ev_type := conversation_updated;
     ev_data := {| ev_conversationId := Conversation.id c;
                   ev_userId := Conversation.userId c;
                   ev_priority := Some (Conversation.priority c);
                   ev_messageId := None |} |}.

Definition persistEvents (now : Z) (p : PersistCall) (s : Store) : list SSEEvent :=
  (match existingConversation now p s with
   | Some _ => []
   | None => [conversationNewEvent (resolvedConversation now p s)]
   end)
  ++ (match conversationRef (afterMessage now p s)
              (Conversation.id (resolvedConversation now p s)) with
      | Some (_, c) =>
          [messageNewEvent c (uuid_message (pc_ids p));
           conversationUpdatedEvent
             (reprioritised now c (persistedPriority now p s)
                            (messageDate now p))]
      | None => []
      end).

(** Every entry of [conversations] points to a conversation object that
    carries the id it is stored under, and the conversation an index entry
    points to is on record under its id. *)
Definition linked (s : Store) : Prop :=
  (forall id r,
     JsMap.get (conversations s) id = Some r ->
     exists c, deref s r = Some c /\ Conversation.id c = id)
  /\ (forall key r,
        JsMap.get (conversationsByUserAndExternalId s) key = Some r ->
        exists c, deref s r = Some c
                  /\ JsMap.get (conversations s) (Conversation.id c) <> None).

(** The seeded store of the examples, and a reply in one of its threads. *)
Definition demoStore : Store := seedData 1700000000000 demo_uuid.

Definition replyRequest : Ingestion :=
  ViaEmail {| uuid_contact := "c9"; uuid_conversation := "v9";
              uuid_message := "m9" |}
    (Some {| em_userId := "user-demo"; em_externalMessageId := "msg-900";
             em_externalConversationId := "thread-001";
             em_from := Some {| ef_email := "Sarah.Chen@acme.com";
                                ef_name := "Sarah" |};
             em_subject := "Re: budget";
             em_body := "Please review this, it is urgent";
             em_receivedAt := None; em_metadata := None |}).

(** The listeners an event is handed to, in the order of the calls. *)
Definition notified (s : Store) (sent : list SSEEvent)
  : list (nat * SSEEvent) :=
  flat_map (fun event =>
              map (fun l => (EventEmitter.listenerId l, event))
                  (EventEmitter.listeners (events s)))
           sent.

(** The seeded store with one stream open. *)
Definition watchedStore : Store :=
  run [(1700000000100,
        Subscribe {| EventEmitter.listenerId := 7;
                     EventEmitter.handler := fun _ => None |})]
      demoStore.

(** The seeded store after one stream has subscribed twice. *)
Definition twiceSubscribedStore : Store :=
  run [(1700000000200,
        Subscribe {| EventEmitter.listenerId := 7;
                     EventEmitter.handler := fun _ => None |})]
      watchedStore.

(** A text without a colon. *)
Fixpoint colonFree (text : string) : bool :=
  match text with
  | EmptyString => true
  | String c rest => negb (Ascii.eqb c ":") && colonFree rest
  end.


Definition seededThread : ConversationData :=
  {| cv_userId := "user-demo"; cv_contactId := "nobody";
     cv_externalId := "thread-001"; cv_source := email;
     cv_title := "Another title" |}.

(** ** The messages of a conversation *)













Definition undatedRequest : Ingestion :=
  ViaEmail {| uuid_contact := "c8"; uuid_conversation := "v8";
              uuid_message := "m8" |}
    (Some {| em_userId := "user-demo"; em_externalMessageId := "msg-800";
             em_externalConversationId := "thread-800";
             em_from := Some {| ef_email := "sarah.chen@acme.com";
                                ef_name := "Sarah" |};
             em_subject := "Hello"; em_body := "No date that can be read";
             em_receivedAt := Some InvalidDate; em_metadata := None |}).



(** A conversation whose last message has a date that can be read. *)
Definition datedConversation (c : Conversation.t) : bool :=
  match getTime (Conversation.lastMessageAt c) with
  | Some _ => true
  | None => false
  end.

(** Every contact of the index has a priority from 0 to 100. *)
Definition contacts_bounded (s : Store) : Prop :=
  forall key c,
    JsMap.get (contactsByUserAndEmail s) key = Some c ->
    0 <= Contact.priority c <= 100.

(** Every conversation object has a priority from 0 to 100. *)
Definition priorities_bounded (s : Store) : Prop :=
  forall r c, deref s r = Some c -> 0 <= Conversation.priority c <= 100.

(* ================================================================== *)
(** * Part II: properties *)
(* ================================================================== *)

(** ** Strings *)

Section StringFacts.

Import JsString.

Lemma lower_ascii_idem (c : ascii) : lower_ascii (lower_ascii c) = lower_ascii c.
Proof.
  destruct c as [[] [] [] [] [] [] [] []]; reflexivity.
Qed.

Lemma toLowerCase_idem (s : string) : toLowerCase (toLowerCase s) = toLowerCase s.
Proof.
  induction s as [|c s IH]; simpl; [reflexivity|].
  now rewrite lower_ascii_idem, IH.
Qed.

Lemma toLowerCase_app (a b : string) :
  toLowerCase (a ++ b) = (toLowerCase a ++ toLowerCase b)%string.
Proof.
  induction a as [|c a IH]; simpl; [reflexivity|]. now rewrite IH.
Qed.

(** On a keyword in lower case, the exact prefix test on the lowered
    content is the case-blind prefix test on the content. *)
Lemma prefix_lowered (kw s : string) :
  toLowerCase kw = kw ->
  String.prefix kw (toLowerCase s) = ci_prefix kw s.
Proof.
  revert s; induction kw as [|a kw IH]; intros s Hkw.
  - destruct s; reflexivity.
  - simpl in Hkw. injection Hkw as Ha Hkw'.
    destruct s as [|b s]; simpl; [reflexivity|].
    rewrite Ha.
    destruct (ascii_dec a (lower_ascii b)) as [->|Hne].
    + rewrite Ascii.eqb_refl. simpl. now apply IH.
    + destruct (Ascii.eqb a (lower_ascii b)) eqn:E; [|reflexivity].
      apply Ascii.eqb_eq in E. contradiction.
Qed.

Lemma includes_lowered (kw s : string) :
  toLowerCase kw = kw ->
  includes (toLowerCase s) kw = ci_substring kw s.
Proof.
  intros Hkw. induction s as [|b s IH].
  - pose proof (prefix_lowered kw EmptyString Hkw) as H.
    simpl in *. now rewrite H.
  - pose proof (prefix_lowered kw (String b s) Hkw) as H.
    cbn [toLowerCase includes ci_substring] in *.
    now rewrite H, IH.
Qed.



End StringFacts.

(** ** The urgency signal *)

Section Urgency.

Variable matches : string -> bool.

Lemma fold_max_step (table : list (string * Z)) (acc : Z) :
  0 <= acc ->
  fold_left (max_step matches) table acc =
  Z.max acc (fold_right Z.max 0
               (map snd (filter (fun entry => matches (fst entry)) table))).
Proof.
  revert acc; induction table as [|[kw sc] table IH]; intros acc Hacc; simpl.
  - lia.
  - destruct (matches kw); simpl.
    + rewrite IH by lia. lia.
    + now apply IH.
Qed.

End Urgency.

Lemma max_of_list_char (l : list Z) :
  let m := fold_right Z.max 0 l in
  0 <= m /\ (forall x, In x l -> x <= m) /\ (m = 0 \/ In m l).
Proof.
  induction l as [|x l (H0 & Hub & Hin)]; simpl.
  - repeat split; [lia|tauto|now left].
  - repeat split.
    + lia.
    + intros y [->|Hy]; [lia|]. specialize (Hub y Hy). lia.
    + destruct (Z.max_spec x (fold_right Z.max 0 l)) as [[_ ->]|[_ ->]].
      * destruct Hin as [->|Hin]; [now left|right; now right].
      * right; now left.
Qed.



Lemma urgency_keywords_lowercase (kw : string) (sc : Z) :
  In (kw, sc) URGENCY_KEYWORDS -> JsString.toLowerCase kw = kw.
Proof.
  unfold URGENCY_KEYWORDS; simpl.
  intros H.
  repeat (destruct H as [H|H]; [injection H as <- _; reflexivity|]).
  contradiction.
Qed.

Lemma filter_ext_In {A : Type} (f g : A -> bool) (l : list A) :
  (forall x, In x l -> f x = g x) -> filter f l = filter g l.
Proof.
  induction l as [|x l IH]; intros H; simpl; [reflexivity|].
  rewrite (H x) by now left.
  rewrite IH; [reflexivity|]. intros y Hy. apply H. now right.
Qed.

Lemma calculateUrgencyScore_unfold (content : string) :
  calculateUrgencyScore content =
  Z.min (fold_right Z.max 0 (matching_scores URGENCY_KEYWORDS content)) 20.
Proof.
  unfold calculateUrgencyScore, matching_scores.
  change (fun (maxScore : Z) (entry : string * Z) =>
            let '(keyword, score) := entry in
            if JsString.includes (JsString.toLowerCase content) keyword
            then Z.max maxScore score else maxScore)
    with (max_step (JsString.includes (JsString.toLowerCase content))).
  rewrite fold_max_step by lia.
  f_equal.
  rewrite (filter_ext_In
             (fun entry => JsString.includes (JsString.toLowerCase content) (fst entry))
             (fun entry => JsString.ci_substring (fst entry) content)).
  - pose proof (max_of_list_char
                  (map snd (filter (fun entry => JsString.ci_substring (fst entry) content)
                                   URGENCY_KEYWORDS))) as (H0 & _). lia.
  - intros [kw sc] Hin. simpl.
    apply includes_lowered. eapply urgency_keywords_lowercase; eauto.
Qed.


Lemma calculateUrgencyScore_range (content : string) :
  0 <= calculateUrgencyScore content <= 20.
Proof.
  rewrite calculateUrgencyScore_unfold.
  pose proof (max_of_list_char (matching_scores URGENCY_KEYWORDS content)) as (H0 & _).
  lia.
Qed.

(** ** Inactivity *)

Lemma isInactive_iff (now : Z) (lastMessageAt : Date) :
  isInactive now lastMessageAt = true <-> sevenDaysOrMore now lastMessageAt.
Proof.
  unfold isInactive, sevenDaysOrMore.
  destruct lastMessageAt as [t|]; simpl; [|split; [discriminate|contradiction]].
  rewrite Qle_bool_iff.
  unfold Qle, Qdiv, Qmult, Qinv, inject_Z, INACTIVITY_THRESHOLD_DAYS; simpl.
  lia.
Qed.

Lemma isInactive_false_iff (now : Z) (lastMessageAt : Date) :
  isInactive now lastMessageAt = false <-> ~ sevenDaysOrMore now lastMessageAt.
Proof.
  rewrite <- isInactive_iff.
  destruct (isInactive now lastMessageAt); split; congruence.
Qed.

(** C2.  Once the last message is seven days old or older,
    [calculatePriority] returns 0 whatever the other signals are, and the
    read-time check returns 0; otherwise the read-time check returns the
    stored priority unchanged. *)
Theorem inactivity_threshold
  (now : Z) (context : PriorityContext) (storedPriority : Z) (lastMessageAt : Date) :
  (sevenDaysOrMore now (ctx_lastMessageAt context) ->
   calculatePriority now context = IntVal 0)
  /\ (sevenDaysOrMore now lastMessageAt ->
      getPriorityWithInactivityCheck now storedPriority lastMessageAt = 0)
  /\ (~ sevenDaysOrMore now lastMessageAt ->
      getPriorityWithInactivityCheck now storedPriority lastMessageAt
      = storedPriority).
Proof.
  unfold calculatePriority, getPriorityWithInactivityCheck.
  repeat split; intros H.
  - apply isInactive_iff in H. now rewrite H.
  - apply isInactive_iff in H. now rewrite H.
  - apply isInactive_false_iff in H. now rewrite H.
Qed.

Lemma inactivity_threshold_witness :
  calculatePriority 1700000000000
    {| ctx_source := email; ctx_content := "URGENT: reply asap";
       ctx_lastMessageAt := ValidDate (1700000000000 - 604800000);
       ctx_contactPriority := of_Z 100;
       ctx_metadata := [("importance", JsStr "high")] |} = IntVal 0
  /\ getPriorityWithInactivityCheck 1700000000000 85
       (ValidDate (1700000000000 - 604800000)) = 0
  /\ getPriorityWithInactivityCheck 1700000000000 85
       (ValidDate (1700000000000 - 604799999)) = 85.
Proof.
  pose proof (inactivity_threshold 1700000000000
    {| ctx_source := email; ctx_content := "URGENT: reply asap";
       ctx_lastMessageAt := ValidDate (1700000000000 - 604800000);
       ctx_contactPriority := of_Z 100;
       ctx_metadata := [("importance", JsStr "high")] |}
    85 (ValidDate (1700000000000 - 604800000))) as (H1 & H2 & _).
  pose proof (inactivity_threshold 1700000000000
    {| ctx_source := email; ctx_content := "";
       ctx_lastMessageAt := InvalidDate;
       ctx_contactPriority := of_Z 0;
       ctx_metadata := [] |}
    85 (ValidDate (1700000000000 - 604799999))) as (_ & _ & H3).
  split; [apply H1; simpl; lia|].
  split; [apply H2; simpl; lia|].
  apply H3; simpl; lia.
Defined.

(** ** The chat provider boost *)

(** What the code computes for a chat message. *)
Lemma slack_boost_formula (metadata : Metadata) :
  calculateProviderBoost slack metadata =
  Z.max (-10)
    (Z.min 10
       ((if truthy (prop metadata "isDirectMessage") then 10 else 0)
        + (if nonempty_array (prop metadata "mentions") then 5 else 0)
        - (if negb (truthy (prop metadata "isDirectMessage"))
              && negb (truthy (prop metadata "mentions")) then 5 else 0))).
Proof.
  unfold calculateProviderBoost.
  destruct (truthy (prop metadata "isDirectMessage"));
    destruct (nonempty_array (prop metadata "mentions"));
    destruct (truthy (prop metadata "mentions")); reflexivity.
Qed.

(** C5.  A channel message that is not direct and carries an empty list of
    mentions gets no penalty: the empty array is truthy, so the test
    [!metadata.mentions] fails. *)
Theorem slack_boost_empty_mentions_not_penalised :
  calculateProviderBoost slack
    [("isDirectMessage", JsBool false); ("mentions", JsArray [])] = 0
  /\ calculateProviderBoost slack [("isDirectMessage", JsBool false)] = -5
  /\ calculateProviderBoost slack [("mentions", JsArray [])] = 0
  /\ calculateProviderBoost slack [] = -5.
Proof.
  repeat split; reflexivity.
Qed.

Lemma calculateProviderBoost_range (source : Source) (metadata : Metadata) :
  -10 <= calculateProviderBoost source metadata <= 10.
Proof.
  unfold calculateProviderBoost. lia.
Qed.

Lemma calculateRecencyScore_range (now : Z) (lastMessageAt : Date) :
  0 <= calculateRecencyScore now lastMessageAt <= 20.
Proof.
  unfold calculateRecencyScore.
  destruct (getTime lastMessageAt); [|lia].
  repeat match goal with |- context [if ?b then _ else _] => destruct b end; lia.
Qed.

Lemma RESPONSE_EXPECTATION_range (source : Source) :
  0 <= RESPONSE_EXPECTATION source <= 15.
Proof.
  destruct source; simpl; lia.
Qed.

(** ** Binary64 arithmetic never makes NaN out of numbers *)

Section FloatFacts.

Lemma shr_1_nonneg (mrs : shr_record) :
  0 <= shr_m mrs -> 0 <= shr_m (shr_1 mrs).
Proof.
  destruct mrs as [m r s]; simpl.
  destruct m as [|[p|p|]|[p|p|]]; simpl; lia.
Qed.

Lemma iter_shr_1_nonneg (p : positive) (mrs : shr_record) :
  0 <= shr_m mrs -> 0 <= shr_m (iter_pos shr_1 p mrs).
Proof.
  revert mrs; induction p as [p IH|p IH|]; intros mrs H; simpl.
  - apply IH, IH, shr_1_nonneg, H.
  - apply IH, IH, H.
  - apply shr_1_nonneg, H.
Qed.

Lemma shr_fexp_nonneg (m e : Z) (l : location) :
  0 <= m -> 0 <= shr_m (fst (shr_fexp prec emax m e l)).
Proof.
  intros H. unfold shr_fexp, shr.
  assert (0 <= shr_m (shr_record_of_loc m l)) as H0
    by (destruct l as [|[]]; simpl; exact H).
  destruct (fexp prec emax (Zdigits2 m + e) - e) as [|p|p]; simpl; try exact H0.
  now apply iter_shr_1_nonneg.
Qed.

Lemma round_nearest_even_nonneg (mx : Z) (lx : location) :
  0 <= mx -> 0 <= round_nearest_even mx lx.
Proof.
  intros H. destruct lx as [|[]]; simpl; try lia.
  destruct (Z.even mx); lia.
Qed.

Lemma binary_round_aux_not_nan (sx : bool) (mx ex : Z) (lx : location) :
  0 <= mx -> is_nan (binary_round_aux prec emax sx mx ex lx) = false.
Proof.
  intros H. unfold binary_round_aux.
  pose proof (shr_fexp_nonneg mx ex lx H) as H1.
  destruct (shr_fexp prec emax mx ex lx) as [mrs' e']. simpl in H1.
  pose proof (shr_fexp_nonneg
                (round_nearest_even (shr_m mrs') (loc_of_shr_record mrs'))
                e' loc_Exact
                (round_nearest_even_nonneg _ _ H1)) as H2.
  destruct (shr_fexp prec emax
              (round_nearest_even (shr_m mrs') (loc_of_shr_record mrs'))
              e' loc_Exact) as [mrs'' e'']. simpl in H2.
  destruct (shr_m mrs'') as [|p|p]; try reflexivity.
  - destruct (e'' <=? emax - prec); reflexivity.
  - lia.
Qed.

Lemma binary_round_not_nan (sx : bool) (mx : positive) (ex : Z) :
  is_nan (binary_round prec emax sx mx ex) = false.
Proof.
  unfold binary_round.
  destruct (shl_align mx ex (fexp prec emax (Z.pos (digits2_pos mx) + ex)))
    as [mz ez].
  apply binary_round_aux_not_nan. lia.
Qed.

Lemma binary_normalize_not_nan (m e : Z) (szero : bool) :
  is_nan (binary_normalize prec emax m e szero) = false.
Proof.
  destruct m; simpl; [reflexivity| |]; apply binary_round_not_nan.
Qed.

Lemma of_Z_not_nan (z : Z) : is_nan (of_Z z) = false.
Proof. apply binary_normalize_not_nan. Qed.

(** A number times a finite non-zero constant is a number. *)
Lemma mul_not_nan (x : spec_float) (s : bool) (m : positive) (e : Z) :
  is_nan x = false -> is_nan (mul x (S754_finite s m e)) = false.
Proof.
  destruct x as [sx|sx| |sx mx ex]; intros H; try discriminate; try reflexivity.
  unfold mul, SFmul. apply binary_round_aux_not_nan. lia.
Qed.

(** A number plus a finite number is a number. *)
Lemma add_not_nan (x y : spec_float) :
  is_nan x = false -> is_finite y = true -> is_nan (add x y) = false.
Proof.
  destruct x as [sx|sx| |sx mx ex]; destruct y as [sy|sy| |sy my ey];
    intros Hx Hy; try discriminate; try reflexivity.
  - simpl. destruct sx, sy; reflexivity.
  - unfold add, SFadd. apply binary_normalize_not_nan.
Qed.

Lemma Math_round_cases (x : spec_float) :
  is_nan x = false ->
  (exists z, Math_round x = IntVal z)
  \/ Math_round x = PosInfinity \/ Math_round x = NegInfinity.
Proof.
  destruct x as [s|s| |s m e]; intros H; try discriminate; simpl.
  - left; eauto.
  - destruct s; auto.
  - left. destruct e; eauto.
Qed.

(** The final clamp leaves an integer between 0 and 100. *)
Lemma clamp_round_range (x : spec_float) :
  is_nan x = false ->
  exists p, Math_max 0 (Math_min 100 (Math_round x)) = IntVal p /\ 0 <= p <= 100.
Proof.
  intros H.
  destruct (Math_round_cases x H) as [[z ->]|[->| ->]]; simpl.
  - eexists; split; [reflexivity|lia].
  - eexists; split; [reflexivity|lia].
  - eexists; split; [reflexivity|lia].
Qed.

End FloatFacts.

(** ** The weighted terms of the signals are finite *)

Lemma In_Zrange (lo : Z) (n : nat) (z : Z) :
  lo <= z < lo + Z.of_nat n -> In z (Zrange lo n).
Proof.
  intros H. unfold Zrange. apply in_map_iff.
  exists (Z.to_nat (z - lo)). split; [lia|].
  apply in_seq. lia.
Qed.

Lemma scaled_term_finite (bound : Z) (weight : spec_float) (v : Z) :
  forallb (fun z => is_finite (scaled_term bound weight z)) (Zrange 0 21) = true ->
  0 <= v <= 20 -> is_finite (scaled_term bound weight v) = true.
Proof.
  intros Hall Hv.
  rewrite forallb_forall in Hall. apply Hall, In_Zrange. lia.
Qed.

Lemma urgency_term_finite (v : Z) :
  0 <= v <= 20 -> is_finite (scaled_term 20 lit_0_2 v) = true.
Proof. apply scaled_term_finite. vm_compute. reflexivity. Qed.

Lemma response_term_finite (v : Z) :
  0 <= v <= 20 -> is_finite (scaled_term 15 lit_0_15 v) = true.
Proof. apply scaled_term_finite. vm_compute. reflexivity. Qed.

Lemma boost_term_finite (v : Z) :
  -10 <= v <= 10 -> is_finite (boost_term v) = true.
Proof.
  intros Hv.
  assert (forallb (fun z => is_finite (boost_term z)) (Zrange (-10) 21) = true)
    as Hall by (vm_compute; reflexivity).
  rewrite forallb_forall in Hall. apply Hall, In_Zrange. lia.
Qed.

Lemma weightedSum_terms (signals : PrioritySignals) :
  weightedSum signals =
  add (add (add (add (mul (sig_contactPriority signals) lit_0_4)
                     (scaled_term 20 lit_0_2 (sig_urgencyKeywords signals)))
                (scaled_term 20 lit_0_2 (sig_recency signals)))
           (scaled_term 15 lit_0_15 (sig_responseExpectation signals)))
      (boost_term (sig_providerBoost signals)).
Proof. reflexivity. Qed.

Lemma weightedSum_not_nan (now : Z) (context : PriorityContext) :
  is_nan (ctx_contactPriority context) = false ->
  is_nan (weightedSum (calculatePrioritySignals now context)) = false.
Proof.
  intros H. rewrite weightedSum_terms. simpl.
  repeat apply add_not_nan.
  - now apply mul_not_nan.
  - apply urgency_term_finite, calculateUrgencyScore_range.
  - apply urgency_term_finite, calculateRecencyScore_range.
  - apply response_term_finite.
    pose proof (RESPONSE_EXPECTATION_range (ctx_source context)). lia.
  - apply boost_term_finite, calculateProviderBoost_range.
Qed.

(** For every contact priority that is a number, the result is an integer
    between 0 and 100. *)
Lemma calculatePriority_number (now : Z) (context : PriorityContext) :
  is_nan (ctx_contactPriority context) = false ->
  exists p, calculatePriority now context = IntVal p /\ 0 <= p <= 100.
Proof.
  intros H. unfold calculatePriority.
  destruct (isInactive now (ctx_lastMessageAt context)).
  - exists 0. split; [reflexivity|lia].
  - apply clamp_round_range. now apply weightedSum_not_nan.
Qed.

Lemma leb_not_nan (x y : spec_float) : Number.leb x y = true -> is_nan y = false.
Proof.
  unfold Number.leb, SFleb.
  destruct x, y; simpl; try reflexivity; discriminate.
Qed.

(** C3.  For a contact priority between 0 and 100 and any content, date,
    channel and metadata, [calculatePriority] returns an integer between 0
    and 100. *)
Theorem calculatePriority_bounds (now : Z) (context : PriorityContext) :
  Number.leb (of_Z 0) (ctx_contactPriority context) = true ->
  Number.leb (ctx_contactPriority context) (of_Z 100) = true ->
  exists p, calculatePriority now context = IntVal p /\ 0 <= p <= 100.
Proof.
  intros Hlo _. apply calculatePriority_number.
  now apply leb_not_nan with (x := of_Z 0).
Qed.

Lemma calculatePriority_bounds_witness :
  exists p,
    calculatePriority 1700000000000
      {| ctx_source := email; ctx_content := "This is URGENT, reply asap";
         ctx_lastMessageAt := ValidDate (1700000000000 - 30 * 60 * 1000);
         ctx_contactPriority := of_Z 90;
         ctx_metadata := [("importance", JsStr "high")] |} = IntVal p
    /\ 0 <= p <= 100.
Proof.
  apply (calculatePriority_bounds 1700000000000
           {| ctx_source := email; ctx_content := "This is URGENT, reply asap";
              ctx_lastMessageAt := ValidDate (1700000000000 - 30 * 60 * 1000);
              ctx_contactPriority := of_Z 90;
              ctx_metadata := [("importance", JsStr "high")] |});
    vm_compute; reflexivity.
Defined.

(** The priority the engine stores is the number the calculator returned:
    the contact priorities of the store are integers. *)
Lemma calculatePriority_Z (now : Z) (context : PriorityContext) (cp : Z) :
  ctx_contactPriority context = of_Z cp ->
  calculatePriority now context = IntVal (to_Z (calculatePriority now context))
  /\ 0 <= to_Z (calculatePriority now context) <= 100.
Proof.
  intros Hcp.
  destruct (calculatePriority_number now context) as (p & Hp & Hr).
  - rewrite Hcp. apply of_Z_not_nan.
  - rewrite Hp. simpl. split; [reflexivity|assumption].
Qed.

(** The literals of [WEIGHTS] are the doubles nearest to the decimals. *)
Lemma weight_literals :
  lit_0_4 = div (of_Z 4) (of_Z 10) /\ lit_0_2 = div (of_Z 2) (of_Z 10)
  /\ lit_0_15 = div (of_Z 15) (of_Z 100) /\ lit_0_05 = div (of_Z 5) (of_Z 100).
Proof. repeat split; vm_compute; reflexivity. Qed.

(** ** Maps *)

Section MapFacts.

Context {V : Type}.

Lemma get_set_same (m : JsMap.t V) (k : string) (v : V) :
  JsMap.get (JsMap.set m k v) k = Some v.
Proof.
  induction m as [|[k' v'] m IH]; simpl.
  - now rewrite String.eqb_refl.
  - destruct (String.eqb k' k) eqn:E; simpl; rewrite E; [reflexivity|exact IH].
Qed.

Lemma get_set_other (m : JsMap.t V) (k k' : string) (v : V) :
  k' <> k -> JsMap.get (JsMap.set m k v) k' = JsMap.get m k'.
Proof.
  intros Hne. induction m as [|[k0 v0] m IH]; simpl.
  - destruct (String.eqb k k') eqn:E; [|reflexivity].
    apply String.eqb_eq in E. congruence.
  - destruct (String.eqb k0 k) eqn:E; simpl.
    + apply String.eqb_eq in E. subst k0.
      destruct (String.eqb k k') eqn:E'; [|reflexivity].
      apply String.eqb_eq in E'. congruence.
    + now rewrite IH.
Qed.

Lemma In_set (m : JsMap.t V) (k k' : string) (v v' : V) :
  In (k', v') (JsMap.set m k v) -> (k' = k /\ v' = v) \/ In (k', v') m.
Proof.
  induction m as [|[k0 v0] m IH]; simpl.
  - intros [H|[]]. injection H as <- <-. now left.
  - destruct (String.eqb k0 k) eqn:E.
    + apply String.eqb_eq in E. subst k0.
      intros [H|H]; [injection H as <- <-; now left|right; now right].
    + intros [H|H]; [right; now left|].
      destruct (IH H) as [?|?]; [now left|right; now right].
Qed.

Lemma keys_set_In (m : JsMap.t V) (k k' : string) (v : V) :
  In k' (JsMap.keys (JsMap.set m k v)) -> k' = k \/ In k' (JsMap.keys m).
Proof.
  unfold JsMap.keys. induction m as [|[k0 v0] m IH]; simpl.
  - intros [<-|[]]. now left.
  - destruct (String.eqb k0 k) eqn:E; simpl.
    + apply String.eqb_eq in E. subst k0. tauto.
    + intros [H|H]; [tauto|]. destruct (IH H); tauto.
Qed.

Lemma keys_set_NoDup (m : JsMap.t V) (k : string) (v : V) :
  NoDup (JsMap.keys m) -> NoDup (JsMap.keys (JsMap.set m k v)).
Proof.
  unfold JsMap.keys. induction m as [|[k0 v0] m IH]; simpl; intros H.
  - constructor; [tauto|constructor].
  - inversion H as [|? ? Hnin Hnd]; subst.
    destruct (String.eqb k0 k) eqn:E; simpl.
    + apply String.eqb_eq in E. subst k0. now constructor.
    + constructor; [|now apply IH].
      intros Hin. apply keys_set_In in Hin as [->|Hin]; [|contradiction].
      now rewrite String.eqb_refl in E.
Qed.

Lemma In_keys (m : JsMap.t V) (k : string) (v : V) :
  In (k, v) m -> In k (JsMap.keys m).
Proof.
  intros H. unfold JsMap.keys. apply in_map_iff. now exists (k, v).
Qed.

Lemma get_In (m : JsMap.t V) (k : string) (v : V) :
  JsMap.get m k = Some v -> In (k, v) m.
Proof.
  induction m as [|[k0 v0] m IH]; simpl; [discriminate|].
  destruct (String.eqb k0 k) eqn:E.
  - apply String.eqb_eq in E. subst k0. intros H. injection H as ->. now left.
  - intros H. right. now apply IH.
Qed.

End MapFacts.

(** ** User creation *)




(** ** Change notifier *)

Section Notifier.

Import EventEmitter.

(** What one listener contributes to the output of [emit]. *)
Lemma guarded_call (listener : Listener) (event : SSEEvent) :
  try_catch (call listener event)
            (fun error => console_error "Error in SSE listener:" error)
  = (listener_output event listener, Normal tt).
Proof.
  unfold try_catch, call, console_error, listener_output.
  destruct (handler listener event); reflexivity.
Qed.

Lemma forEach_guarded (event : SSEEvent) (ls : list Listener) :
  forEach
    (fun listener =>
       try_catch (call listener event)
                 (fun error => console_error "Error in SSE listener:" error))
    ls
  = (flat_map (listener_output event) ls, Normal tt).
Proof.
  induction ls as [|l ls IH]; [reflexivity|].
  cbn [forEach flat_map]. rewrite guarded_call, IH. reflexivity.
Qed.

Lemma emit_output (event : SSEEvent) (em : t) :
  emit event em = (flat_map (listener_output event) (listeners em), Normal tt).
Proof. apply forEach_guarded. Qed.

Lemma deliveries_app (a b : list Output) :
  deliveries (a ++ b) = deliveries a ++ deliveries b.
Proof. unfold deliveries. apply flat_map_app. Qed.

Lemma deliveries_flat_map (event : SSEEvent) (ls : list Listener) :
  deliveries (flat_map (listener_output event) ls)
  = map (fun l => (listenerId l, event)) ls.
Proof.
  induction ls as [|l ls IH]; [reflexivity|].
  cbn [flat_map map]. rewrite deliveries_app, IH.
  unfold listener_output. destruct (handler l event); reflexivity.
Qed.

(** C9.  [emit] hands the event to every subscribed listener, in the order
    of subscription, whether or not some of them throw, and completes
    normally; a new listener is subscribed after the ones already there. *)
Theorem emit_reaches_every_listener_in_order
  (event : SSEEvent) (em : t) (listener : Listener) :
  snd (emit event em) = Normal tt
  /\ deliveries (fst (emit event em))
     = map (fun l => (listenerId l, event)) (listeners em)
  /\ listeners (subscribe listener em)
     = (if has em listener then listeners em else listeners em ++ [listener])
  /\ deliveries (fst (emit event (subscribe listener em)))
     = (if has em listener
        then map (fun l => (listenerId l, event)) (listeners em)
        else map (fun l => (listenerId l, event)) (listeners em)
             ++ [(listenerId listener, event)]).
Proof.
  rewrite !emit_output. cbn [fst snd]. rewrite !deliveries_flat_map.
  repeat split.
  - unfold subscribe. destruct (has em listener); reflexivity.
  - unfold subscribe. destruct (has em listener); [reflexivity|].
    cbn [listeners]. now rewrite map_app.
Qed.

End Notifier.

Lemma emit_run (event : SSEEvent) (s : Store) :
  emit event s = (emit_out event s, s, Normal tt).
Proof.
  unfold emit, emit_out. now rewrite emit_output.
Qed.

(** ** Contacts *)

Lemma findOrCreateContact_run (now : Z) (uuid userId email name : string)
  (source : Source) (s : Store) :
  findOrCreateContact now uuid userId email name source s =
  match findContactByUserAndEmail s userId email with
  | Some contact => ([], s, Normal contact)
  | None =>
      ([], with_contact uuid (contactKey userId email)
             (newContact now uuid userId email name source) s,
       Normal (newContact now uuid userId email name source))
  end.
Proof.
  unfold findOrCreateContact, bind, gets.
  destruct (findContactByUserAndEmail s userId email); reflexivity.
Qed.

Lemma findContact_key (s : Store) (userId email : string) :
  findContactByUserAndEmail s userId email
  = JsMap.get (contactsByUserAndEmail s) (contactKey userId email).
Proof. reflexivity. Qed.



(** ** Running the operations of the store *)

Lemma bind_run {A B : Type} (m : M A) (k : A -> M B) (s s1 : Store)
  (out : list Output) (a : A) :
  m s = (out, s1, Normal a) ->
  bind m k s = (let '(out', s2, r) := k a s1 in (out ++ out', s2, r)).
Proof. intros H. unfold bind. now rewrite H. Qed.

Lemma createConversation_run (now : Z) (uuid : string) (data : ConversationData)
  (s : Store) :
  let conversation := newConversation now uuid data in
  let s1 := with_conversation uuid (conversationKey data) conversation s in
  createConversation now uuid data s =
  (emit_out {| ev_type := conversation_new;
               ev_data := {| ev_conversationId := uuid;
                             ev_userId := cv_userId data;
                             ev_priority := Some 50;
                             ev_messageId := None |} |} s1,
   s1, Normal conversation).
Proof.
  unfold createConversation, bind, modify, ret. cbn zeta beta iota.
  rewrite emit_run. cbn. now rewrite app_nil_r.
Qed.

Lemma findOrCreateConversation_run (now : Z) (uuid : string)
  (data : ConversationData) (s : Store) :
  exists out,
    findOrCreateConversation now uuid data s =
    match findConversationByUserAndExternalId
            s (cv_userId data) (cv_externalId data) (cv_source data) with
    | Some conversation => ([], s, Normal (conversation, false))
    | None =>
        (out, with_conversation uuid (conversationKey data)
                (newConversation now uuid data) s,
         Normal (newConversation now uuid data, true))
    end.
Proof.
  unfold findOrCreateConversation. unfold bind at 1. unfold gets.
  destruct (findConversationByUserAndExternalId
              s (cv_userId data) (cv_externalId data) (cv_source data)).
  - exists []. reflexivity.
  - eexists. unfold bind. rewrite createConversation_run. cbn.
    rewrite !app_nil_r. reflexivity.
Qed.

Lemma createMessage_run (now : Z) (uuid : string) (data : MessageData)
  (s : Store) :
  exists out,
    createMessage now uuid data s =
    (out, with_message uuid (md_externalId data) (newMessage now uuid data) s,
     Normal (newMessage now uuid data)).
Proof.
  unfold createMessage, bind, modify, gets, ret. cbn zeta beta iota.
  match goal with
  | |- context [getConversation ?a ?b] => destruct (getConversation a b)
  end.
  - rewrite emit_run. eexists. cbn. reflexivity.
  - eexists. cbn. reflexivity.
Qed.

Lemma updateConversationPriority_run (now : Z) (conversationId : string)
  (priority : Z) (lastMessageAt : Date) (s : Store) :
  exists out result,
    (updateConversationPriority now conversationId priority lastMessageAt s
     = (out, s, Normal result))
    \/ (exists r conversation,
          updateConversationPriority now conversationId priority lastMessageAt s
          = (out, with_heap r conversation s, Normal result)).
Proof.
  unfold updateConversationPriority, bind, gets, modify, ret.
  cbn beta iota zeta.
  destruct (JsMap.get (conversations s) conversationId) as [r|];
    [destruct (deref s r) as [c|]|].
  - rewrite emit_run.
    eexists. eexists. right. eexists. eexists. cbn. reflexivity.
  - eexists. eexists. left. reflexivity.
  - eexists. eexists. left. reflexivity.
Qed.

Ltac run_step H E := rewrite (bind_run _ _ _ _ _ _ H) in E; cbn beta zeta in E.

(** What [resolveAndPersist] does to the store: it completes with 201, and
    the message maps receive the new message and nothing else. *)
Lemma resolveAndPersist_run (now : Z) (ids : Uuids) (source : Source)
  (userId externalMessageId externalConversationId : string)
  (contactEmail contactName title content : string)
  (messageMetadata priorityMetadata : Metadata) (receivedAt : option Date)
  (s : Store) :
  exists out s' response message,
    resolveAndPersist now ids source userId externalMessageId
      externalConversationId contactEmail contactName title content
      messageMetadata priorityMetadata receivedAt s
    = (out, s', Normal (Json 201 response))
    /\ users s' = users s
    /\ events s' = events s
    /\ messages s' = JsMap.set (messages s) (uuid_message ids) message
    /\ messagesByExternalId s'
       = JsMap.set (messagesByExternalId s) externalMessageId message
    /\ Message.id message = uuid_message ids
    /\ Message.externalId message = externalMessageId
    /\ (forall key c,
          JsMap.get (contactsByUserAndEmail s) key = Some c ->
          JsMap.get (contactsByUserAndEmail s') key = Some c).
Proof.
  destruct (resolveAndPersist now ids source userId externalMessageId
              externalConversationId contactEmail contactName title content
              messageMetadata priorityMetadata receivedAt s)
    as [[out s'] r] eqn:E.
  unfold resolveAndPersist in E.
  pose proof (findOrCreateContact_run now (uuid_contact ids) userId contactEmail
                contactName source s) as Hc.
  assert (exists s1 contact,
            findOrCreateContact now (uuid_contact ids) userId contactEmail
              contactName source s = ([], s1, Normal contact)
            /\ users s1 = users s /\ events s1 = events s
            /\ messages s1 = messages s
            /\ messagesByExternalId s1 = messagesByExternalId s
            /\ (forall key c,
                  JsMap.get (contactsByUserAndEmail s) key = Some c ->
                  JsMap.get (contactsByUserAndEmail s1) key = Some c))
    as (s1 & contact & H1 & Hu1 & He1 & Hm1 & Hi1 & Hk1).
  { rewrite Hc, findContact_key.
    destruct (JsMap.get (contactsByUserAndEmail s) (contactKey userId contactEmail))
      as [c0|] eqn:Ek.
    - exists s, c0. repeat split; auto.
    - eexists. eexists. split; [reflexivity|]. repeat split.
      intros key c Hkey. simpl. rewrite get_set_other; [exact Hkey|].
      intros ->. congruence. }
  run_step H1 E.
  match type of E with
  | context [findOrCreateConversation ?n ?u ?d] =>
      destruct (findOrCreateConversation_run n u d s1) as (o2 & H2);
      assert (exists o2' s2 found,
                findOrCreateConversation n u d s1 = (o2', s2, Normal found)
                /\ users s2 = users s1 /\ events s2 = events s1
                /\ messages s2 = messages s1
                /\ messagesByExternalId s2 = messagesByExternalId s1
                /\ contactsByUserAndEmail s2 = contactsByUserAndEmail s1)
        as (o2' & s2 & found & H2' & Hu2 & He2 & Hm2 & Hi2 & Hk2)
  end.
  { rewrite H2.
    match goal with
    | |- context [findConversationByUserAndExternalId ?a ?b ?c ?d] =>
        destruct (findConversationByUserAndExternalId a b c d) as [c0|]
    end.
    - eexists. eexists. exists (c0, false). split; [reflexivity|]. repeat split.
    - eexists. eexists. eexists (_, true). split; [reflexivity|]. repeat split. }
  clear H2. run_step H2' E.
  match type of E with
  | context [createMessage ?n ?u ?d] =>
      destruct (createMessage_run n u d s2) as (o3 & H3)
  end.
  run_step H3 E.
  match type of E with
  | context [bind (updateConversationPriority ?n ?i ?p ?d) _ ?st] =>
      destruct (updateConversationPriority_run n i p d st)
        as (o4 & res & [H4|(r4 & c4 & H4)])
  end.
  - run_step H4 E. unfold ret in E. injection E as <- <- <-.
    eexists. eexists. eexists. eexists (newMessage now (uuid_message ids) _).
    split; [reflexivity|]. cbn.
    rewrite Hu2, Hu1, He2, He1, Hm2, Hm1, Hi2, Hi1, Hk2.
    repeat split; try reflexivity. exact Hk1.
  - run_step H4 E. unfold ret in E. injection E as <- <- <-.
    eexists. eexists. eexists. eexists (newMessage now (uuid_message ids) _).
    split; [reflexivity|]. cbn.
    rewrite Hu2, Hu1, He2, He1, Hm2, Hm1, Hi2, Hi1, Hk2.
    repeat split; try reflexivity. exact Hk1.
Qed.

(** ** The four ingestion handlers, case by case *)

Lemma try_catch_normal {A : Type} (body : M A) (catch : string -> M A)
  (s s' : Store) (out : list Output) (v : A) :
  body s = (out, s', Normal v) -> try_catch body catch s = (out, s', Normal v).
Proof. intros H. unfold try_catch. now rewrite H. Qed.

Lemma bind_gets {A B : Type} (f : Store -> A) (k : A -> M B) (s : Store) :
  bind (gets f) k s = k (f s) s.
Proof.
  unfold bind, gets. destruct (k (f s) s) as [[out s'] r]. reflexivity.
Qed.

Lemma created_outcome (now : Z) (i : Ingestion) (s : Store) (ext : string)
  (ids : Uuids) (source : Source) (userId externalConversationId : string)
  (contactEmail contactName title content : string)
  (messageMetadata priorityMetadata : Metadata) (receivedAt : option Date)
  (catch : string -> M (Response MessageIngestionResponse)) :
  ing_externalMessageId i = Some ext ->
  ing_valid i = true ->
  userExists s (ing_userId i) = true ->
  findMessageByExternalId s ext = None ->
  ingest now i s
  = try_catch
      (resolveAndPersist now ids source userId ext externalConversationId
         contactEmail contactName title content messageMetadata
         priorityMetadata receivedAt)
      catch s ->
  ingest_outcome now i s.
Proof.
  intros Hext Hvalid Huser Hfind Heq.
  destruct (resolveAndPersist_run now ids source userId ext
              externalConversationId contactEmail contactName title content
              messageMetadata priorityMetadata receivedAt s)
    as (out & s' & response & message & Hrun & Hu & He & Hm & Hi & Hid & Hme & Hk).
  apply outcome_created
    with (ext := ext) (out := out) (s' := s') (response := response)
         (message := message); auto.
  - rewrite Heq. now apply try_catch_normal.
  - now rewrite Hid.
Qed.

(** Unfolding a handler up to the point the checks decide. *)
Ltac enter_handler :=
  cbn [ingest];
  match goal with
  | |- ?post _ _ _ _ = _ => unfold post
  end;
  unfold try_catch;
  repeat match goal with
         | H : is_empty _ = false |- _ => rewrite H
         | H : _ = Some _ |- _ => rewrite H
         | H : _ = None |- _ => rewrite H
         end;
  cbn [orb].

(** The case analysis is the same for the four handlers; [uid], [ext] and
    [conv] are the three ids of the body, [frm] its sender, [fa] and [fb]
    the two sender fields the channel requires. *)
Ltac handler_outcome uid ext conv frm fa fb :=
  let Eids := fresh "Eids" in
  let E1 := fresh "E1" in let E2 := fresh "E2" in let E3 := fresh "E3" in
  let Efrom := fresh "Efrom" in let from := fresh "from" in
  let Ef := fresh "Ef" in let Ef1 := fresh "Ef1" in let Ef2 := fresh "Ef2" in
  let Hvalid := fresh "Hvalid" in let Huser := fresh "Huser" in
  let Euser := fresh "Euser" in let Efind := fresh "Efind" in
  destruct (is_empty uid || is_empty ext || is_empty conv) eqn:Eids;
  [ eapply outcome_invalid;
    [ reflexivity
    | simpl; unfold present;
      destruct (is_empty uid), (is_empty ext), (is_empty conv);
      try discriminate; reflexivity
    | cbn [ingest];
      match goal with |- ?post _ _ _ _ = _ => unfold post end;
      unfold try_catch; rewrite Eids; reflexivity ]
  | ];
  apply orb_false_elim in Eids as [Eids E3];
  apply orb_false_elim in Eids as [E1 E2];
  destruct frm as [from|] eqn:Efrom;
  [ | eapply outcome_invalid;
      [ reflexivity
      | simpl; rewrite Efrom; now rewrite !andb_false_r
      | enter_handler; reflexivity ] ];
  destruct (is_empty (fa from) || is_empty (fb from)) eqn:Ef;
  [ eapply outcome_invalid;
    [ reflexivity
    | simpl; rewrite Efrom; unfold present;
      destruct (is_empty (fa from)), (is_empty (fb from));
      try discriminate; now rewrite ?andb_false_r
    | enter_handler; rewrite Ef; reflexivity ]
  | ];
  apply orb_false_elim in Ef as [Ef1 Ef2];
  match goal with
  | |- ingest_outcome _ ?i ?s =>
      assert (ing_valid i = true) as Hvalid
        by (simpl; unfold present; now rewrite E1, E2, E3, Efrom, Ef1, Ef2);
      destruct (getUser s uid) as [?|] eqn:Euser;
      [ assert (userExists s (ing_userId i) = true) as Huser
          by (simpl; now rewrite Euser)
      | eapply outcome_no_user;
        [ reflexivity | exact Hvalid | reflexivity
        | simpl; now rewrite Euser
        | enter_handler; rewrite bind_gets, Euser; reflexivity ] ];
      destruct (findMessageByExternalId s ext) as [?|] eqn:Efind;
      [ eapply outcome_duplicate;
        [ reflexivity | exact Hvalid | exact Huser | exact Efind
        | enter_handler; rewrite bind_gets, Euser, bind_gets, Efind; reflexivity ]
      | eapply created_outcome;
        [ reflexivity | exact Hvalid | exact Huser | exact Efind
        | enter_handler; rewrite bind_gets, Euser, bind_gets, Efind; reflexivity ] ]
  end.

Lemma ingest_outcomes (now : Z) (i : Ingestion) (s : Store) :
  ingest_outcome now i s.
Proof.
  destruct i as [ids [body|]|ids [body|]|ids [body|]|ids [body|]];
    try (apply outcome_not_json; [reflexivity|]; eexists; reflexivity).
  - handler_outcome (em_userId body) (em_externalMessageId body)
      (em_externalConversationId body) (em_from body) ef_email ef_name.
  - handler_outcome (sl_userId body) (sl_externalMessageId body)
      (sl_externalConversationId body) (sl_from body) sf_email sf_name.
  - handler_outcome (wa_userId body) (wa_externalMessageId body)
      (wa_externalConversationId body) (wa_from body) wf_name wf_phone.
  - handler_outcome (li_userId body) (li_externalMessageId body)
      (li_externalConversationId body) (li_from body) lf_email lf_name.
Qed.

(** ** The dedup index covers the stored messages *)

Lemma messages_indexed_frame (s s' : Store) :
  messages s' = messages s ->
  messagesByExternalId s' = messagesByExternalId s ->
  messages_indexed s -> messages_indexed s'.
Proof. unfold messages_indexed. now intros -> ->. Qed.

Lemma with_message_indexed (id ext : string) (m : Message.t) (s : Store) :
  messages_indexed s ->
  JsMap.get (messagesByExternalId s) ext = None ->
  Message.id m = id ->
  Message.externalId m = ext ->
  messages_indexed (with_message id ext m s).
Proof.
  intros [Hnd Hin] Hnone Hid Hext. split; simpl.
  - now apply keys_set_NoDup.
  - intros k m' H. apply In_set in H as [[-> ->]|H].
    + split; [exact Hid|]. rewrite Hext. apply get_set_same.
    + destruct (Hin k m' H) as [Hk Hget]. split; [exact Hk|].
      rewrite get_set_other; [exact Hget|]. intros Heq. congruence.
Qed.

Lemma emptyStore_indexed : messages_indexed emptyStore.
Proof. split; simpl; [constructor|tauto]. Qed.

Lemma updatePriorityFromMessages_frame (now : Z) (s : Store) (r : nat) :
  messages (updatePriorityFromMessages now s r) = messages s
  /\ messagesByExternalId (updatePriorityFromMessages now s r)
     = messagesByExternalId s.
Proof.
  unfold updatePriorityFromMessages.
  destruct (deref s r) as [c|]; [|now split].
  destruct (getLatestMessageForConversation s (Conversation.id c));
    [|now split].
  destruct (JsMap.get (contacts s) (Conversation.contactId c)); now split.
Qed.

Lemma updateConversationPriorities_frame (now : Z) (s : Store) :
  messages (updateConversationPrioritiesFromMessages now s) = messages s
  /\ messagesByExternalId (updateConversationPrioritiesFromMessages now s)
     = messagesByExternalId s.
Proof.
  unfold updateConversationPrioritiesFromMessages.
  generalize (JsMap.values (conversations s)). intros refs.
  revert s; induction refs as [|r refs IH]; intros s; simpl; [now split|].
  destruct (IH (updatePriorityFromMessages now s r)) as [-> ->].
  apply updatePriorityFromMessages_frame.
Qed.

Lemma with_users_indexed (f : JsMap.t User.t -> JsMap.t User.t) (s : Store) :
  messages_indexed s -> messages_indexed (with_users f s).
Proof. exact (fun H => H). Qed.

Lemma with_contact_indexed (id key : string) (c : Contact.t) (s : Store) :
  messages_indexed s -> messages_indexed (with_contact id key c s).
Proof. exact (fun H => H). Qed.

Lemma with_conversation_indexed (id key : string) (c : Conversation.t) (s : Store) :
  messages_indexed s -> messages_indexed (with_conversation id key c s).
Proof. exact (fun H => H). Qed.

Lemma with_events_indexed (f : EventEmitter.t -> EventEmitter.t) (s : Store) :
  messages_indexed s -> messages_indexed (with_events f s).
Proof. exact (fun H => H). Qed.

Lemma index_with_message (id ext : string) (m : Message.t) (s : Store) :
  messagesByExternalId (with_message id ext m s)
  = JsMap.set (messagesByExternalId s) ext m.
Proof. reflexivity. Qed.

Lemma index_with_conversation (id key : string) (c : Conversation.t) (s : Store) :
  messagesByExternalId (with_conversation id key c s) = messagesByExternalId s.
Proof. reflexivity. Qed.

Lemma index_with_contact (id key : string) (c : Contact.t) (s : Store) :
  messagesByExternalId (with_contact id key c s) = messagesByExternalId s.
Proof. reflexivity. Qed.

Lemma index_with_users (f : JsMap.t User.t -> JsMap.t User.t) (s : Store) :
  messagesByExternalId (with_users f s) = messagesByExternalId s.
Proof. reflexivity. Qed.

Ltac index_lacks :=
  repeat first
    [ rewrite index_with_message; rewrite get_set_other by discriminate
    | rewrite index_with_conversation
    | rewrite index_with_contact
    | rewrite index_with_users ];
  reflexivity.

Lemma seedData_indexed (now : Z) (uuid : nat -> string) :
  messages_indexed (seedData now uuid).
Proof.
  unfold seedData. cbv zeta.
  cbn [createSeededConversation fold_left fst snd].
  match goal with
  | |- messages_indexed (updateConversationPrioritiesFromMessages _ ?s) =>
      destruct (updateConversationPriorities_frame now s) as [Hm Hi];
      apply (messages_indexed_frame s); [exact Hm|exact Hi|]
  end.
  clear Hm Hi.
  unfold createSeededMessage. cbn [Message.id Message.externalId].
  repeat match goal with
    | |- messages_indexed (with_message _ _ _ _) =>
        apply with_message_indexed; [ | index_lacks | reflexivity | reflexivity ]
    | |- messages_indexed (with_conversation _ _ _ _) =>
        apply with_conversation_indexed
    | |- messages_indexed (with_contact _ _ _ _) => apply with_contact_indexed
    | |- messages_indexed (with_users _ _) => apply with_users_indexed
    end.
  exact emptyStore_indexed.
Qed.

Lemma ingest_indexed (now : Z) (i : Ingestion) (s : Store) :
  messages_indexed s -> messages_indexed (snd (fst (ingest now i s))).
Proof.
  intros Hs.
  destruct (ingest_outcomes now i s)
    as [_ [out H] | ext msg _ _ H | ext u _ _ _ _ H | ext m _ _ _ _ H
       | ext out s' resp m _ _ _ Hfind H _ _ Hm Hi Hext _];
    rewrite H; simpl; try exact Hs.
  destruct Hs as [Hnd Hin]. split.
  - rewrite Hm. now apply keys_set_NoDup.
  - intros k m' Hk. rewrite Hm in Hk. rewrite Hi.
    apply In_set in Hk as [[-> ->]|Hk].
    + split; [reflexivity|]. rewrite Hext. apply get_set_same.
    + destruct (Hin k m' Hk) as [Hid Hget]. split; [exact Hid|].
      rewrite get_set_other; [exact Hget|].
      intros Heq. unfold findMessageByExternalId in Hfind. congruence.
Qed.

Lemma POST_users_frame (now : Z) (uuid : string)
  (request : option CreateUserRequest) (s : Store) :
  messages (snd (fst (POST_users now uuid request s))) = messages s
  /\ messagesByExternalId (snd (fst (POST_users now uuid request s)))
     = messagesByExternalId s.
Proof.
  unfold POST_users, try_catch.
  destruct request as [body|]; [|now split].
  destruct (is_empty (cu_email body) || is_empty (cu_name body)); now split.
Qed.

Lemma handle_indexed (s : Store) (timed : Z * Request) :
  messages_indexed s -> messages_indexed (handle s timed).
Proof.
  destruct timed as [now [uuid body|i|l|l]]; intros Hs; cbn [handle].
  - destruct (POST_users_frame now uuid body s) as [Hm Hi].
    now apply (messages_indexed_frame s).
  - now apply ingest_indexed.
  - exact Hs.
  - exact Hs.
Qed.

Lemma reachable_indexed (s : Store) : reachable s -> messages_indexed s.
Proof.
  induction 1 as [now uuid|s now request _ IH].
  - apply seedData_indexed.
  - now apply handle_indexed.
Qed.

Lemma run_reachable (requests : list (Z * Request)) (s : Store) :
  reachable s -> reachable (run requests s).
Proof.
  revert s; induction requests as [|[now request] requests IH]; intros s H; simpl.
  - exact H.
  - apply IH. now constructor.
Qed.

(** Among entries with distinct keys of which no two satisfy [f], at most
    one value satisfies [f]. *)
Lemma filter_at_most_one {V : Type} (f : V -> bool) (m : JsMap.t V) :
  NoDup (JsMap.keys m) ->
  (forall k1 v1 k2 v2,
     In (k1, v1) m -> In (k2, v2) m -> f v1 = true -> f v2 = true -> k1 = k2) ->
  (List.length (filter f (JsMap.values m)) <= 1)%nat.
Proof.
  unfold JsMap.keys, JsMap.values.
  induction m as [|[k v] m IH]; intros Hnd Hsame; simpl; [lia|].
  inversion Hnd as [|? ? Hnin Hnd']; subst.
  assert (forall k1 v1 k2 v2,
            In (k1, v1) m -> In (k2, v2) m -> f v1 = true -> f v2 = true -> k1 = k2)
    as Hsame'
    by (intros k1 v1 k2 v2 H1 H2 F1 F2; apply (Hsame k1 v1 k2 v2);
        [right; exact H1|right; exact H2|exact F1|exact F2]).
  destruct (f v) eqn:Ef; [|now apply IH].
  simpl. destruct (filter f (map snd m)) as [|v' rest] eqn:Efilter; [simpl; lia|].
  exfalso.
  assert (In v' (filter f (map snd m))) as Hv' by (rewrite Efilter; now left).
  apply filter_In in Hv' as [Hv' Hf'].
  apply in_map_iff in Hv' as ([k' v''] & Heq & Hin'). simpl in Heq. subst v''.
  assert (k = k') as <-
    by (apply (Hsame k v k' v'); [now left|now right|exact Ef|exact Hf']).
  apply Hnin. apply in_map_iff. now exists (k, v').
Qed.

Lemma indexed_at_most_one (s : Store) (ext : string) :
  messages_indexed s -> (List.length (messagesWithExternalId s ext) <= 1)%nat.
Proof.
  intros [Hnd Hin]. unfold messagesWithExternalId.
  apply filter_at_most_one; [exact Hnd|].
  intros k1 m1 k2 m2 H1 H2 E1 E2.
  apply String.eqb_eq in E1, E2.
  destruct (Hin k1 m1 H1) as [Hid1 Hg1]. destruct (Hin k2 m2 H2) as [Hid2 Hg2].
  rewrite E1 in Hg1. rewrite E2 in Hg2. congruence.
Qed.

Lemma stored_message_found (s : Store) (ext : string) :
  messages_indexed s ->
  messagesWithExternalId s ext <> [] ->
  exists m, findMessageByExternalId s ext = Some m.
Proof.
  intros [_ Hin] Hne. unfold messagesWithExternalId in Hne.
  destruct (filter (fun m => String.eqb (Message.externalId m) ext)
                   (JsMap.values (messages s))) as [|m rest] eqn:E;
    [congruence|].
  assert (In m (filter (fun m => String.eqb (Message.externalId m) ext)
                       (JsMap.values (messages s)))) as Hm by (rewrite E; now left).
  apply filter_In in Hm as [Hm Hext]. apply String.eqb_eq in Hext.
  apply in_map_iff in Hm as ([k m'] & Heq & Hk). simpl in Heq. subst m'.
  exists m. destruct (Hin k m Hk) as [_ Hget]. now rewrite Hext in Hget.
Qed.

(** C1 as stated fails for a request that the earlier checks stop: an
    unknown user gets 404, although the external id is that of a stored
    message. *)
Lemma duplicate_from_unknown_user_gets_404 :
  let s := seedData 1700000000000 demo_uuid in
  let request :=
    ViaEmail {| uuid_contact := "c"; uuid_conversation := "v"; uuid_message := "m" |}
      (Some {| em_userId := "nobody"; em_externalMessageId := "msg-001";
               em_externalConversationId := "thread-001";
               em_from := Some {| ef_email := "sarah.chen@acme.com";
                                  ef_name := "Sarah Chen" |};
               em_subject := "Again"; em_body := "Once more";
               em_receivedAt := None; em_metadata := None |}) in
  messagesWithExternalId s "msg-001" <> []
  /\ ing_externalMessageId request = Some "msg-001"
  /\ ingest 1700000000001 request s = ([], s, Normal (user_not_found "nobody"))
  /\ responseStatus (@user_not_found MessageIngestionResponse "nobody") = 404.
Proof.
  vm_compute. repeat split. discriminate.
Qed.

(** C1, amended.  In every store the system can reach there is at most one
    stored message per external id; and an ingestion request whose external
    message id is that of a stored message leaves the store exactly as it
    was and emits nothing: it is answered 409 DUPLICATE_MESSAGE when it
    passes validation and names an existing user, 400 when it fails
    validation, 404 when the user is unknown. *)
Theorem duplicate_ingestion_changes_nothing
  (s : Store) (now : Z) (i : Ingestion) (ext : string) :
  reachable s ->
  ing_externalMessageId i = Some ext ->
  messagesWithExternalId s ext <> [] ->
  (forall e, (List.length (messagesWithExternalId s e) <= 1)%nat)
  /\ exists response,
       ingest now i s = ([], s, Normal response)
       /\ responseStatus response
          = (if ing_valid i
             then if userExists s (ing_userId i) then 409 else 404
             else 400)
       /\ (responseStatus response = 409 -> response = duplicate_message ext).
Proof.
  intros Hreach Hext Hstored.
  pose proof (reachable_indexed s Hreach) as Hidx.
  split; [intros e; now apply indexed_at_most_one|].
  destruct (stored_message_found s ext Hidx Hstored) as (m & Hfound).
  destruct (ingest_outcomes now i s)
    as [Hnone _ | ext' msg Hext' Hv H | ext' u Hext' Hv _ Hu H
       | ext' m' Hext' Hv Hu _ H
       | ext' out s' resp m' Hext' _ _ Hfind _ _ _ _ _ _ _];
    try congruence.
  - exists (validation_error msg). rewrite Hv. repeat split; [exact H|].
    simpl. discriminate.
  - exists (user_not_found u). rewrite Hv, Hu. repeat split; [exact H|].
    simpl. discriminate.
  - exists (duplicate_message ext'). rewrite Hv, Hu.
    repeat split; [exact H|]. congruence.
Qed.

Lemma duplicate_ingestion_changes_nothing_witness :
  let request :=
    ViaSlack {| uuid_contact := "c1"; uuid_conversation := "v1";
                uuid_message := "m1" |}
      (Some {| sl_userId := "user-demo"; sl_externalMessageId := "new-msg-001";
               sl_externalConversationId := "new-thread-001";
               sl_from := Some {| sf_email := "boss@company.com";
                                  sf_name := "The Boss";
                                  sf_slackUserId := None |};
               sl_content := "Need your input asap";
               sl_receivedAt := None;
               sl_metadata := Some [("isDirectMessage", JsBool true)] |}) in
  let s :=
    run [(1700000000500, Ingest request)] (seedData 1700000000000 demo_uuid) in
  (List.length (messagesWithExternalId s "new-msg-001") <= 1)%nat
  /\ ingest 1700000001000 request s
     = ([], s, Normal (duplicate_message "new-msg-001")).
Proof.
  intros request s.
  destruct (duplicate_ingestion_changes_nothing s 1700000001000 request
              "new-msg-001") as [Hone (response & Hrun & Hstatus & Hdup)].
  - apply run_reachable, reachable_start.
  - reflexivity.
  - vm_compute. discriminate.
  - split; [apply Hone|].
    rewrite Hrun. rewrite (Hdup Hstatus). reflexivity.
Defined.

(** ** Sorting *)

Section SortFacts.

Context {A : Type}.
Variable compare : A -> A -> Z.
Variable before : A -> A -> Prop.
Hypothesis before_of_compare : forall x y, compare x y <= 0 -> before x y.
Hypothesis before_total : forall x y, compare x y > 0 -> before y x.
Hypothesis before_trans : forall x y z, before x y -> before y z -> before x z.

Lemma sort_insert_perm (x : A) (l : list A) :
  Permutation (sort_insert compare x l) (x :: l).
Proof.
  induction l as [|y l IH]; simpl; [reflexivity|].
  destruct (compare x y <=? 0); [reflexivity|].
  rewrite IH. apply perm_swap.
Qed.

Lemma Array_sort_perm (l : list A) : Permutation (Array_sort compare l) l.
Proof.
  induction l as [|x l IH]; simpl; [reflexivity|].
  unfold Array_sort in *. simpl. rewrite sort_insert_perm. now constructor.
Qed.

Lemma sort_insert_sorted (x : A) (l : list A) :
  StronglySorted before l -> StronglySorted before (sort_insert compare x l).
Proof.
  induction 1 as [|y l Hs IH Hy]; simpl.
  - repeat constructor.
  - destruct (compare x y <=? 0) eqn:E.
    + apply Z.leb_le in E. constructor; [now constructor|].
      constructor; [now apply before_of_compare|].
      rewrite Forall_forall in *. intros z Hz.
      eapply before_trans; [apply before_of_compare, E|now apply Hy].
    + apply Z.leb_gt in E. constructor; [exact IH|].
      rewrite Forall_forall in *. intros z Hz.
      apply (Permutation_in _ (sort_insert_perm x l)) in Hz.
      destruct Hz as [<-|Hz]; [apply before_total; lia|now apply Hy].
Qed.

Lemma Array_sort_sorted (l : list A) : StronglySorted before (Array_sort compare l).
Proof.
  induction l as [|x l IH]; [constructor|].
  unfold Array_sort in *. simpl. now apply sort_insert_sorted.
Qed.

Lemma In_firstn (n : nat) (l : list A) (x : A) : In x (firstn n l) -> In x l.
Proof.
  intros H. rewrite <- (firstn_skipn n l). apply in_or_app. now left.
Qed.

Lemma In_skipn (n : nat) (l : list A) (x : A) : In x (skipn n l) -> In x l.
Proof.
  intros H. rewrite <- (firstn_skipn n l). apply in_or_app. now right.
Qed.

Lemma skipn_sorted (n : nat) (l : list A) :
  StronglySorted before l -> StronglySorted before (skipn n l).
Proof.
  revert l; induction n as [|n IH]; intros l H; [exact H|].
  destruct l as [|x l]; [constructor|]. simpl.
  apply IH. now inversion H.
Qed.

Lemma firstn_sorted (n : nat) (l : list A) :
  StronglySorted before l -> StronglySorted before (firstn n l).
Proof.
  revert l; induction n as [|n IH]; intros l H; [constructor|].
  destruct l as [|x l]; [constructor|]. simpl.
  inversion H as [|? ? Hs Hx]; subst. constructor; [now apply IH|].
  rewrite Forall_forall in *. intros z Hz. apply Hx.
  now apply In_firstn in Hz.
Qed.

Lemma Array_slice_sorted (l : list A) (start finish : Z) :
  StronglySorted before l -> StronglySorted before (Array_slice l start finish).
Proof. intros H. unfold Array_slice. now apply firstn_sorted, skipn_sorted. Qed.

Lemma Array_slice_incl (l : list A) (start finish : Z) (x : A) :
  In x (Array_slice l start finish) -> In x l.
Proof.
  unfold Array_slice. intros H.
  eapply In_skipn, In_firstn, H.
Qed.

End SortFacts.

(** ** The conversation listing *)

Lemma compare_before (a b : Conversation.t) :
  compareConversations a b <= 0 -> listedBefore a b.
Proof.
  unfold compareConversations, listedBefore.
  destruct (Conversation.priority b =? Conversation.priority a) eqn:E; simpl.
  - apply Z.eqb_eq in E. lia.
  - apply Z.eqb_neq in E. lia.
Qed.

Lemma compare_after (a b : Conversation.t) :
  compareConversations a b > 0 -> listedBefore b a.
Proof.
  unfold compareConversations, listedBefore.
  destruct (Conversation.priority b =? Conversation.priority a) eqn:E; simpl.
  - apply Z.eqb_eq in E. lia.
  - apply Z.eqb_neq in E. lia.
Qed.

Lemma listedBefore_trans (a b c : Conversation.t) :
  listedBefore a b -> listedBefore b c -> listedBefore a c.
Proof. unfold listedBefore. lia. Qed.

Lemma filter_filter {A : Type} (f g : A -> bool) (l : list A) :
  filter g (filter f l) = filter (fun x => f x && g x) l.
Proof.
  induction l as [|x l IH]; simpl; [reflexivity|].
  destruct (f x); simpl; [destruct (g x)|]; now rewrite IH.
Qed.

Lemma getConversationsForUser_window (s : Store) (userId : string)
  (opt_page opt_limit : option Integral) (opt_source : option string) :
  let sorted :=
    Array_sort compareConversations (selectedConversations s userId opt_source) in
  getConversationsForUser s userId opt_page opt_limit opt_source
  = (Array_slice_num sorted (windowStart opt_page opt_limit)
       (Integral_add (windowStart opt_page opt_limit) (limitOf opt_limit)),
     Z.of_nat (List.length sorted)).
Proof.
  unfold getConversationsForUser, selectedConversations, windowStart, pageOf, limitOf.
  assert (match opt_source with
          | Some src =>
              if negb (String.eqb src "")
              then filter (fun c => String.eqb (Source_name (Conversation.source c)) src)
                     (filter (fun c => String.eqb (Conversation.userId c) userId)
                             (conversationValues s))
              else filter (fun c => String.eqb (Conversation.userId c) userId)
                          (conversationValues s)
          | None => filter (fun c => String.eqb (Conversation.userId c) userId)
                           (conversationValues s)
          end = filter (wanted userId opt_source) (conversationValues s)) as ->.
  { unfold wanted, is_empty. destruct opt_source as [src|].
    - destruct (String.eqb src ""); simpl.
      + apply filter_ext. intros c. now rewrite andb_true_r.
      + now rewrite filter_filter.
    - apply filter_ext. intros c. now rewrite andb_true_r. }
  reflexivity.
Qed.

Lemma toListItem_run (now : Z) (c : Conversation.t) (s : Store) :
  toListItem now c s =
  match listItem now s c with
  | Some item => ([], s, Normal item)
  | None => ([], s, Thrown "RangeError: Invalid time value")
  end.
Proof.
  unfold toListItem, listItem. rewrite !bind_gets.
  destruct (getTime (Conversation.lastMessageAt c)); reflexivity.
Qed.

Lemma mapM_toListItem_run (now : Z) (conversations : list Conversation.t)
  (s : Store) :
  mapM (toListItem now) conversations s =
  match listItems now s conversations with
  | Some items => ([], s, Normal items)
  | None => ([], s, Thrown "RangeError: Invalid time value")
  end.
Proof.
  induction conversations as [|c rest IH]; [reflexivity|].
  cbn [mapM listItems]. unfold bind at 1. rewrite toListItem_run.
  destruct (listItem now s c) as [item|]; [|reflexivity].
  unfold bind at 1. rewrite IH.
  destruct (listItems now s rest); reflexivity.
Qed.

(** What [GET /api/conversations] answers. *)
Lemma GET_conversations_run (now : Z) (q_userId : option string)
  (q_page q_limit : option Integral) (q_source : option string) (s : Store) :
  GET_conversations now q_userId q_page q_limit q_source s =
  match q_userId with
  | None =>
      ([], s, Normal (validation_error "Missing required query parameter: userId"))
  | Some userId =>
      if is_empty userId
      then ([], s,
            Normal (validation_error "Missing required query parameter: userId"))
      else
        match getUser s userId with
        | None => ([], s, Normal (user_not_found userId))
        | Some _ =>
            let found :=
              getConversationsForUser s userId (Some (routePage q_page))
                (Some (routeLimit q_limit)) q_source in
            match listItems now s (fst found) with
            | Some data =>
                ([], s,
                 Normal
                   (Json 200
                      {| list_data := data;
                         list_pagination :=
                           {| pg_page := routePage q_page;
                              pg_limit := routeLimit q_limit;
                              pg_total := snd found;
                              pg_totalPages :=
                                totalPages (snd found) (routeLimit q_limit) |} |}))
            | None =>
                ([ConsoleError "Error fetching conversations:"
                               "RangeError: Invalid time value"],
                 s, Normal internal_error)
            end
        end
  end.
Proof.
  unfold GET_conversations, try_catch.
  fold (routePage q_page). fold (routeLimit q_limit).
  destruct q_userId as [userId|]; [|reflexivity].
  destruct (is_empty userId); [reflexivity|].
  rewrite bind_gets. destruct (getUser s userId); [|reflexivity].
  rewrite bind_gets.
  destruct (getConversationsForUser s userId (Some (routePage q_page))
              (Some (routeLimit q_limit)) q_source) as [conversations total].
  cbn [fst snd]. unfold bind at 1. rewrite mapM_toListItem_run.
  destruct (listItems now s conversations); reflexivity.
Qed.

Lemma listItems_fields (now : Z) (s : Store) (conversations : list Conversation.t)
  (data : list ConversationListItem) :
  listItems now s conversations = Some data ->
  map item_id data = map Conversation.id conversations
  /\ map item_priority data = map (reportedPriority now) conversations.
Proof.
  revert data; induction conversations as [|c rest IH]; intros data H; simpl in H.
  - injection H as <-. now split.
  - destruct (listItem now s c) as [item|] eqn:Ec; [|discriminate].
    destruct (listItems now s rest) as [items|]; [|discriminate].
    injection H as <-. destruct (IH items eq_refl) as [Hid Hp].
    unfold listItem in Ec.
    destruct (getTime (Conversation.lastMessageAt c)); [|discriminate].
    injection Ec as <-. simpl. now rewrite Hid, Hp.
Qed.

Lemma getConversationsForUser_sorted (s : Store) (userId : string)
  (opt_page opt_limit : option Integral) (opt_source : option string) :
  StronglySorted listedBefore
    (fst (getConversationsForUser s userId opt_page opt_limit opt_source)).
Proof.
  rewrite getConversationsForUser_window. cbn [fst].
  unfold Array_slice_num. apply Array_slice_sorted.
  apply (Array_sort_sorted compareConversations listedBefore);
    [exact compare_before|exact compare_after|exact listedBefore_trans].
Qed.

(** C7 as stated fails for the store operation: page 0 is not read as
    page 1, and a negative page counts from the end. *)
Lemma store_listing_does_not_clamp_page :
  let s := seedData 1700000000000 demo_uuid in
  let titles page :=
    map Conversation.title
        (fst (getConversationsForUser s "user-demo" (Some (IntVal page))
                (Some (IntVal 2)) None)) in
  titles 1 = ["Q4 Board Presentation - URGENT Review Needed"; "Alex Rivera"]
  /\ titles 0 = []
  /\ titles (-1) = ["DM with Mike Johnson"; "#engineering"].
Proof. vm_compute. repeat split. Qed.

(** The route cuts the page to 1 at least and the limit to between 1 and
    100, whatever [parseInt] made of the parameters; NaN stays NaN. *)
Lemma route_clamps (q_page q_limit : option Integral) :
  match routePage q_page with
  | IntVal page => 1 <= page
  | PosInfinity | NotANumber => True
  | NegInfinity => False
  end
  /\ match routeLimit q_limit with
     | IntVal limit => 1 <= limit <= 100
     | NotANumber => True
     | PosInfinity | NegInfinity => False
     end.
Proof.
  unfold routePage, routeLimit.
  destruct q_page as [[p| | |]|], q_limit as [[l| | |]|]; simpl; split; lia || exact I.
Qed.

(** C7, amended.  [getConversationsForUser] sorts the conversations of the
    user (of the channel, when one is given) by priority, highest first,
    and among equal priorities by creation, latest first; it returns the
    window of that order for the page it is given, 1 when none is given,
    with the limit cut to 100 at most; [total] counts the whole selection.
    It is [GET /api/conversations] that cuts the page to 1 at least, and the
    limit to 1 at least, before it calls the store. *)
Theorem conversation_listing_order_and_window
  (s : Store) (userId : string) (opt_page opt_limit : option Integral)
  (opt_source : option string) (p l : Z)
  (now : Z) (q_page q_limit : option Integral) :
  let selected := selectedConversations s userId opt_source in
  let sorted := Array_sort compareConversations selected in
  let result := getConversationsForUser s userId opt_page opt_limit opt_source in
  Permutation sorted selected
  /\ StronglySorted listedBefore sorted
  /\ fst result
     = Array_slice_num sorted (windowStart opt_page opt_limit)
         (Integral_add (windowStart opt_page opt_limit) (limitOf opt_limit))
  /\ snd result = Z.of_nat (List.length selected)
  /\ StronglySorted listedBefore (fst result)
  /\ (forall c, In c (fst result) -> In c selected)
  /\ pageOf None = IntVal 1
  /\ pageOf (Some (IntVal p)) = IntVal p
  /\ limitOf None = IntVal 20
  /\ limitOf (Some (IntVal l)) = IntVal (Z.min 100 l)
  /\ routePage (Some (IntVal p)) = IntVal (Z.max 1 p)
  /\ routeLimit (Some (IntVal l)) = IntVal (Z.min 100 (Z.max 1 l))
  /\ match GET_conversations now (Some userId) q_page q_limit opt_source s with
     | (_, _, Normal (Json _ body)) =>
         pg_page (list_pagination body) = routePage q_page
         /\ pg_limit (list_pagination body) = routeLimit q_limit
         /\ map item_id (list_data body)
            = map Conversation.id
                (fst (getConversationsForUser s userId (Some (routePage q_page))
                        (Some (routeLimit q_limit)) opt_source))
     | _ => True
     end.
Proof.
  intros selected sorted result.
  assert (Permutation sorted selected) as Hperm by apply Array_sort_perm.
  assert (StronglySorted listedBefore sorted) as Hsorted
    by (apply (Array_sort_sorted compareConversations listedBefore);
        [exact compare_before|exact compare_after|exact listedBefore_trans]).
  assert (result
          = (Array_slice_num sorted (windowStart opt_page opt_limit)
               (Integral_add (windowStart opt_page opt_limit) (limitOf opt_limit)),
             Z.of_nat (List.length sorted))) as Hres
    by apply getConversationsForUser_window.
  repeat match goal with |- _ /\ _ => split end;
    try reflexivity; try assumption.
  - now rewrite Hres.
  - rewrite Hres. cbn [snd]. now rewrite (Permutation_length Hperm).
  - apply getConversationsForUser_sorted.
  - rewrite Hres. cbn [fst]. unfold Array_slice_num. intros c Hc.
    apply Array_slice_incl in Hc. now apply (Permutation_in _ Hperm).
  - rewrite GET_conversations_run.
    destruct (is_empty userId); [exact I|].
    destruct (getUser s userId); [|exact I]. cbv zeta.
    destruct (listItems now s
                (fst (getConversationsForUser s userId (Some (routePage q_page))
                        (Some (routeLimit q_limit)) opt_source)))
      as [data|] eqn:Hdata; [|exact I].
    cbn [list_pagination list_data pg_page pg_limit].
    repeat split. now apply listItems_fields in Hdata.
Qed.

(** ** The listing orders by the stored priority, not the reported one *)

Lemma storeAfterLunch_listing :
  exists body,
    GET_conversations (eightDaysLater + 60000) (Some "user-demo") None None None
      storeAfterLunch
    = ([], storeAfterLunch, Normal (Json 200 body))
    /\ map item_title (list_data body)
       = ["Q4 Board Presentation - URGENT Review Needed"; "Alex Rivera";
          "DM with Mike Johnson"; "#engineering"; "Weekly Team Sync Notes";
          "Lunch"; "Jennifer Wu - BigTech Opportunity"]
    /\ map item_priority (list_data body) = [0; 0; 0; 0; 0; 48; 0]
    /\ map Conversation.priority
         (fst (getConversationsForUser storeAfterLunch "user-demo"
                 (Some (routePage None)) (Some (routeLimit None)) None))
       = [85; 73; 56; 50; 49; 48; 25].
Proof.
  eexists. split; [vm_compute; reflexivity|].
  repeat split; vm_compute; reflexivity.
Qed.

Lemma not_descending_example : ~ descending [0; 0; 0; 0; 0; 48; 0].
Proof.
  unfold descending. intros H.
  repeat match goal with
         | H : StronglySorted _ (_ :: _) |- _ => inversion H; clear H; subst
         end.
  repeat match goal with
         | H : Forall _ (_ :: _) |- _ => inversion H; clear H; subst
         end.
  lia.
Qed.

(** C10.  Whenever the listing answers 200, its entries follow the order of
    the stored priorities of the page the store returned, and each entry
    reports the stored priority passed through the inactivity check; so a
    conversation that has been inactive for seven days stays ahead of active
    ones with a lower stored priority while it reports 0, and the reported
    priorities need not be in descending order: there is a reachable store
    whose listing reports 0, 0, 0, 0, 0, 48, 0. *)
Theorem listing_sorted_by_stored_priority
  (now : Z) (s : Store) (userId : string) (q_page q_limit : option Integral)
  (q_source : option string) (body : ConversationList) (out : list Output) :
  GET_conversations now (Some userId) q_page q_limit q_source s
  = (out, s, Normal (Json 200 body)) ->
  let page :=
    fst (getConversationsForUser s userId (Some (routePage q_page))
           (Some (routeLimit q_limit)) q_source) in
  StronglySorted listedBefore page
  /\ map item_id (list_data body) = map Conversation.id page
  /\ map item_priority (list_data body) = map (reportedPriority now) page
  /\ (forall c, In c page ->
        sevenDaysOrMore now (Conversation.lastMessageAt c) ->
        reportedPriority now c = 0)
  /\ exists now' s' body',
       reachable s'
       /\ GET_conversations now' (Some "user-demo") None None None s'
          = ([], s', Normal (Json 200 body'))
       /\ ~ descending (map item_priority (list_data body')).
Proof.
  intros Hget page.
  split; [apply getConversationsForUser_sorted|].
  rewrite GET_conversations_run in Hget.
  destruct (is_empty userId); [discriminate|].
  destruct (getUser s userId); [|discriminate].
  cbv zeta in Hget. fold page in Hget.
  destruct (listItems now s page) as [data|] eqn:Hdata; [|discriminate].
  injection Hget as _ <-. cbn [list_data].
  destruct (listItems_fields now s page data Hdata) as [Hid Hp].
  split; [exact Hid|]. split; [exact Hp|]. split.
  - intros c _ Hold. unfold reportedPriority, getPriorityWithInactivityCheck.
    apply isInactive_iff in Hold. now rewrite Hold.
  - destruct storeAfterLunch_listing as (body' & Hrun & _ & Hp' & _).
    exists (eightDaysLater + 60000), storeAfterLunch, body'.
    split; [apply run_reachable, reachable_start|].
    split; [exact Hrun|]. rewrite Hp'. exact not_descending_example.
Qed.

Lemma listing_sorted_by_stored_priority_witness :
  exists body,
    GET_conversations (eightDaysLater + 60000) (Some "user-demo") None None None
      storeAfterLunch
    = ([], storeAfterLunch, Normal (Json 200 body))
    /\ map item_priority (list_data body)
       = map (reportedPriority (eightDaysLater + 60000))
           (fst (getConversationsForUser storeAfterLunch "user-demo"
                   (Some (routePage None)) (Some (routeLimit None)) None))
    /\ map item_priority (list_data body) = [0; 0; 0; 0; 0; 48; 0].
Proof.
  destruct storeAfterLunch_listing as (body & Hrun & _ & Hreported & _).
  destruct (listing_sorted_by_stored_priority
              (eightDaysLater + 60000) storeAfterLunch "user-demo" None None None
              body [] Hrun) as (_ & _ & Hp & _).
  exists body. split; [exact Hrun|]. split; [exact Hp|exact Hreported].
Defined.

(** ** Contacts are found again *)







(** ** The scenarios of the specification *)

(** An email with "urgent" and "asap" from a contact of priority 90, half an
    hour old, importance high: 85. *)
Lemma scenario_urgent_email :
  calculatePriority 1700000000000
    {| ctx_source := email;
       ctx_content := "This is urgent, please answer asap";
       ctx_lastMessageAt := ValidDate (1700000000000 - 30 * 60 * 1000);
       ctx_contactPriority := of_Z 90;
       ctx_metadata := [("importance", JsStr "high")] |} = IntVal 85.
Proof. vm_compute. reflexivity. Qed.

(** A chat direct message without keywords, two hours old, contact
    priority 60: 56. *)
Lemma scenario_direct_message :
  calculatePriority 1700000000000
    {| ctx_source := slack;
       ctx_content := "Are we still using v2?";
       ctx_lastMessageAt := ValidDate (1700000000000 - 2 * 60 * 60 * 1000);
       ctx_contactPriority := of_Z 60;
       ctx_metadata := [("isDirectMessage", JsBool true)] |} = IntVal 56.
Proof. vm_compute. reflexivity. Qed.


(* ================================================================== *)
(** * Part III: further properties of the code *)
(* ================================================================== *)

(** ** Recency *)

Lemma Qlt_bool_hours (d k : Z) :
  Qlt_bool (inject_Z d / inject_Z (1000 * 60 * 60))%Q (inject_Z k)
  = (d <? k * 3600000).
Proof.
  unfold Qlt_bool.
  destruct (Qle_bool (inject_Z k) (inject_Z d / inject_Z (1000 * 60 * 60))%Q) eqn:E.
  - apply Qle_bool_iff in E. symmetry. apply Z.ltb_ge.
    revert E. unfold Qle, Qdiv, Qmult, Qinv, inject_Z; simpl. lia.
  - symmetry. apply Z.ltb_lt.
    assert (~ (inject_Z k <= inject_Z d / inject_Z (1000 * 60 * 60))%Q) as H
      by (intros H; apply Qle_bool_iff in H; congruence).
    revert H. unfold Qle, Qdiv, Qmult, Qinv, inject_Z; simpl. lia.
Qed.

Lemma calculateRecencyScore_ms (now t : Z) :
  calculateRecencyScore now (ValidDate t) = recencyOfAge (now - t).
Proof.
  unfold calculateRecencyScore, recencyOfAge. cbn [getTime].
  rewrite !Qlt_bool_hours. reflexivity.
Qed.

Lemma recencyOfAge_values (age : Z) :
  In (recencyOfAge age) [0; 5; 10; 15; 20].
Proof.
  unfold recencyOfAge.
  repeat match goal with |- context [?a <? ?b] => destruct (a <? b) end;
    simpl; tauto.
Qed.

Lemma calculateRecencyScore_values (now : Z) (d : Date) :
  In (calculateRecencyScore now d) [0; 5; 10; 15; 20].
Proof.
  destruct d as [t|]; [|simpl; tauto].
  rewrite calculateRecencyScore_ms. apply recencyOfAge_values.
Qed.

Lemma recencyOfAge_antitone (a b : Z) :
  a <= b -> recencyOfAge b <= recencyOfAge a.
Proof.
  intros H. unfold recencyOfAge.
  repeat match goal with |- context [?a <? ?b] => destruct (Z.ltb_spec a b) end; lia.
Qed.

(** X1.  The recency score is a step function of the age of the last
    message (20 below one hour, 15 below four, 10 below twenty-four, 5 below
    seventy-two, else 0; a date in the future counts as fresh), it never
    rises as the message gets older, and it is 0 for an invalid date. *)
Theorem recency_never_rises_with_age (now older newer : Z) :
  older <= newer ->
  calculateRecencyScore now (ValidDate older)
  <= calculateRecencyScore now (ValidDate newer)
  /\ calculateRecencyScore now (ValidDate older) = recencyOfAge (now - older)
  /\ calculateRecencyScore now InvalidDate = 0.
Proof.
  intros H. rewrite !calculateRecencyScore_ms. repeat split.
  apply recencyOfAge_antitone. lia.
Qed.

Lemma recency_never_rises_with_age_witness :
  calculateRecencyScore 1700000000000 (ValidDate (1700000000000 - 4 * 3600000))
  <= calculateRecencyScore 1700000000000 (ValidDate (1700000000000 - 3599999))
  /\ calculateRecencyScore 1700000000000 (ValidDate (1700000000000 - 4 * 3600000))
     = 10.
Proof.
  destruct (recency_never_rises_with_age 1700000000000
              (1700000000000 - 4 * 3600000) (1700000000000 - 3599999))
    as (Hle & Heq & _); [lia|].
  split; [exact Hle|]. rewrite Heq. reflexivity.
Defined.

(** ** Urgency grows with the text *)


Lemma matching_scores_In (table : list (string * Z)) (content : string) (x : Z) :
  In x (matching_scores table content) <->
  exists kw, In (kw, x) table /\ JsString.ci_substring kw content = true.
Proof.
  unfold matching_scores. rewrite in_map_iff. split.
  - intros ([kw sc] & Hx & Hin). simpl in Hx. subst sc.
    apply filter_In in Hin as [Hin Hm]. now exists kw.
  - intros (kw & Hin & Hm). exists (kw, x). split; [reflexivity|].
    apply filter_In. now split.
Qed.


(** ** The score in closed form *)

Lemma scoreTableAgrees_true :
  forallb agreesFromContact (Zrange 0 101) = true.
Proof. vm_compute. reflexivity. Qed.

Lemma forallb_In {A : Type} (f : A -> bool) (l : list A) (x : A) :
  forallb f l = true -> In x l -> f x = true.
Proof. intros H. now apply forallb_forall. Qed.

Lemma In_urgencyTerms (u : Z) :
  In u urgencyValues -> In (u, scaled_term 20 lit_0_2 u) urgencyTerms.
Proof.
  intros H. unfold urgencyTerms.
  exact (in_map (fun u => (u, scaled_term 20 lit_0_2 u)) urgencyValues u H).
Qed.

Lemma In_recencyTerms (r : Z) :
  In r recencyValues -> In (r, scaled_term 20 lit_0_2 r) recencyTerms.
Proof.
  intros H. unfold recencyTerms.
  exact (in_map (fun r => (r, scaled_term 20 lit_0_2 r)) recencyValues r H).
Qed.

Lemma In_channelTerms (re pb : Z) :
  In (re, pb) allChannelSignals ->
  In ((re, pb), (scaled_term 15 lit_0_15 re, boost_term pb)) channelTerms.
Proof.
  intros H. unfold channelTerms.
  change ((re, pb), (scaled_term 15 lit_0_15 re, boost_term pb))
    with ((fun p : Z * Z =>
             (p, (scaled_term 15 lit_0_15 (fst p), boost_term (snd p))))
            (re, pb)).
  apply in_map. exact H.
Qed.

Lemma agreesFromContact_elim (c : Z) (ut : Z * spec_float) :
  agreesFromContact c = true -> In ut urgencyTerms ->
  agreesFromUrgency (mul (of_Z c) lit_0_4) c ut = true.
Proof. unfold agreesFromContact. apply forallb_In. Qed.

Lemma agreesFromUrgency_elim (t0 : spec_float) (c : Z) (ut rt : Z * spec_float) :
  agreesFromUrgency t0 c ut = true -> In rt recencyTerms ->
  agreesFromRecency (add t0 (snd ut)) c (fst ut) rt = true.
Proof. unfold agreesFromUrgency. apply forallb_In. Qed.

Lemma agreesFromRecency_elim (t1 : spec_float) (c u : Z) (rt : Z * spec_float)
  (pt : Z * Z * (spec_float * spec_float)) :
  agreesFromRecency t1 c u rt = true -> In pt channelTerms ->
  agreesAt (add t1 (snd rt)) c u (fst rt) pt = true.
Proof. unfold agreesFromRecency. apply forallb_In. Qed.

Lemma agreesAt_table (c u r re pb : Z) :
  0 <= c <= 100 ->
  In u urgencyValues -> In r recencyValues -> In (re, pb) allChannelSignals ->
  agreesAt
    (add (add (mul (of_Z c) lit_0_4) (scaled_term 20 lit_0_2 u))
         (scaled_term 20 lit_0_2 r))
    c u r ((re, pb), (scaled_term 15 lit_0_15 re, boost_term pb)) = true.
Proof.
  intros Hc Hu Hr Hp.
  assert (agreesFromContact c = true) as H1.
  { apply (forallb_In agreesFromContact (Zrange 0 101) c).
    - exact scoreTableAgrees_true.
    - apply In_Zrange. lia. }
  pose proof (agreesFromContact_elim c _ H1 (In_urgencyTerms u Hu)) as H2.
  pose proof (agreesFromUrgency_elim _ c _ _ H2 (In_recencyTerms r Hr)) as H3.
  exact (agreesFromRecency_elim _ c _ _ _ H3 (In_channelTerms re pb Hp)).
Qed.

Lemma floatScore_table (c u r re pb : Z) :
  0 <= c <= 100 ->
  In u urgencyValues -> In r recencyValues -> In (re, pb) allChannelSignals ->
  Math_max 0 (Math_min 100 (Math_round (weightedSum (signalsOf c u r re pb))))
  = IntVal (expectedScore c u r re pb).
Proof.
  intros Hc Hu Hr Hp.
  pose proof (agreesAt_table c u r re pb Hc Hu Hr Hp) as H.
  unfold agreesAt in H. cbn [fst snd] in H. apply Z.eqb_eq in H.
  rewrite weightedSum_terms. cbn [signalsOf sig_contactPriority
    sig_urgencyKeywords sig_recency sig_responseExpectation sig_providerBoost].
  destruct (clamp_round_range
              (add (add (add (add (mul (of_Z c) lit_0_4)
                                  (scaled_term 20 lit_0_2 u))
                             (scaled_term 20 lit_0_2 r))
                        (scaled_term 15 lit_0_15 re))
                   (boost_term pb))) as (p & Hp' & _).
  - assert (0 <= u <= 20) as Hu' by (unfold urgencyValues in Hu; simpl in Hu; lia).
    assert (0 <= r <= 20) as Hr' by (unfold recencyValues in Hr; simpl in Hr; lia).
    assert (0 <= re <= 20 /\ -10 <= pb <= 10) as [Hre Hpb].
    { unfold allChannelSignals in Hp. simpl in Hp.
      repeat (destruct Hp as [Hp|Hp]; [injection Hp as <- <-; lia|]).
      contradiction. }
    clear H.
    apply add_not_nan; [|now apply boost_term_finite].
    apply add_not_nan; [|now apply response_term_finite].
    apply add_not_nan; [|now apply urgency_term_finite].
    apply add_not_nan; [|now apply urgency_term_finite].
    apply mul_not_nan, of_Z_not_nan.
  - rewrite Hp' in H. cbn [Math_max Math_min to_Z] in H. rewrite Hp'.
    f_equal. exact H.
Qed.

Lemma calculateUrgencyScore_values (content : string) :
  In (calculateUrgencyScore content) urgencyValues.
Proof.
  rewrite calculateUrgencyScore_unfold.
  destruct (max_of_list_char (matching_scores URGENCY_KEYWORDS content))
    as (_ & _ & [E | Hin]).
  - rewrite E. simpl. tauto.
  - apply matching_scores_In in Hin as (kw & Hkw & _).
    remember (fold_right Z.max 0 (matching_scores URGENCY_KEYWORDS content))
      as m eqn:Em. clear Em.
    unfold URGENCY_KEYWORDS in Hkw. simpl in Hkw.
    repeat (destruct Hkw as [Hkw|Hkw];
            [injection Hkw as _ <-; simpl; tauto|]).
    contradiction.
Qed.

Lemma channel_signals_values (source : Source) (metadata : Metadata) :
  In (RESPONSE_EXPECTATION source, calculateProviderBoost source metadata)
     (channelSignals source).
Proof.
  unfold calculateProviderBoost. destruct source; cbn [RESPONSE_EXPECTATION channelSignals].
  - destruct (prop metadata "importance") as [| | | |s| |]; simpl; try tauto.
    destruct (String.eqb s "high") eqn:E.
    + apply String.eqb_eq in E. subst s. simpl. tauto.
    + destruct (String.eqb s "low"); simpl; tauto.
  - destruct (truthy (prop metadata "isDirectMessage"));
      destruct (prop metadata "mentions") as [| |[]|[| | |]|[]|[]|]; simpl; tauto.
  - destruct (truthy (prop metadata "isForwarded"));
      destruct (truthy (prop metadata "isGroupChat")); simpl; tauto.
  - destruct (strict_eq_int (prop metadata "connectionDegree") 1);
      destruct (truthy (prop metadata "isInMail")); simpl; tauto.
Qed.

Lemma channel_signals_all (source : Source) (p : Z * Z) :
  In p (channelSignals source) -> In p allChannelSignals.
Proof.
  unfold allChannelSignals. intros H. rewrite !in_app_iff.
  destruct source; tauto.
Qed.

Lemma calculatePriority_expected (now : Z) (context : PriorityContext) (c : Z) :
  ctx_contactPriority context = of_Z c ->
  0 <= c <= 100 ->
  calculatePriority now context
  = IntVal
      (if isInactive now (ctx_lastMessageAt context) then 0
       else expectedScore c
              (calculateUrgencyScore (ctx_content context))
              (calculateRecencyScore now (ctx_lastMessageAt context))
              (RESPONSE_EXPECTATION (ctx_source context))
              (calculateProviderBoost (ctx_source context) (ctx_metadata context))).
Proof.
  intros Hcp Hc. unfold calculatePriority.
  destruct (isInactive now (ctx_lastMessageAt context)); [reflexivity|].
  cbv zeta. unfold calculatePrioritySignals. rewrite Hcp.
  apply (floatScore_table c); auto.
  - apply calculateUrgencyScore_values.
  - apply calculateRecencyScore_values.
  - eapply channel_signals_all, channel_signals_values.
Qed.


(** X3.  The provider boost takes three or four values per channel, all
    within [-10, 10]: 0, 5 or -3 for an
    email; 10, 5, 0 or -5 on Slack (15 is never reached, since a direct
    message with mentions is cut to 10); 0, -5 or -10 on WhatsApp (a
    forwarded group message gets -10, not -15); 0, 5 or -5 on LinkedIn. *)
Theorem calculateProviderBoost_values (source : Source) (metadata : Metadata) :
  In (calculateProviderBoost source metadata) (map snd (channelSignals source))
  /\ -10 <= calculateProviderBoost source metadata <= 10.
Proof.
  pose proof (channel_signals_values source metadata) as H.
  apply (in_map snd) in H. cbn [snd] in H. split; [exact H|].
  destruct source; simpl in H; lia.
Qed.

Lemma expectedScore_mono (c c' u u' r r' re pb : Z) :
  0 <= c <= c' -> 0 <= u <= u' -> 0 <= r <= r' ->
  expectedScore c u r re pb <= expectedScore c' u' r' re pb.
Proof.
  intros Hc Hu Hr. unfold expectedScore, roundsDown, exactScore.
  repeat match goal with
         | |- context [?a =? ?b] => destruct (Z.eqb_spec a b)
         end; cbn [andb]; Z.div_mod_to_equations; lia.
Qed.

Lemma expectedScore_nonneg (c u r re pb : Z) : 0 <= expectedScore c u r re pb.
Proof.
  unfold expectedScore, exactScore.
  destruct (roundsDown c u r re pb); lia.
Qed.

Lemma calculateUrgencyScore_nonneg (content : string) :
  0 <= calculateUrgencyScore content.
Proof.
  pose proof (calculateUrgencyScore_values content) as H.
  unfold urgencyValues in H. simpl in H. lia.
Qed.

Lemma calculateRecencyScore_nonneg (now : Z) (d : Date) :
  0 <= calculateRecencyScore now d.
Proof.
  pose proof (calculateRecencyScore_values now d) as H. simpl in H. lia.
Qed.

(** X4.  With a whole-number contact priority between 0 and 100 the score
    of an active conversation is the weighted sum
    0.4 c + u + r + re + 0.25 (pb + 10) rounded half up, with one exception:
    for c = u = r = 0, re = 5 and pb = 0 the exact sum is 7.5 and rounds to
    8, but the doubles add up to just under 7.5 and the score is 7.  An
    inactive conversation scores 0. *)
Theorem calculatePriority_rounds_half_up_but_once
  (now : Z) (context : PriorityContext) (c : Z) :
  ctx_contactPriority context = of_Z c ->
  0 <= c <= 100 ->
  calculatePriority now context
  = IntVal
      (if isInactive now (ctx_lastMessageAt context) then 0
       else if roundsDown c
                 (calculateUrgencyScore (ctx_content context))
                 (calculateRecencyScore now (ctx_lastMessageAt context))
                 (RESPONSE_EXPECTATION (ctx_source context))
                 (calculateProviderBoost (ctx_source context)
                                         (ctx_metadata context))
            then 7
            else exactScore c
                   (calculateUrgencyScore (ctx_content context))
                   (calculateRecencyScore now (ctx_lastMessageAt context))
                   (RESPONSE_EXPECTATION (ctx_source context))
                   (calculateProviderBoost (ctx_source context)
                                           (ctx_metadata context)))
  /\ exactScore 0 0 0 5 0 = 8.
Proof.
  intros Hcp Hc. split; [|reflexivity].
  rewrite (calculatePriority_expected now context c Hcp Hc). reflexivity.
Qed.

Lemma calculatePriority_rounds_half_up_but_once_witness :
  calculatePriority 1700000000000 plainEmail = IntVal 7
  /\ exactScore 0 0 0 5 0 = 8.
Proof.
  destruct (calculatePriority_rounds_half_up_but_once 1700000000000 plainEmail 0)
    as [H1 H2]; [reflexivity|lia|].
  split; [|exact H2]. rewrite H1. vm_compute. reflexivity.
Defined.

(** X5.  All else equal, a higher contact priority never gives a lower
    score. *)
Theorem priority_never_drops_with_contact_priority
  (now : Z) (context : PriorityContext) (c c' : Z) :
  0 <= c -> c <= c' -> c' <= 100 ->
  exists p p',
    calculatePriority now (withContactPriority context (of_Z c)) = IntVal p
    /\ calculatePriority now (withContactPriority context (of_Z c')) = IntVal p'
    /\ p <= p'.
Proof.
  intros H0 Hle H100.
  rewrite (calculatePriority_expected now
             (withContactPriority context (of_Z c)) c eq_refl) by lia.
  rewrite (calculatePriority_expected now
             (withContactPriority context (of_Z c')) c' eq_refl) by lia.
  cbn [withContactPriority ctx_lastMessageAt ctx_content ctx_source ctx_metadata].
  do 2 eexists. split; [reflexivity|]. split; [reflexivity|].
  destruct (isInactive now (ctx_lastMessageAt context)); [lia|].
  apply expectedScore_mono; try lia.
  - split; [apply calculateUrgencyScore_nonneg|lia].
  - split; [apply calculateRecencyScore_nonneg|lia].
Qed.

Lemma priority_never_drops_with_contact_priority_witness :
  exists p p',
    calculatePriority 1700000000000 (withContactPriority plainEmail (of_Z 0))
    = IntVal p
    /\ calculatePriority 1700000000000 (withContactPriority plainEmail (of_Z 50))
       = IntVal p'
    /\ p <= p'.
Proof.
  apply (priority_never_drops_with_contact_priority
           1700000000000 plainEmail 0 50); lia.
Defined.



(** X7.  All else equal, a more recent last message never gives a lower
    score: neither the recency signal nor the inactivity rule can make a
    conversation lose priority when its last message is newer. *)
Theorem priority_never_drops_with_a_newer_message
  (now : Z) (context : PriorityContext) (c older newer : Z) :
  ctx_contactPriority context = of_Z c ->
  0 <= c <= 100 ->
  older <= newer ->
  exists p p',
    calculatePriority now (withLastMessageAt context (ValidDate older))
    = IntVal p
    /\ calculatePriority now (withLastMessageAt context (ValidDate newer))
       = IntVal p'
    /\ p <= p'.
Proof.
  intros Hcp Hc Hle.
  rewrite (calculatePriority_expected now (withLastMessageAt context _) c Hcp Hc).
  rewrite (calculatePriority_expected now (withLastMessageAt context _) c Hcp Hc).
  cbn [withLastMessageAt ctx_lastMessageAt ctx_content ctx_source ctx_metadata].
  do 2 eexists. split; [reflexivity|]. split; [reflexivity|].
  destruct (isInactive now (ValidDate older)) eqn:Eo.
  - destruct (isInactive now (ValidDate newer)); [lia|].
    apply expectedScore_nonneg.
  - destruct (isInactive now (ValidDate newer)) eqn:En.
    + apply isInactive_iff in En. simpl in En.
      assert (isInactive now (ValidDate older) = true) as Ho
        by (apply isInactive_iff; simpl; lia).
      congruence.
    + apply expectedScore_mono; try lia.
      * split; [apply calculateUrgencyScore_nonneg|lia].
      * split; [apply calculateRecencyScore_nonneg|].
        rewrite !calculateRecencyScore_ms. apply recencyOfAge_antitone. lia.
Qed.

Lemma priority_never_drops_with_a_newer_message_witness :
  exists p p',
    calculatePriority 1700000000000
      (withLastMessageAt plainEmail (ValidDate (1700000000000 - 8 * 86400000)))
    = IntVal p
    /\ calculatePriority 1700000000000
         (withLastMessageAt plainEmail (ValidDate (1700000000000 - 60000)))
       = IntVal p'
    /\ p <= p'.
Proof.
  apply (priority_never_drops_with_a_newer_message
           1700000000000 plainEmail 0
           (1700000000000 - 8 * 86400000) (1700000000000 - 60000));
    [reflexivity|lia|lia].
Defined.

(** ** A successful ingestion in closed form *)

Lemma createMessage_exact (now : Z) (uuid : string) (data : MessageData)
  (s : Store) :
  let message := newMessage now uuid data in
  let s1 := with_message uuid (md_externalId data) message s in
  createMessage now uuid data s =
  (match getConversation s1 (md_conversationId data) with
   | Some c => emit_out (messageNewEvent c uuid) s1
   | None => []
   end, s1, Normal message).
Proof.
  unfold createMessage, newMessage, messageNewEvent, bind, modify, gets, ret.
  cbn zeta beta iota. cbn [Message.id Message.externalId].
  match goal with
  | |- context [getConversation ?a ?b] => destruct (getConversation a b)
  end.
  - rewrite emit_run. cbn. rewrite app_nil_r. reflexivity.
  - reflexivity.
Qed.

Lemma updateConversationPriority_exact (now : Z) (conversationId : string)
  (priority : Z) (lastMessageAt : Date) (s : Store) :
  updateConversationPriority now conversationId priority lastMessageAt s =
  match conversationRef s conversationId with
  | Some (r, c) =>
      let c' := reprioritised now c priority lastMessageAt in
      (emit_out (conversationUpdatedEvent c') (with_heap r c' s),
       with_heap r c' s, Normal (Some c'))
  | None => ([], s, Normal None)
  end.
Proof.
  unfold updateConversationPriority, conversationRef, reprioritised,
    conversationUpdatedEvent, bind, gets, modify, ret.
  cbn beta iota zeta.
  destruct (JsMap.get (conversations s) conversationId) as [r|];
    [destruct (deref s r) as [c|]|]; try reflexivity.
  rewrite emit_run. cbn. rewrite app_nil_r. reflexivity.
Qed.

Lemma findOrCreateConversation_exact (now : Z) (uuid : string)
  (data : ConversationData) (s : Store) :
  findOrCreateConversation now uuid data s =
  match findConversationByUserAndExternalId
          s (cv_userId data) (cv_externalId data) (cv_source data) with
  | Some conversation => ([], s, Normal (conversation, false))
  | None =>
      let c := newConversation now uuid data in
      let s1 := with_conversation uuid (conversationKey data) c s in
      (emit_out (conversationNewEvent c) s1, s1, Normal (c, true))
  end.
Proof.
  unfold findOrCreateConversation. unfold bind at 1. unfold gets.
  destruct (findConversationByUserAndExternalId
              s (cv_userId data) (cv_externalId data) (cv_source data)).
  - reflexivity.
  - unfold bind. rewrite createConversation_run. cbn.
    rewrite !app_nil_r. reflexivity.
Qed.

Lemma emit_out_events (event : SSEEvent) (s s' : Store) :
  events s' = events s -> emit_out event s' = emit_out event s.
Proof. unfold emit_out. now intros ->. Qed.

Lemma afterContact_events (now : Z) (p : PersistCall) (s : Store) :
  events (afterContact now p s) = events s.
Proof.
  unfold afterContact.
  now destruct (findContactByUserAndEmail s (pc_userId p) (pc_contactEmail p)).
Qed.

Lemma afterConversation_events (now : Z) (p : PersistCall) (s : Store) :
  events (afterConversation now p s) = events s.
Proof.
  unfold afterConversation.
  destruct (existingConversation now p s); cbn [with_conversation events];
    apply afterContact_events.
Qed.

Lemma afterMessage_events (now : Z) (p : PersistCall) (s : Store) :
  events (afterMessage now p s) = events s.
Proof. unfold afterMessage. cbn [with_message events]. apply afterConversation_events. Qed.

Lemma findOrCreateContact_persist (now : Z) (p : PersistCall) (s : Store) :
  findOrCreateContact now (uuid_contact (pc_ids p)) (pc_userId p)
    (pc_contactEmail p) (pc_contactName p) (pc_source p) s
  = ([], afterContact now p s, Normal (resolvedContact now p s)).
Proof.
  rewrite findOrCreateContact_run. unfold afterContact, resolvedContact.
  now destruct (findContactByUserAndEmail s (pc_userId p) (pc_contactEmail p)).
Qed.

Lemma findOrCreateConversation_persist (now : Z) (p : PersistCall) (s : Store) :
  findOrCreateConversation now (uuid_conversation (pc_ids p))
    (conversationData now p s) (afterContact now p s)
  = (match existingConversation now p s with
     | Some _ => []
     | None => emit_out (conversationNewEvent (resolvedConversation now p s)) s
     end,
     afterConversation now p s,
     Normal (resolvedConversation now p s,
             match existingConversation now p s with
             | Some _ => false
             | None => true
             end)).
Proof.
  rewrite findOrCreateConversation_exact.
  unfold afterConversation, resolvedConversation, existingConversation.
  cbn [conversationData cv_userId cv_externalId cv_source].
  destruct (findConversationByUserAndExternalId (afterContact now p s)
              (pc_userId p) (pc_externalConversationId p) (pc_source p)).
  - reflexivity.
  - cbv zeta. rewrite (emit_out_events _ s); [reflexivity|].
    cbn [with_conversation events]. apply afterContact_events.
Qed.

Lemma getConversation_ref (s : Store) (conversationId : string) :
  getConversation s conversationId
  = option_map snd (conversationRef s conversationId).
Proof.
  unfold getConversation, conversationRef.
  destruct (JsMap.get (conversations s) conversationId) as [r|]; [|reflexivity].
  now destruct (deref s r).
Qed.

Lemma persist_run (now : Z) (p : PersistCall) (s : Store) :
  persist now p s =
  (flat_map (fun event => emit_out event s) (persistEvents now p s),
   afterPersist now p s,
   Normal (Json 201 (persistResponse now p s))).
Proof.
  unfold persist, resolveAndPersist.
  rewrite (bind_run _ _ _ _ _ _ (findOrCreateContact_persist now p s)).
  cbn beta zeta.
  change {| cv_userId := pc_userId p;
            cv_contactId := Contact.id (resolvedContact now p s);
            cv_externalId := pc_externalConversationId p;
            cv_source := pc_source p;
            cv_title := pc_title p |}
    with (conversationData now p s).
  rewrite (bind_run _ _ _ _ _ _ (findOrCreateConversation_persist now p s)).
  cbn beta zeta. cbn [fst].
  change (match pc_receivedAt p with Some d => d | None => ValidDate now end)
    with (messageDate now p).
  match goal with
  | |- context [createMessage ?n ?u ?d] =>
      rewrite (bind_run _ _ _ _ _ _ (createMessage_exact n u d (afterConversation now p s)))
  end.
  cbn beta zeta.
  change (with_message (uuid_message (pc_ids p)) _ _ (afterConversation now p s))
    with (afterMessage now p s).
  cbn [md_conversationId Message.id newMessage].
  change {| ctx_source := pc_source p;
            ctx_content := pc_content p;
            ctx_lastMessageAt := messageDate now p;
            ctx_contactPriority :=
              of_Z (Contact.priority (resolvedContact now p s));
            ctx_metadata := pc_priorityMetadata p |}
    with (priorityContext now p s).
  change (to_Z (calculatePriority now (priorityContext now p s)))
    with (persistedPriority now p s).
  unfold bind. rewrite updateConversationPriority_exact.
  rewrite getConversation_ref.
  unfold afterPersist, persistEvents, persistResponse, ret.
  destruct (conversationRef (afterMessage now p s)
              (Conversation.id (resolvedConversation now p s))) as [[r c]|];
    cbn [option_map snd].
  - cbv zeta.
    rewrite (emit_out_events _ s (with_heap r _ (afterMessage now p s)))
      by (cbn [with_heap events]; apply afterMessage_events).
    rewrite (emit_out_events _ s (afterMessage now p s))
      by apply afterMessage_events.
    destruct (existingConversation now p s); cbn [app flat_map];
      rewrite ?app_nil_r; reflexivity.
  - destruct (existingConversation now p s); cbn [app flat_map];
      rewrite ?app_nil_r; reflexivity.
Qed.

(** ** From the handlers to the closed form *)

Lemma ing_valid_persist (i : Ingestion) :
  ing_valid i = true -> exists p, ing_persist i = Some p.
Proof.
  destruct i as [ids [body|]|ids [body|]|ids [body|]|ids [body|]];
    try discriminate; simpl;
    match goal with
    | |- context [match ?frm with Some _ => _ | None => _ end] =>
        destruct frm as [from|]
    end;
    rewrite ?andb_false_r; try discriminate; intros _; eexists; reflexivity.
Qed.

Ltac handler_persist Hp Hext Hvalid Huser Hfind uid frm :=
  let Efrom := fresh "Efrom" in let from := fresh "from" in
  let Euser := fresh "Euser" in
  cbn [ing_persist] in Hp; simpl in Hext, Hvalid, Huser;
  destruct frm as [from|] eqn:Efrom; [|discriminate];
  injection Hp as <-; injection Hext as <-;
  destruct (getUser _ uid) eqn:Euser; [|discriminate];
  unfold present in Hvalid;
  repeat match goal with
         | H : _ && _ = true |- _ => apply andb_prop in H as [? ?]
         | H : negb _ = true |- _ => apply negb_true_iff in H
         end;
  split; [|split; reflexivity];
  enter_handler; rewrite bind_gets, Euser, bind_gets, Hfind;
  unfold persist;
  cbn [pc_ids pc_source pc_userId pc_externalMessageId
       pc_externalConversationId pc_contactEmail pc_contactName pc_title
       pc_content pc_messageMetadata pc_priorityMetadata pc_receivedAt];
  match goal with
  | |- _ = resolveAndPersist ?n ?a1 ?a2 ?a3 ?a4 ?a5 ?a6 ?a7 ?a8 ?a9 ?a10
             ?a11 ?a12 ?st =>
      let Hr := fresh "Hr" in
      destruct (resolveAndPersist_run n a1 a2 a3 a4 a5 a6 a7 a8 a9 a10
                  a11 a12 st) as (? & ? & ? & ? & Hr & _);
      rewrite Hr;
      first
        [ reflexivity
        | match goal with
          | |- (let (_, _) := ?m in _) = ?v =>
              replace m with v by (symmetry; exact Hr); reflexivity
          end ]
  end.

Lemma ingest_persist (now : Z) (i : Ingestion) (s : Store) (ext : string)
  (p : PersistCall) :
  ing_persist i = Some p ->
  ing_externalMessageId i = Some ext ->
  ing_valid i = true ->
  userExists s (ing_userId i) = true ->
  findMessageByExternalId s ext = None ->
  ingest now i s = persist now p s
  /\ pc_externalMessageId p = ext
  /\ ing_userId i = Some (pc_userId p).
Proof.
  intros Hp Hext Hvalid Huser Hfind.
  destruct i as [ids [body|]|ids [body|]|ids [body|]|ids [body|]];
    try discriminate.
  - handler_persist Hp Hext Hvalid Huser Hfind (em_userId body) (em_from body).
  - handler_persist Hp Hext Hvalid Huser Hfind (sl_userId body) (sl_from body).
  - handler_persist Hp Hext Hvalid Huser Hfind (wa_userId body) (wa_from body).
  - handler_persist Hp Hext Hvalid Huser Hfind (li_userId body) (li_from body).
Qed.

(** ** The conversation maps stay linked *)

Lemma linked_frame (s s' : Store) :
  conversations s' = conversations s ->
  conversationsByUserAndExternalId s' = conversationsByUserAndExternalId s ->
  heap s' = heap s ->
  linked s -> linked s'.
Proof.
  unfold linked, deref. intros -> -> ->. exact (fun H => H).
Qed.

Lemma with_users_linked (f : JsMap.t User.t -> JsMap.t User.t) (s : Store) :
  linked s -> linked (with_users f s).
Proof. now apply linked_frame. Qed.

Lemma with_contact_linked (id key : string) (c : Contact.t) (s : Store) :
  linked s -> linked (with_contact id key c s).
Proof. now apply linked_frame. Qed.

Lemma with_message_linked (id key : string) (m : Message.t) (s : Store) :
  linked s -> linked (with_message id key m s).
Proof. now apply linked_frame. Qed.

Lemma with_events_linked (f : EventEmitter.t -> EventEmitter.t) (s : Store) :
  linked s -> linked (with_events f s).
Proof. now apply linked_frame. Qed.

Lemma with_conversation_linked (id key : string) (c : Conversation.t)
  (s : Store) :
  Conversation.id c = id -> linked s -> linked (with_conversation id key c s).
Proof.
  intros Hid [Hrefs Hidx].
  assert (forall r c0, deref s r = Some c0 ->
                       deref (with_conversation id key c s) r = Some c0) as Hold.
  { intros r c0 Hd. unfold deref in *. cbn [with_conversation heap].
    rewrite nth_error_app1; [exact Hd|]. apply nth_error_Some. congruence. }
  assert (deref (with_conversation id key c s) (List.length (heap s)) = Some c)
    as Hnew.
  { unfold deref. cbn [with_conversation heap].
    rewrite nth_error_app2 by lia. now rewrite Nat.sub_diag. }
  split.
  - intros id' r. cbn [with_conversation conversations].
    destruct (String.eqb_spec id' id) as [->|Hne].
    + rewrite get_set_same. intros [= <-]. now exists c.
    + rewrite get_set_other by congruence. intros H.
      destruct (Hrefs id' r H) as (c0 & Hd & Hc0). exists c0. split; auto.
  - intros key' r.
    cbn [with_conversation conversationsByUserAndExternalId conversations].
    destruct (String.eqb_spec key' key) as [->|Hne].
    + rewrite get_set_same. intros [= <-]. exists c. split; [exact Hnew|].
      rewrite Hid, get_set_same. discriminate.
    + rewrite get_set_other by congruence. intros H.
      destruct (Hidx key' r H) as (c0 & Hd & Hc0). exists c0. split; auto.
      destruct (String.eqb_spec (Conversation.id c0) id) as [->|Hne'].
      * rewrite get_set_same. discriminate.
      * rewrite get_set_other by congruence. exact Hc0.
Qed.

Lemma list_update_length {A : Type} (l : list A) (n : nat) (x : A) :
  List.length (list_update l n x) = List.length l.
Proof.
  revert n; induction l as [|y l IH]; intros [|n]; simpl; auto.
Qed.

Lemma nth_error_list_update {A : Type} (l : list A) (n m : nat) (x : A) :
  nth_error (list_update l n x) m
  = if Nat.eqb m n
    then match nth_error l n with Some _ => Some x | None => None end
    else nth_error l m.
Proof.
  revert n m; induction l as [|y l IH]; intros [|n] [|m]; simpl; auto.
  now destruct (Nat.eqb m n).
Qed.

Lemma deref_with_heap (r r' : nat) (c c' : Conversation.t) (s : Store) :
  deref s r = Some c ->
  deref (with_heap r c' s) r'
  = if Nat.eqb r' r then Some c' else deref s r'.
Proof.
  unfold deref. cbn [with_heap heap]. intros Hd.
  rewrite nth_error_list_update. now rewrite Hd.
Qed.

Lemma with_heap_linked (r : nat) (c c' : Conversation.t) (s : Store) :
  deref s r = Some c -> Conversation.id c' = Conversation.id c ->
  linked s -> linked (with_heap r c' s).
Proof.
  intros Hd Hid [Hrefs Hidx]. split.
  - intros id r'. cbn [with_heap conversations]. intros H.
    destruct (Hrefs id r' H) as (c0 & Hd0 & Hc0).
    rewrite (deref_with_heap r r' c c' s Hd).
    destruct (Nat.eqb_spec r' r) as [->|Hne].
    + exists c'. split; [reflexivity|]. congruence.
    + now exists c0.
  - intros key r'.
    cbn [with_heap conversationsByUserAndExternalId conversations]. intros H.
    destruct (Hidx key r' H) as (c0 & Hd0 & Hc0).
    rewrite (deref_with_heap r r' c c' s Hd).
    destruct (Nat.eqb_spec r' r) as [->|Hne].
    + exists c'. split; [reflexivity|]. rewrite Hid. congruence.
    + now exists c0.
Qed.

Lemma emptyStore_linked : linked emptyStore.
Proof. split; intros k r; discriminate. Qed.

Lemma updatePriorityFromMessages_linked (now : Z) (s : Store) (r : nat) :
  linked s -> linked (updatePriorityFromMessages now s r).
Proof.
  intros H. unfold updatePriorityFromMessages.
  destruct (deref s r) as [c|] eqn:Hd; [|exact H].
  destruct (getLatestMessageForConversation s (Conversation.id c)); [|exact H].
  destruct (JsMap.get (contacts s) (Conversation.contactId c)); [|exact H].
  now apply (with_heap_linked r c).
Qed.

Lemma updateConversationPriorities_linked (now : Z) (s : Store) :
  linked s -> linked (updateConversationPrioritiesFromMessages now s).
Proof.
  unfold updateConversationPrioritiesFromMessages.
  generalize (JsMap.values (conversations s)). intros refs.
  revert s; induction refs as [|r refs IH]; intros s H; simpl; [exact H|].
  now apply IH, updatePriorityFromMessages_linked.
Qed.

Lemma seedData_linked (now : Z) (uuid : nat -> string) :
  linked (seedData now uuid).
Proof.
  unfold seedData. cbv zeta.
  cbn [createSeededConversation fold_left fst snd].
  apply updateConversationPriorities_linked.
  unfold createSeededMessage. cbn [Message.id Message.externalId].
  repeat match goal with
    | |- linked (with_message _ _ _ _) => apply with_message_linked
    | |- linked (with_conversation _ _ _ _) =>
        apply with_conversation_linked; [reflexivity|]
    | |- linked (with_contact _ _ _ _) => apply with_contact_linked
    | |- linked (with_users _ _) => apply with_users_linked
    end.
  exact emptyStore_linked.
Qed.

(** ** What a successful ingestion leaves *)

Lemma afterPersist_fields (now : Z) (p : PersistCall) (s : Store) :
  users (afterPersist now p s) = users s
  /\ events (afterPersist now p s) = events s
  /\ messages (afterPersist now p s)
     = JsMap.set (messages s) (uuid_message (pc_ids p)) (persistedMessage now p s)
  /\ messagesByExternalId (afterPersist now p s)
     = JsMap.set (messagesByExternalId s) (pc_externalMessageId p)
                 (persistedMessage now p s).
Proof.
  assert (users (afterContact now p s) = users s
          /\ messages (afterContact now p s) = messages s
          /\ messagesByExternalId (afterContact now p s) = messagesByExternalId s)
    as (Hu1 & Hm1 & Hi1).
  { unfold afterContact.
    destruct (findContactByUserAndEmail s (pc_userId p) (pc_contactEmail p));
      repeat split. }
  assert (users (afterConversation now p s) = users s
          /\ messages (afterConversation now p s) = messages s
          /\ messagesByExternalId (afterConversation now p s)
             = messagesByExternalId s)
    as (Hu2 & Hm2 & Hi2).
  { unfold afterConversation.
    destruct (existingConversation now p s);
      cbn [with_conversation users messages messagesByExternalId];
      repeat split; assumption. }
  unfold afterPersist.
  destruct (conversationRef (afterMessage now p s)
              (Conversation.id (resolvedConversation now p s))) as [[r c]|];
    cbn [with_heap users events messages messagesByExternalId];
    (split; [|split; [apply afterMessage_events|]]);
    unfold afterMessage;
    cbn [with_message users messages messagesByExternalId];
    rewrite ?Hm2, ?Hi2; auto.
Qed.

Lemma afterContact_linked (now : Z) (p : PersistCall) (s : Store) :
  linked s -> linked (afterContact now p s).
Proof.
  intros H. unfold afterContact.
  destruct (findContactByUserAndEmail s (pc_userId p) (pc_contactEmail p));
    [exact H|now apply with_contact_linked].
Qed.

Lemma afterConversation_linked (now : Z) (p : PersistCall) (s : Store) :
  linked s -> linked (afterConversation now p s).
Proof.
  intros H. apply (afterContact_linked now p) in H. unfold afterConversation.
  destruct (existingConversation now p s); [exact H|].
  now apply with_conversation_linked.
Qed.

Lemma conversationRef_deref (s : Store) (id : string) (r : nat)
  (c : Conversation.t) :
  conversationRef s id = Some (r, c) ->
  JsMap.get (conversations s) id = Some r /\ deref s r = Some c.
Proof.
  unfold conversationRef.
  destruct (JsMap.get (conversations s) id) as [r'|]; [|discriminate].
  destruct (deref s r') as [c'|] eqn:E; [|discriminate].
  intros [= <- <-]. now split.
Qed.

Lemma afterPersist_linked (now : Z) (p : PersistCall) (s : Store) :
  linked s -> linked (afterPersist now p s).
Proof.
  intros H. apply (afterConversation_linked now p) in H.
  assert (linked (afterMessage now p s)) as H3
    by (unfold afterMessage; now apply with_message_linked).
  unfold afterPersist.
  destruct (conversationRef (afterMessage now p s)
              (Conversation.id (resolvedConversation now p s)))
    as [[r c]|] eqn:E; [|exact H3].
  apply conversationRef_deref in E as [_ Hd].
  now apply (with_heap_linked r c).
Qed.

(** A response 201 comes from the closed form, and only from it. *)
Lemma ingest_created (now : Z) (i : Ingestion) (s s' : Store)
  (out : list Output) (response : MessageIngestionResponse) :
  ingest now i s = (out, s', Normal (Json 201 response)) ->
  exists p,
    ing_persist i = Some p
    /\ ing_externalMessageId i = Some (pc_externalMessageId p)
    /\ ing_userId i = Some (pc_userId p)
    /\ ing_valid i = true
    /\ userExists s (ing_userId i) = true
    /\ findMessageByExternalId s (pc_externalMessageId p) = None
    /\ out = flat_map (fun event => emit_out event s) (persistEvents now p s)
    /\ s' = afterPersist now p s
    /\ response = persistResponse now p s.
Proof.
  intros Hrun.
  destruct (ingest_outcomes now i s)
    as [_ [out' H] | ext msg _ _ H | ext u _ _ _ _ H | ext m _ _ _ _ H
       | ext out' s'' resp m Hext Hvalid Huser Hfind _ _ _ _ _ _ _];
    try (rewrite H in Hrun; discriminate).
  destruct (ing_valid_persist i Hvalid) as (p & Hp).
  destruct (ingest_persist now i s ext p Hp Hext Hvalid Huser Hfind)
    as (Heq & <- & Hid).
  rewrite Heq, persist_run in Hrun. injection Hrun as <- <- <-.
  exists p. repeat split; auto.
Qed.

Lemma ingest_creates (now : Z) (i : Ingestion) (s : Store) (p : PersistCall) :
  ing_persist i = Some p ->
  ing_valid i = true ->
  userExists s (ing_userId i) = true ->
  findMessageByExternalId s (pc_externalMessageId p) = None ->
  ingest now i s
  = (flat_map (fun event => emit_out event s) (persistEvents now p s),
     afterPersist now p s, Normal (Json 201 (persistResponse now p s))).
Proof.
  intros Hp Hvalid Huser Hfind.
  assert (ing_externalMessageId i = Some (pc_externalMessageId p)) as Hext.
  { destruct i as [ids [body|]|ids [body|]|ids [body|]|ids [body|]];
      try discriminate; cbn [ing_persist] in Hp;
      match type of Hp with
      | match ?frm with Some _ => _ | None => _ end = _ =>
          destruct frm; [|discriminate]
      end; injection Hp as <-; reflexivity. }
  destruct (ingest_persist now i s _ p Hp Hext Hvalid Huser Hfind) as (Heq & _).
  now rewrite Heq, persist_run.
Qed.

Lemma ingest_linked (now : Z) (i : Ingestion) (s : Store) :
  linked s -> linked (snd (fst (ingest now i s))).
Proof.
  intros Hs.
  destruct (ingest_outcomes now i s)
    as [_ [out H] | ext msg _ _ H | ext u _ _ _ _ H | ext m _ _ _ _ H
       | ext out s' resp m _ _ _ _ H _ _ _ _ _ _];
    try (rewrite H; exact Hs).
  destruct (ingest_created now i s s' out resp H) as (p & _ & _ & _ & _ & _ & _ & _ & -> & _).
  rewrite H. cbn [fst snd]. now apply afterPersist_linked.
Qed.

Lemma POST_users_conversations (now : Z) (uuid : string)
  (request : option CreateUserRequest) (s : Store) :
  let s' := snd (fst (POST_users now uuid request s)) in
  conversations s' = conversations s
  /\ conversationsByUserAndExternalId s' = conversationsByUserAndExternalId s
  /\ heap s' = heap s.
Proof.
  unfold POST_users, try_catch.
  destruct request as [body|]; [|now repeat split].
  destruct (is_empty (cu_email body) || is_empty (cu_name body));
    now repeat split.
Qed.

Lemma handle_linked (s : Store) (timed : Z * Request) :
  linked s -> linked (handle s timed).
Proof.
  destruct timed as [now [uuid body|i|l|l]]; intros Hs; cbn [handle].
  - destruct (POST_users_conversations now uuid body s) as (H1 & H2 & H3).
    now apply (linked_frame s).
  - now apply ingest_linked.
  - now apply with_events_linked.
  - now apply with_events_linked.
Qed.

Lemma reachable_linked (s : Store) : reachable s -> linked s.
Proof.
  induction 1 as [now uuid|s now request _ IH].
  - apply seedData_linked.
  - now apply handle_linked.
Qed.

(** ** Ingestion: what the handlers guarantee *)



Lemma get_set_cases {V : Type} (m : JsMap.t V) (k k' : string) (v : V) :
  JsMap.get (JsMap.set m k v) k'
  = if String.eqb k' k then Some v else JsMap.get m k'.
Proof.
  destruct (String.eqb_spec k' k) as [->|Hne].
  - apply get_set_same.
  - apply get_set_other. congruence.
Qed.



Lemma afterContact_conversations (now : Z) (p : PersistCall) (s : Store) :
  conversations (afterContact now p s) = conversations s
  /\ conversationsByUserAndExternalId (afterContact now p s)
     = conversationsByUserAndExternalId s
  /\ heap (afterContact now p s) = heap s.
Proof.
  unfold afterContact.
  destruct (findContactByUserAndEmail s (pc_userId p) (pc_contactEmail p));
    now repeat split.
Qed.

Lemma existingConversation_find (now : Z) (p : PersistCall) (s : Store) :
  existingConversation now p s
  = findConversationByUserAndExternalId s (pc_userId p)
      (pc_externalConversationId p) (pc_source p).
Proof.
  unfold existingConversation, findConversationByUserAndExternalId, deref.
  destruct (afterContact_conversations now p s) as (_ & -> & ->). reflexivity.
Qed.

(** The conversation of the message is on record under its id when the
    message has been stored. *)
Lemma resolved_on_record (now : Z) (p : PersistCall) (s : Store) :
  linked s ->
  exists r c,
    conversationRef (afterMessage now p s)
      (Conversation.id (resolvedConversation now p s)) = Some (r, c)
    /\ Conversation.id c = Conversation.id (resolvedConversation now p s).
Proof.
  intros Hs. pose proof (afterConversation_linked now p s Hs) as [Hrefs Hidx].
  assert (exists key r0,
            JsMap.get (conversationsByUserAndExternalId (afterConversation now p s))
                      key = Some r0
            /\ deref (afterConversation now p s) r0
               = Some (resolvedConversation now p s)) as (key & r0 & Hk & Hd).
  { unfold afterConversation, resolvedConversation, existingConversation.
    unfold findConversationByUserAndExternalId.
    match goal with
    | |- context [JsMap.get ?m ?k] => destruct (JsMap.get m k) as [r0|] eqn:E
    end.
    - destruct (deref (afterContact now p s) r0) as [c0|] eqn:E0.
      + eexists. exists r0. split; [exact E|exact E0].
      + eexists. eexists.
        cbn [with_conversation conversationsByUserAndExternalId].
        split; [apply get_set_same|].
        unfold deref. cbn [with_conversation heap].
        rewrite nth_error_app2 by lia. now rewrite Nat.sub_diag.
    - eexists. eexists.
      cbn [with_conversation conversationsByUserAndExternalId].
      split; [apply get_set_same|].
      unfold deref. cbn [with_conversation heap].
      rewrite nth_error_app2 by lia. now rewrite Nat.sub_diag. }
  destruct (Hidx key r0 Hk) as (c & Hd' & Hc).
  assert (c = resolvedConversation now p s) as -> by congruence.
  destruct (JsMap.get (conversations (afterConversation now p s))
              (Conversation.id (resolvedConversation now p s)))
    as [r1|] eqn:E1; [|congruence].
  destruct (Hrefs _ r1 E1) as (c1 & Hd1 & Hid1).
  exists r1, c1. split; [|exact Hid1].
  unfold conversationRef, afterMessage. cbn [with_message conversations].
  rewrite E1.
  change (deref (with_message _ _ _ (afterConversation now p s)) r1)
    with (deref (afterConversation now p s) r1).
  now rewrite Hd1.
Qed.

Lemma getConversation_afterPersist (now : Z) (p : PersistCall) (s : Store)
  (r : nat) (c : Conversation.t) :
  conversationRef (afterMessage now p s)
    (Conversation.id (resolvedConversation now p s)) = Some (r, c) ->
  getConversation (afterPersist now p s)
    (Conversation.id (resolvedConversation now p s))
  = Some (reprioritised now c (persistedPriority now p s) (messageDate now p)).
Proof.
  intros E. unfold afterPersist. rewrite E.
  apply conversationRef_deref in E as [Hget Hd].
  unfold getConversation. cbn [with_heap conversations]. rewrite Hget.
  rewrite (deref_with_heap r r c _ _ Hd). now rewrite Nat.eqb_refl.
Qed.

Lemma persistedPriority_range (now : Z) (p : PersistCall) (s : Store) :
  0 <= persistedPriority now p s <= 100.
Proof.
  unfold persistedPriority.
  apply (calculatePriority_Z now (priorityContext now p s)
           (Contact.priority (resolvedContact now p s))).
  reflexivity.
Qed.

Lemma demoStore_reachable : reachable demoStore.
Proof. unfold demoStore. apply reachable_start. Qed.

(** X10.  In every store the system can reach, a 201 leaves the
    conversation of the response on record with the priority of the
    response, a whole number from 0 to 100, with the date of the new message
    as the date of its last message (the date the request gives, else the
    time of the call, also when the conversation had a later one) and with
    the time of the call as the time of its update. *)
Theorem ingestion_updates_the_conversation
  (s s' : Store) (now : Z) (i : Ingestion) (out : list Output)
  (response : MessageIngestionResponse) :
  reachable s ->
  ingest now i s = (out, s', Normal (Json 201 response)) ->
  exists conversation p,
    getConversation s' (res_conversationId response) = Some conversation
    /\ Conversation.id conversation = res_conversationId response
    /\ Conversation.priority conversation = res_priority response
    /\ 0 <= res_priority response <= 100
    /\ Conversation.updatedAt conversation = now
    /\ ing_persist i = Some p
    /\ Conversation.lastMessageAt conversation
       = match pc_receivedAt p with Some d => d | None => ValidDate now end.
Proof.
  intros Hreach Hrun.
  destruct (ingest_created now i s s' out response Hrun)
    as (p & Hp & _ & _ & _ & _ & _ & _ & -> & ->).
  destruct (resolved_on_record now p s (reachable_linked s Hreach))
    as (r & c & E & Hid).
  eexists. exists p. cbn [persistResponse res_conversationId res_priority].
  split; [exact (getConversation_afterPersist now p s r c E)|].
  cbn [reprioritised Conversation.id Conversation.priority
       Conversation.updatedAt Conversation.lastMessageAt].
  repeat split; auto; apply persistedPriority_range.
Qed.

Lemma ingestion_updates_the_conversation_witness :
  exists out s' response conversation,
    ingest 1700000000500 replyRequest demoStore
    = (out, s', Normal (Json 201 response))
    /\ getConversation s' (res_conversationId response) = Some conversation
    /\ Conversation.priority conversation = res_priority response
    /\ Conversation.lastMessageAt conversation = ValidDate 1700000000500.
Proof.
  do 3 eexists.
  match goal with
  | |- exists c, ?E /\ _ => assert E as Hrun by (vm_compute; reflexivity)
  end.
  destruct (ingestion_updates_the_conversation
              demoStore _ 1700000000500 replyRequest _ _
              demoStore_reachable Hrun)
    as (conversation & p & Hget & _ & Hprio & _ & _ & Hp & Hlast).
  exists conversation. split; [exact Hrun|]. split; [exact Hget|].
  split; [exact Hprio|]. injection Hp as <-. exact Hlast.
Defined.

Lemma deliveries_notified (s : Store) (sent : list SSEEvent) :
  EventEmitter.deliveries (flat_map (fun event => emit_out event s) sent)
  = notified s sent.
Proof.
  unfold notified. induction sent as [|e sent IH]; [reflexivity|].
  cbn [flat_map]. rewrite deliveries_app, IH. f_equal.
  unfold emit_out. apply deliveries_flat_map.
Qed.

(** X11.  In every store the system can reach, a 201 hands every subscribed
    listener, in the order of subscription, first [conversation:new] when no
    conversation was on record for the user, the channel and the external
    conversation id (with priority 50), then [message:new] with the id of
    the message, then [conversation:updated] with the priority of the
    response; all three carry the conversation id of the response. *)
Theorem ingestion_notifies_in_order
  (s s' : Store) (now : Z) (i : Ingestion) (out : list Output)
  (response : MessageIngestionResponse) :
  reachable s ->
  ingest now i s = (out, s', Normal (Json 201 response)) ->
  exists p conversation,
    ing_persist i = Some p
    /\ getConversation s' (res_conversationId response) = Some conversation
    /\ EventEmitter.deliveries out
       = notified s
           (match findConversationByUserAndExternalId s (pc_userId p)
                    (pc_externalConversationId p) (pc_source p) with
            | Some _ => []
            | None =>
                [{| ev_type := conversation_new;
                    ev_data :=
                      {| ev_conversationId := res_conversationId response;
                         ev_userId := pc_userId p;
                         ev_priority := Some 50;
                         ev_messageId := None |} |}]
            end
            ++ [{| ev_type := message_new;
                   ev_data :=
                     {| ev_conversationId := res_conversationId response;
                        ev_userId := Conversation.userId conversation;
                        ev_priority := None;
                        ev_messageId := Some (res_messageId response) |} |};
                {| ev_type := conversation_updated;
                   ev_data :=
                     {| ev_conversationId := res_conversationId response;
                        ev_userId := Conversation.userId conversation;
                        ev_priority := Some (res_priority response);
                        ev_messageId := None |} |}]).
Proof.
  intros Hreach Hrun.
  destruct (ingest_created now i s s' out response Hrun)
    as (p & Hp & _ & _ & _ & _ & _ & -> & -> & ->).
  destruct (resolved_on_record now p s (reachable_linked s Hreach))
    as (r & c & E & Hid).
  exists p. eexists. split; [exact Hp|].
  cbn [persistResponse res_conversationId res_priority res_messageId].
  split; [exact (getConversation_afterPersist now p s r c E)|].
  rewrite deliveries_notified. f_equal.
  unfold persistEvents. rewrite E, <- (existingConversation_find now p s).
  unfold messageNewEvent, conversationUpdatedEvent, conversationNewEvent.
  cbn [reprioritised Conversation.id Conversation.userId Conversation.priority].
  rewrite Hid. f_equal.
  unfold resolvedConversation.
  destruct (existingConversation now p s); reflexivity.
Qed.

Lemma watchedStore_reachable : reachable watchedStore.
Proof. unfold watchedStore. apply run_reachable, demoStore_reachable. Qed.

Lemma ingestion_notifies_in_order_witness :
  exists out s' response,
    ingest 1700000000500 replyRequest watchedStore
    = (out, s', Normal (Json 201 response))
    /\ map (fun d => (fst d, ev_type (snd d))) (EventEmitter.deliveries out)
       = [(7%nat, message_new); (7%nat, conversation_updated)].
Proof.
  do 3 eexists.
  match goal with
  | |- ?E /\ _ => assert E as Hrun by (vm_compute; reflexivity)
  end.
  split; [exact Hrun|].
  destruct (ingestion_notifies_in_order
              watchedStore _ 1700000000500 replyRequest _ _
              watchedStore_reachable Hrun)
    as (p & conversation & Hp & _ & Hout).
  rewrite Hout. injection Hp as <-. reflexivity.
Defined.

(** ** Counting the messages of a conversation *)

Lemma values_set_fresh {V : Type} (m : JsMap.t V) (k : string) (v : V) :
  JsMap.get m k = None -> JsMap.values (JsMap.set m k v) = JsMap.values m ++ [v].
Proof.
  unfold JsMap.values. induction m as [|[k0 v0] m IH]; simpl; [reflexivity|].
  destruct (String.eqb k0 k); [discriminate|].
  intros H. simpl. now rewrite IH.
Qed.

(** X12.  When the id drawn for the message is not in use, a 201 adds one
    to the number of messages of the conversation of the response and
    leaves the number of every other conversation as it was. *)
Theorem ingestion_adds_one_message
  (now : Z) (i : Ingestion) (s s' : Store) (out : list Output)
  (response : MessageIngestionResponse) (conversationId : string) :
  ingest now i s = (out, s', Normal (Json 201 response)) ->
  getMessage s (res_messageId response) = None ->
  getMessageCountForConversation s' conversationId
  = getMessageCountForConversation s conversationId
    + (if String.eqb (res_conversationId response) conversationId
       then 1 else 0).
Proof.
  intros Hrun Hfresh.
  destruct (ingest_created now i s s' out response Hrun)
    as (p & _ & _ & _ & _ & _ & _ & _ & -> & ->).
  destruct (afterPersist_fields now p s) as (_ & _ & Hm & _).
  unfold getMessageCountForConversation. rewrite Hm.
  cbn [persistResponse res_messageId res_conversationId] in *.
  rewrite values_set_fresh by exact Hfresh.
  rewrite filter_app, length_app, Nat2Z.inj_add. f_equal.
  cbn [filter persistedMessage newMessage Message.conversationId
       md_conversationId].
  now destruct (String.eqb (Conversation.id (resolvedConversation now p s))
                           conversationId).
Qed.

Lemma ingestion_adds_one_message_witness :
  exists out s' response,
    ingest 1700000000500 replyRequest demoStore
    = (out, s', Normal (Json 201 response))
    /\ getMessageCountForConversation s' (res_conversationId response)
       = getMessageCountForConversation demoStore (res_conversationId response)
         + 1.
Proof.
  do 3 eexists.
  match goal with
  | |- ?E /\ _ => assert E as Hrun by (vm_compute; reflexivity)
  end.
  split; [exact Hrun|].
  rewrite (ingestion_adds_one_message _ _ _ _ _ _ _ Hrun);
    [|vm_compute; reflexivity].
  now rewrite String.eqb_refl.
Defined.


(** ** Subscribing and unsubscribing *)

Section Subscriptions.

Import EventEmitter.

Lemma map_filter_listeners (event : SSEEvent) (n : nat) (ls : list Listener) :
  map (fun l => (listenerId l, event))
      (filter (fun l => negb (Nat.eqb (listenerId l) n)) ls)
  = filter (fun d => negb (Nat.eqb (fst d) n))
           (map (fun l => (listenerId l, event)) ls).
Proof.
  induction ls as [|l ls IH]; [reflexivity|]. cbn [filter map fst].
  destruct (negb (Nat.eqb (listenerId l) n)); cbn [map]; now rewrite IH.
Qed.

Lemma has_unsubscribe (listener : Listener) (em : t) :
  has (unsubscribe listener em) listener = false.
Proof.
  unfold has, unsubscribe. cbn [listeners].
  induction (listeners em) as [|l ls IH]; [reflexivity|]. cbn [filter].
  destruct (Nat.eqb (listenerId l) (listenerId listener)) eqn:E;
    cbn [negb existsb]; [exact IH|]. now rewrite E, IH.
Qed.

(** X13.  After a listener has unsubscribed, [emit] hands the event to the
    other listeners as before, in the same order, and no longer to that one;
    unsubscribing undoes a subscription, and it is harmless for a listener
    that is not subscribed. *)
Theorem unsubscribe_stops_deliveries
  (event : SSEEvent) (em : t) (listener : Listener) :
  deliveries (fst (emit event (unsubscribe listener em)))
  = filter (fun d => negb (Nat.eqb (fst d) (listenerId listener)))
           (deliveries (fst (emit event em)))
  /\ has (unsubscribe listener em) listener = false
  /\ unsubscribe listener (subscribe listener em) = unsubscribe listener em
  /\ (has em listener = false -> unsubscribe listener em = em).
Proof.
  rewrite !emit_output. cbn [fst]. rewrite !deliveries_flat_map.
  split; [apply map_filter_listeners|]. split; [apply has_unsubscribe|].
  assert (has em listener = false -> unsubscribe listener em = em) as Hnot.
  { destruct em as [ls]. unfold has, unsubscribe. cbn [listeners].
    intros H. f_equal. induction ls as [|l ls IH]; [reflexivity|].
    cbn [existsb] in H. apply orb_false_elim in H as [H1 H2].
    cbn [filter]. rewrite H1. cbn [negb]. now rewrite IH. }
  split; [|exact Hnot].
  unfold subscribe. destruct (has em listener) eqn:E; [reflexivity|].
  unfold unsubscribe at 1. cbn [listeners]. rewrite filter_app.
  cbn [filter]. rewrite Nat.eqb_refl. cbn [negb]. rewrite app_nil_r.
  reflexivity.
Qed.

Lemma has_false_notin (listener : Listener) (em : t) :
  has em listener = false ->
  ~ In (listenerId listener) (map listenerId (listeners em)).
Proof.
  unfold has. induction (listeners em) as [|l ls IH]; [intros _ []|].
  cbn [existsb map]. intros H. apply orb_false_elim in H as [H1 H2].
  intros [Heq|Hin]; [|now apply IH].
  rewrite Heq, Nat.eqb_refl in H1. discriminate.
Qed.

Lemma subscribe_distinct (listener : Listener) (em : t) :
  NoDup (map listenerId (listeners em)) ->
  NoDup (map listenerId (listeners (subscribe listener em))).
Proof.
  intros H. unfold subscribe. destruct (has em listener) eqn:E; [exact H|].
  cbn [listeners]. rewrite map_app. cbn [map].
  apply NoDup_app_remove_l with (l := []). cbn [app].
  apply Permutation_NoDup with (l := listenerId listener :: map listenerId (listeners em)).
  - apply Permutation_cons_append.
  - constructor; [now apply has_false_notin|exact H].
Qed.

Lemma unsubscribe_distinct (listener : Listener) (em : t) :
  NoDup (map listenerId (listeners em)) ->
  NoDup (map listenerId (listeners (unsubscribe listener em))).
Proof.
  unfold unsubscribe. cbn [listeners].
  induction (listeners em) as [|l ls IH]; intros H; [exact H|].
  cbn [map] in H. inversion H as [|x xs Hnotin Hnd]; subst.
  cbn [filter].
  destruct (negb (Nat.eqb (listenerId l) (listenerId listener)));
    [|now apply IH].
  cbn [map]. constructor; [|now apply IH].
  intros Hin. apply Hnotin. apply in_map_iff in Hin as (l' & Hl' & Hin).
  apply filter_In in Hin as [Hin _]. apply in_map_iff. now exists l'.
Qed.

End Subscriptions.

Lemma updateConversationPriorities_events (now : Z) (s : Store) :
  events (updateConversationPrioritiesFromMessages now s) = events s.
Proof.
  unfold updateConversationPrioritiesFromMessages.
  generalize (JsMap.values (conversations s)). intros refs.
  revert s; induction refs as [|r refs IH]; intros s; simpl; [reflexivity|].
  rewrite IH. unfold updatePriorityFromMessages.
  destruct (deref s r) as [c|]; [|reflexivity].
  destruct (getLatestMessageForConversation s (Conversation.id c));
    [|reflexivity].
  now destruct (JsMap.get (contacts s) (Conversation.contactId c)).
Qed.

Lemma events_with_message (id key : string) (m : Message.t) (s : Store) :
  events (with_message id key m s) = events s.
Proof. reflexivity. Qed.

Lemma events_with_conversation (id key : string) (c : Conversation.t) (s : Store) :
  events (with_conversation id key c s) = events s.
Proof. reflexivity. Qed.

Lemma events_with_contact (id key : string) (c : Contact.t) (s : Store) :
  events (with_contact id key c s) = events s.
Proof. reflexivity. Qed.

Lemma events_with_users (f : JsMap.t User.t -> JsMap.t User.t) (s : Store) :
  events (with_users f s) = events s.
Proof. reflexivity. Qed.

Lemma seedData_events (now : Z) (uuid : nat -> string) :
  events (seedData now uuid) = {| EventEmitter.listeners := [] |}.
Proof.
  unfold seedData. cbv zeta.
  cbn [createSeededConversation fold_left fst snd].
  rewrite updateConversationPriorities_events.
  unfold createSeededMessage. cbn [Message.id Message.externalId].
  repeat first
    [ rewrite events_with_message
    | rewrite events_with_conversation
    | rewrite events_with_contact
    | rewrite events_with_users ].
  reflexivity.
Qed.

Lemma POST_users_events (now : Z) (uuid : string)
  (request : option CreateUserRequest) (s : Store) :
  events (snd (fst (POST_users now uuid request s))) = events s.
Proof.
  unfold POST_users, try_catch.
  destruct request as [body|]; [|reflexivity].
  now destruct (is_empty (cu_email body) || is_empty (cu_name body)).
Qed.

Lemma ingest_events (now : Z) (i : Ingestion) (s : Store) :
  events (snd (fst (ingest now i s))) = events s.
Proof.
  destruct (ingest_outcomes now i s)
    as [_ [out H] | ext msg _ _ H | ext u _ _ _ _ H | ext m _ _ _ _ H
       | ext out s' resp m _ _ _ _ H _ He _ _ _ _];
    rewrite H; auto.
Qed.

Lemma reachable_distinct (s : Store) :
  reachable s ->
  NoDup (map EventEmitter.listenerId (EventEmitter.listeners (events s))).
Proof.
  induction 1 as [now uuid|s now request _ IH].
  - rewrite seedData_events. constructor.
  - destruct request as [uuid body|i|l|l]; cbn [handle].
    + now rewrite POST_users_events.
    + now rewrite ingest_events.
    + cbn [with_events events]. now apply subscribe_distinct.
    + cbn [with_events events]. now apply unsubscribe_distinct.
Qed.

(** X14.  In every store the system can reach no listener is subscribed
    twice, so that [emit] hands an event to each listener once. *)
Theorem no_listener_is_notified_twice (s : Store) (event : SSEEvent) :
  reachable s ->
  NoDup (map EventEmitter.listenerId (EventEmitter.listeners (events s)))
  /\ NoDup (EventEmitter.deliveries (fst (EventEmitter.emit event (events s)))).
Proof.
  intros H. apply reachable_distinct in H. split; [exact H|].
  rewrite emit_output. cbn [fst]. rewrite deliveries_flat_map.
  rewrite <- (map_map EventEmitter.listenerId (fun n => (n, event))).
  apply Finite.Injective_map_NoDup; [|exact H].
  intros a b [= ->]. reflexivity.
Qed.

Lemma no_listener_is_notified_twice_witness :
  NoDup (EventEmitter.deliveries
           (fst (EventEmitter.emit
                   {| ev_type := message_new;
                      ev_data := {| ev_conversationId := "v"; ev_userId := "u";
                                    ev_priority := None;
                                    ev_messageId := None |} |}
                   (events twiceSubscribedStore)))).
Proof.
  apply no_listener_is_notified_twice.
  unfold twiceSubscribedStore. apply run_reachable, watchedStore_reachable.
Defined.

(** ** Users *)



(** ** Conversations are found again *)

Lemma findConversation_after_create (now : Z) (uuid : string)
  (data : ConversationData) (s : Store) :
  findConversationByUserAndExternalId
    (with_conversation uuid (conversationKey data)
       (newConversation now uuid data) s)
    (cv_userId data) (cv_externalId data) (cv_source data)
  = Some (newConversation now uuid data).
Proof.
  unfold findConversationByUserAndExternalId.
  cbn [with_conversation conversationsByUserAndExternalId].
  change (cv_userId data ++ ":" ++ Source_name (cv_source data) ++ ":"
          ++ cv_externalId data)%string with (conversationKey data).
  rewrite get_set_same. unfold deref. cbn [with_conversation heap].
  rewrite nth_error_app2 by lia. now rewrite Nat.sub_diag.
Qed.

(** X16.  [findOrCreateConversation] is idempotent: a second call for the
    same user, channel and external id returns the conversation of the first
    call, creates nothing and notifies nobody, whatever title and contact
    it is given; the title and the contact of a conversation are those of
    the call that created it. *)
Theorem findOrCreateConversation_idempotent
  (now now' : Z) (uuid uuid' : string) (data data' : ConversationData)
  (s : Store) :
  cv_userId data' = cv_userId data ->
  cv_externalId data' = cv_externalId data ->
  cv_source data' = cv_source data ->
  exists out s1 conversation created,
    findOrCreateConversation now uuid data s
    = (out, s1, Normal (conversation, created))
    /\ findOrCreateConversation now' uuid' data' s1
       = ([], s1, Normal (conversation, false))
    /\ (created = true ->
        Conversation.title conversation = cv_title data
        /\ Conversation.contactId conversation = cv_contactId data
        /\ Conversation.id conversation = uuid).
Proof.
  intros Hu He Hs. rewrite findOrCreateConversation_exact.
  destruct (findConversationByUserAndExternalId
              s (cv_userId data) (cv_externalId data) (cv_source data))
    as [c|] eqn:E.
  - exists [], s, c, false. split; [reflexivity|]. split; [|discriminate].
    rewrite findOrCreateConversation_exact, Hu, He, Hs, E. reflexivity.
  - cbv zeta. do 2 eexists. exists (newConversation now uuid data), true.
    split; [reflexivity|]. split; [|intros _; repeat split].
    rewrite findOrCreateConversation_exact, Hu, He, Hs.
    now rewrite findConversation_after_create.
Qed.

Lemma findOrCreateConversation_idempotent_witness :
  exists out s1 conversation created,
    findOrCreateConversation 1700000000400 "v7" seededThread demoStore
    = (out, s1, Normal (conversation, created))
    /\ findOrCreateConversation 1700000000500 "v8" seededThread s1
       = ([], s1, Normal (conversation, false)).
Proof.
  destruct (findOrCreateConversation_idempotent
              1700000000400 1700000000500 "v7" "v8" seededThread seededThread
              demoStore eq_refl eq_refl eq_refl)
    as (out & s1 & conversation & created & H1 & H2 & _).
  exists out, s1, conversation, created. split; [exact H1|exact H2].
Defined.

(** ** The keys of the two indexes *)

Lemma app_colon_inj (a a' b b' : string) :
  colonFree a = true -> colonFree a' = true ->
  (a ++ ":" ++ b)%string = (a' ++ ":" ++ b')%string ->
  a = a' /\ b = b'.
Proof.
  revert a'; induction a as [|c a IH]; intros [|c' a'] Ha Ha' H;
    cbn [colonFree String.append] in *.
  - injection H as <-. now split.
  - injection H as <- _. cbn in Ha'. discriminate.
  - injection H as -> _. cbn in Ha. discriminate.
  - apply andb_prop in Ha as [_ Ha]. apply andb_prop in Ha' as [_ Ha'].
    injection H as <- H. destruct (IH a' Ha Ha' H) as [<- <-]. now split.
Qed.

Lemma Source_name_inj (a b : Source) : Source_name a = Source_name b -> a = b.
Proof. destruct a, b; simpl; intros H; reflexivity || discriminate. Qed.

(** X17.  For user ids without a colon, the key of a conversation in
    [conversationsByUserAndExternalId] determines the user, the channel and
    the external id, and the key of a contact in [contactsByUserAndEmail]
    determines the user and the email up to case.  With a colon in a user id
    two keys can coincide: ("u", email, "x:email:y") and
    ("u:email:x", email, "y") share one. *)
Theorem index_keys_identify_for_colon_free_user_ids
  (data data' : ConversationData) (userId userId' address address' : string) :
  colonFree (cv_userId data) = true ->
  colonFree (cv_userId data') = true ->
  colonFree userId = true ->
  colonFree userId' = true ->
  (conversationKey data = conversationKey data' ->
   cv_userId data = cv_userId data'
   /\ cv_source data = cv_source data'
   /\ cv_externalId data = cv_externalId data')
  /\ (contactKey userId address = contactKey userId' address' ->
      userId = userId'
      /\ JsString.toLowerCase address = JsString.toLowerCase address')
  /\ conversationKey {| cv_userId := "u"; cv_contactId := "c";
                        cv_externalId := "x:email:y"; cv_source := email;
                        cv_title := "t" |}
     = conversationKey {| cv_userId := "u:email:x"; cv_contactId := "c";
                          cv_externalId := "y"; cv_source := email;
                          cv_title := "t" |}.
Proof.
  intros Hd Hd' Hu Hu'. split; [|split; [|reflexivity]].
  - unfold conversationKey. intros H.
    apply app_colon_inj in H as [H1 H]; [|assumption|assumption].
    apply app_colon_inj in H as [H2 H3];
      [|now destruct (cv_source data)|now destruct (cv_source data')].
    apply Source_name_inj in H2. now repeat split.
  - unfold contactKey. intros H.
    now apply app_colon_inj in H.
Qed.

Lemma index_keys_identify_for_colon_free_user_ids_witness :
  JsString.toLowerCase "Sarah.Chen@acme.com"
  = JsString.toLowerCase "sarah.chen@ACME.com".
Proof.
  destruct (index_keys_identify_for_colon_free_user_ids
              seededThread seededThread "user-demo" "user-demo"
              "Sarah.Chen@acme.com" "sarah.chen@ACME.com"
              eq_refl eq_refl eq_refl eq_refl) as (_ & Hc & _).
  apply Hc. reflexivity.
Defined.


(** ** The messages of a conversation, in order *)











(** ** Reading routes *)

Lemma Array_slice_length {A : Type} (l : list A) (start n : Z) :
  0 <= start -> 0 <= n ->
  (List.length (Array_slice l start (start + n)) <= Z.to_nat n)%nat.
Proof.
  intros Hs Hn. unfold Array_slice.
  destruct (Z.ltb_spec start 0); [lia|].
  destruct (Z.ltb_spec (start + n) 0); [lia|].
  etransitivity; [apply firstn_le_length|]. lia.
Qed.

Lemma Array_slice_empty {A : Type} (l : list A) (k : Z) :
  0 <= k -> Array_slice l k k = [].
Proof.
  intros Hk. unfold Array_slice. destruct (Z.ltb_spec k 0); [lia|].
  now rewrite Z.sub_diag.
Qed.

(** A page of the routes holds 100 entries at most. *)
Lemma window_length {A : Type} (l : list A) (page limit : Integral) :
  match page with
  | IntVal p => 1 <= p
  | NegInfinity => False
  | PosInfinity | NotANumber => True
  end ->
  match limit with
  | IntVal n => 1 <= n <= 100
  | NotANumber => True
  | PosInfinity | NegInfinity => False
  end ->
  let limit' := Math_min 100 limit in
  let start := Integral_mul (Integral_pred page) limit' in
  (List.length (Array_slice_num l start (Integral_add start limit')) <= 100)%nat.
Proof.
  intros Hp Hl. unfold Array_slice_num.
  destruct limit as [n| | |]; try contradiction.
  - cbn [Math_min]. replace (Z.min 100 n) with n by lia.
    destruct page as [p| | |]; try contradiction.
    + cbn [Integral_pred Integral_mul Integral_add slice_index].
      etransitivity; [apply Array_slice_length; nia|]. lia.
    + cbn [Integral_pred Integral_mul].
      destruct (Z.eqb_spec n 0); [lia|].
      destruct (Z.ltb_spec 0 n); [|lia].
      cbn [Bool.eqb Integral_add slice_index].
      rewrite Array_slice_empty by lia. cbn. lia.
    + cbn [Integral_pred Integral_mul Integral_add slice_index].
      rewrite Array_slice_empty by lia. cbn. lia.
  - cbn [Math_min].
    assert (Integral_mul (Integral_pred page) NotANumber = NotANumber) as ->
      by (now destruct (Integral_pred page)).
    cbn [Integral_add slice_index].
    rewrite Array_slice_empty by lia. cbn. lia.
Qed.

Lemma listItems_dated (now : Z) (s : Store) (l : list Conversation.t) :
  match listItems now s l with
  | Some items =>
      forallb datedConversation l = true
      /\ List.length items = List.length l
  | None => forallb datedConversation l = false
  end.
Proof.
  induction l as [|c l IH]; [now split|].
  cbn [listItems forallb]. unfold listItem, datedConversation at 1 3.
  destruct (getTime (Conversation.lastMessageAt c)); [|reflexivity].
  destruct (listItems now s l) as [items|]; cbn [andb].
  - destruct IH as [-> Hlen]. cbn [List.length]. now rewrite Hlen.
  - exact IH.
Qed.

(** X20.  [GET /api/conversations] only reads: whatever the query, it
    answers 200, 400, 404 or 500, leaves the store as it was and notifies
    nobody.  A page holds 100 entries at most.  For a user on record the
    answer is 500 exactly when the page holds a conversation whose last
    message has a date that cannot be read, and 200 otherwise. *)
Theorem GET_conversations_only_reads
  (now : Z) (q_userId : option string) (q_page q_limit : option Integral)
  (q_source : option string) (s : Store) :
  exists out response,
    GET_conversations now q_userId q_page q_limit q_source s
    = (out, s, Normal response)
    /\ EventEmitter.deliveries out = []
    /\ In (responseStatus response) [200; 400; 404; 500]
    /\ (forall body, response = Json 200 body ->
          (List.length (list_data body) <= 100)%nat)
    /\ (forall userId,
          q_userId = Some userId -> is_empty userId = false ->
          getUser s userId <> None ->
          responseStatus response
          = if forallb datedConversation
                 (fst (getConversationsForUser s userId
                         (Some (routePage q_page)) (Some (routeLimit q_limit))
                         q_source))
            then 200 else 500).
Proof.
  rewrite GET_conversations_run.
  destruct q_userId as [userId|].
  2:{ do 2 eexists. split; [reflexivity|]. split; [reflexivity|].
      split; [simpl; tauto|]. split; [discriminate|discriminate]. }
  destruct (is_empty userId) eqn:Eempty.
  { do 2 eexists. split; [reflexivity|]. split; [reflexivity|].
    split; [simpl; tauto|]. split; [discriminate|].
    intros u [= <-]. congruence. }
  destruct (getUser s userId) as [user|] eqn:Euser.
  2:{ do 2 eexists. split; [reflexivity|]. split; [reflexivity|].
      split; [simpl; tauto|]. split; [discriminate|].
      intros u [= <-] _ H. now contradiction H. }
  cbv zeta.
  pose proof (listItems_dated now s
                (fst (getConversationsForUser s userId (Some (routePage q_page))
                        (Some (routeLimit q_limit)) q_source))) as Hd.
  destruct (listItems now s
              (fst (getConversationsForUser s userId (Some (routePage q_page))
                      (Some (routeLimit q_limit)) q_source))) as [data|].
  - destruct Hd as [Hd Hlen].
    do 2 eexists. split; [reflexivity|]. split; [reflexivity|].
    split; [simpl; tauto|]. split.
    + intros body [= <-]. cbn [list_data]. rewrite Hlen.
      rewrite getConversationsForUser_window. cbn [fst].
      unfold windowStart, pageOf, limitOf.
      destruct (route_clamps q_page q_limit) as [Hp Hl].
      apply window_length; assumption.
    + intros u [= <-] _ _. now rewrite Hd.
  - do 2 eexists. split; [reflexivity|]. split; [reflexivity|].
    split; [simpl; tauto|]. split; [discriminate|].
    intros u [= <-] _ _. now rewrite Hd.
Qed.

Lemma GET_conversations_only_reads_witness :
  exists out s' response,
    ingest 1700000000500 undatedRequest demoStore
    = (out, s', Normal (Json 201 response))
    /\ exists out1 response1,
         GET_conversations 1700000000600 (Some "user-demo") None None None s'
         = (out1, s', Normal response1)
         /\ responseStatus response1 = 500.
Proof.
  do 3 eexists.
  match goal with
  | |- ?E /\ _ => assert E as Hrun by (vm_compute; reflexivity)
  end.
  split; [exact Hrun|]. clear Hrun.
  match goal with
  | |- exists _ _, GET_conversations ?n ?u ?p ?l ?src ?st = _ /\ _ =>
      destruct (GET_conversations_only_reads n u p l src st)
        as (out1 & response1 & H1 & _ & _ & _ & Hstatus)
  end.
  exists out1, response1. split; [exact H1|].
  rewrite (Hstatus "user-demo" eq_refl eq_refl)
    by (vm_compute; discriminate).
  vm_compute. reflexivity.
Defined.









(** ** The priority of a response in closed form *)

Lemma contacts_bounded_frame (s s' : Store) :
  contactsByUserAndEmail s' = contactsByUserAndEmail s ->
  contacts_bounded s -> contacts_bounded s'.
Proof. unfold contacts_bounded. now intros ->. Qed.

Lemma with_contact_bounded (id key : string) (c : Contact.t) (s : Store) :
  0 <= Contact.priority c <= 100 ->
  contacts_bounded s -> contacts_bounded (with_contact id key c s).
Proof.
  intros Hc Hs key' c'. cbn [with_contact contactsByUserAndEmail].
  rewrite get_set_cases. destruct (String.eqb key' key).
  - now intros [= <-].
  - apply Hs.
Qed.

Lemma with_users_bounded (f : JsMap.t User.t -> JsMap.t User.t) (s : Store) :
  contacts_bounded s -> contacts_bounded (with_users f s).
Proof. now apply contacts_bounded_frame. Qed.

Lemma with_message_bounded (id key : string) (m : Message.t) (s : Store) :
  contacts_bounded s -> contacts_bounded (with_message id key m s).
Proof. now apply contacts_bounded_frame. Qed.

Lemma with_conversation_bounded (id key : string) (c : Conversation.t)
  (s : Store) :
  contacts_bounded s -> contacts_bounded (with_conversation id key c s).
Proof. now apply contacts_bounded_frame. Qed.

Lemma updateConversationPriorities_contacts (now : Z) (s : Store) :
  contactsByUserAndEmail (updateConversationPrioritiesFromMessages now s)
  = contactsByUserAndEmail s.
Proof.
  unfold updateConversationPrioritiesFromMessages.
  generalize (JsMap.values (conversations s)). intros refs.
  revert s; induction refs as [|r refs IH]; intros s; simpl; [reflexivity|].
  rewrite IH. unfold updatePriorityFromMessages.
  destruct (deref s r) as [c|]; [|reflexivity].
  destruct (getLatestMessageForConversation s (Conversation.id c));
    [|reflexivity].
  now destruct (JsMap.get (contacts s) (Conversation.contactId c)).
Qed.

Lemma seedData_bounded (now : Z) (uuid : nat -> string) :
  contacts_bounded (seedData now uuid).
Proof.
  unfold seedData. cbv zeta.
  cbn [createSeededConversation fold_left fst snd].
  apply (contacts_bounded_frame _ _ (updateConversationPriorities_contacts _ _)).
  unfold createSeededMessage. cbn [Message.id Message.externalId].
  repeat match goal with
    | |- contacts_bounded (with_message _ _ _ _) => apply with_message_bounded
    | |- contacts_bounded (with_conversation _ _ _ _) =>
        apply with_conversation_bounded
    | |- contacts_bounded (with_contact _ _ _ _) =>
        apply with_contact_bounded; [cbn [Contact.priority]; lia|]
    | |- contacts_bounded (with_users _ _) => apply with_users_bounded
    end.
  intros key c. discriminate.
Qed.

Lemma afterPersist_contacts (now : Z) (p : PersistCall) (s : Store) :
  contactsByUserAndEmail (afterPersist now p s)
  = contactsByUserAndEmail (afterContact now p s).
Proof.
  unfold afterPersist.
  assert (contactsByUserAndEmail (afterMessage now p s)
          = contactsByUserAndEmail (afterContact now p s)) as H.
  { unfold afterMessage, afterConversation.
    cbn [with_message contactsByUserAndEmail].
    now destruct (existingConversation now p s). }
  now destruct (conversationRef (afterMessage now p s)
                  (Conversation.id (resolvedConversation now p s)))
    as [[r c]|].
Qed.

Lemma resolvedContact_bounded (now : Z) (p : PersistCall) (s : Store) :
  contacts_bounded s ->
  0 <= Contact.priority (resolvedContact now p s) <= 100.
Proof.
  intros Hs. unfold resolvedContact. rewrite findContact_key.
  destruct (JsMap.get (contactsByUserAndEmail s)
              (contactKey (pc_userId p) (pc_contactEmail p))) as [c|] eqn:E.
  - exact (Hs _ c E).
  - cbn [newContact Contact.priority]. lia.
Qed.

Lemma afterContact_bounded (now : Z) (p : PersistCall) (s : Store) :
  contacts_bounded s -> contacts_bounded (afterContact now p s).
Proof.
  intros Hs. pose proof (resolvedContact_bounded now p s Hs) as Hc.
  unfold afterContact.
  destruct (findContactByUserAndEmail s (pc_userId p) (pc_contactEmail p));
    [exact Hs|now apply with_contact_bounded].
Qed.

Lemma ingest_bounded (now : Z) (i : Ingestion) (s : Store) :
  contacts_bounded s -> contacts_bounded (snd (fst (ingest now i s))).
Proof.
  intros Hs.
  destruct (ingest_outcomes now i s)
    as [_ [out H] | ext msg _ _ H | ext u _ _ _ _ H | ext m _ _ _ _ H
       | ext out s' resp m _ _ _ _ H _ _ _ _ _ _];
    try (rewrite H; exact Hs).
  destruct (ingest_created now i s s' out resp H)
    as (p & _ & _ & _ & _ & _ & _ & _ & -> & _).
  rewrite H. cbn [fst snd].
  apply (contacts_bounded_frame _ _ (afterPersist_contacts now p s)).
  now apply afterContact_bounded.
Qed.

Lemma POST_users_contacts (now : Z) (uuid : string)
  (request : option CreateUserRequest) (s : Store) :
  contactsByUserAndEmail (snd (fst (POST_users now uuid request s)))
  = contactsByUserAndEmail s.
Proof.
  unfold POST_users, try_catch.
  destruct request as [body|]; [|reflexivity].
  now destruct (is_empty (cu_email body) || is_empty (cu_name body)).
Qed.

Lemma reachable_bounded (s : Store) : reachable s -> contacts_bounded s.
Proof.
  induction 1 as [now uuid|s now request _ IH].
  - apply seedData_bounded.
  - destruct request as [uuid body|i|l|l]; cbn [handle].
    + exact (contacts_bounded_frame _ _ (POST_users_contacts _ _ _ _) IH).
    + now apply ingest_bounded.
    + exact IH.
    + exact IH.
Qed.

(** X22.  In every store the system can reach, the priority of a 201 is
    the score in closed form: 0 when the date of the message is seven days
    old or more, else the weighted sum of the priority of the contact (50
    for a contact the request creates), the urgency of the content, the
    recency of the date, the expectation of the channel and the boost of the
    metadata, rounded half up, with the one exception of X4. *)
Theorem ingestion_priority_in_closed_form
  (s s' : Store) (now : Z) (i : Ingestion) (out : list Output)
  (response : MessageIngestionResponse) :
  reachable s ->
  ingest now i s = (out, s', Normal (Json 201 response)) ->
  exists p c,
    ing_persist i = Some p
    /\ c = match findContactByUserAndEmail s (pc_userId p) (pc_contactEmail p) with
           | Some contact => Contact.priority contact
           | None => 50
           end
    /\ 0 <= c <= 100
    /\ res_priority response
       = let date :=
           match pc_receivedAt p with Some d => d | None => ValidDate now end in
         if isInactive now date then 0
         else expectedScore c
                (calculateUrgencyScore (pc_content p))
                (calculateRecencyScore now date)
                (RESPONSE_EXPECTATION (pc_source p))
                (calculateProviderBoost (pc_source p) (pc_priorityMetadata p)).
Proof.
  intros Hreach Hrun.
  destruct (ingest_created now i s s' out response Hrun)
    as (p & Hp & _ & _ & _ & _ & _ & _ & _ & ->).
  pose proof (resolvedContact_bounded now p s (reachable_bounded s Hreach))
    as Hc.
  exists p, (Contact.priority (resolvedContact now p s)).
  split; [exact Hp|]. split.
  { unfold resolvedContact.
    now destruct (findContactByUserAndEmail s (pc_userId p) (pc_contactEmail p)). }
  split; [exact Hc|].
  cbn [persistResponse res_priority]. unfold persistedPriority.
  rewrite (calculatePriority_expected now (priorityContext now p s)
             (Contact.priority (resolvedContact now p s)) eq_refl Hc).
  reflexivity.
Qed.

Lemma ingestion_priority_in_closed_form_witness :
  exists out s' response,
    ingest 1700000000500 replyRequest demoStore
    = (out, s', Normal (Json 201 response))
    /\ res_priority response = expectedScore 90 20 20 5 0.
Proof.
  do 3 eexists.
  match goal with
  | |- ?E /\ _ => assert E as Hrun by (vm_compute; reflexivity)
  end.
  split; [exact Hrun|].
  destruct (ingestion_priority_in_closed_form
              demoStore _ 1700000000500 replyRequest _ _
              demoStore_reachable Hrun)
    as (p & c & Hp & Hc & _ & Hprio).
  rewrite Hprio, Hc. injection Hp as <-. vm_compute. reflexivity.
Defined.


(** ** Stored priorities stay in range *)

Lemma priorities_bounded_frame (s s' : Store) :
  heap s' = heap s -> priorities_bounded s -> priorities_bounded s'.
Proof. unfold priorities_bounded, deref. now intros ->. Qed.

Lemma with_conversation_priorities (id key : string) (c : Conversation.t)
  (s : Store) :
  0 <= Conversation.priority c <= 100 ->
  priorities_bounded s -> priorities_bounded (with_conversation id key c s).
Proof.
  intros Hc Hs r c'. unfold deref. cbn [with_conversation heap]. intros H.
  destruct (Nat.lt_ge_cases r (List.length (heap s))) as [Hlt|Hge].
  - rewrite nth_error_app1 in H by exact Hlt. exact (Hs r c' H).
  - rewrite nth_error_app2 in H by exact Hge.
    destruct (r - List.length (heap s))%nat as [|n]; cbn in H.
    + now injection H as <-.
    + now destruct n.
Qed.

Lemma with_heap_priorities (r : nat) (c : Conversation.t) (s : Store) :
  0 <= Conversation.priority c <= 100 ->
  priorities_bounded s -> priorities_bounded (with_heap r c s).
Proof.
  intros Hc Hs r' c'. unfold deref. cbn [with_heap heap].
  rewrite nth_error_list_update. destruct (Nat.eqb r' r).
  - destruct (nth_error (heap s) r); [|discriminate]. now intros [= <-].
  - apply Hs.
Qed.

Lemma with_message_priorities (id key : string) (m : Message.t) (s : Store) :
  priorities_bounded s -> priorities_bounded (with_message id key m s).
Proof. now apply priorities_bounded_frame. Qed.

Lemma with_contact_priorities (id key : string) (c : Contact.t) (s : Store) :
  priorities_bounded s -> priorities_bounded (with_contact id key c s).
Proof. now apply priorities_bounded_frame. Qed.

Lemma with_users_priorities (f : JsMap.t User.t -> JsMap.t User.t) (s : Store) :
  priorities_bounded s -> priorities_bounded (with_users f s).
Proof. now apply priorities_bounded_frame. Qed.

Lemma updatePriorityFromMessages_priorities (now : Z) (s : Store) (r : nat) :
  priorities_bounded s -> priorities_bounded (updatePriorityFromMessages now s r).
Proof.
  intros H. unfold updatePriorityFromMessages.
  destruct (deref s r) as [c|]; [|exact H].
  destruct (getLatestMessageForConversation s (Conversation.id c)) as [m|];
    [|exact H].
  destruct (JsMap.get (contacts s) (Conversation.contactId c)) as [contact|];
    [|exact H].
  apply with_heap_priorities; [|exact H]. cbn [Conversation.priority].
  match goal with
  | |- _ <= to_Z (calculatePriority ?n ?ctx) <= _ =>
      apply (calculatePriority_Z n ctx (Contact.priority contact)); reflexivity
  end.
Qed.

Lemma updateConversationPriorities_priorities (now : Z) (s : Store) :
  priorities_bounded s ->
  priorities_bounded (updateConversationPrioritiesFromMessages now s).
Proof.
  unfold updateConversationPrioritiesFromMessages.
  generalize (JsMap.values (conversations s)). intros refs.
  revert s; induction refs as [|r refs IH]; intros s H; simpl; [exact H|].
  now apply IH, updatePriorityFromMessages_priorities.
Qed.

Lemma seedData_priorities (now : Z) (uuid : nat -> string) :
  priorities_bounded (seedData now uuid).
Proof.
  unfold seedData. cbv zeta.
  cbn [createSeededConversation fold_left fst snd].
  apply updateConversationPriorities_priorities.
  unfold createSeededMessage. cbn [Message.id Message.externalId].
  repeat match goal with
    | |- priorities_bounded (with_message _ _ _ _) =>
        apply with_message_priorities
    | |- priorities_bounded (with_conversation _ _ _ _) =>
        apply with_conversation_priorities; [cbn [Conversation.priority]; lia|]
    | |- priorities_bounded (with_contact _ _ _ _) =>
        apply with_contact_priorities
    | |- priorities_bounded (with_users _ _) => apply with_users_priorities
    end.
  intros r c H. unfold deref in H. cbn in H. destruct r; discriminate.
Qed.

Lemma afterPersist_priorities (now : Z) (p : PersistCall) (s : Store) :
  priorities_bounded s -> priorities_bounded (afterPersist now p s).
Proof.
  intros Hs.
  assert (priorities_bounded (afterContact now p s)) as H1.
  { destruct (afterContact_conversations now p s) as (_ & _ & Hh).
    exact (priorities_bounded_frame _ _ Hh Hs). }
  assert (priorities_bounded (afterConversation now p s)) as H2.
  { unfold afterConversation.
    destruct (existingConversation now p s); [exact H1|].
    apply with_conversation_priorities; [|exact H1].
    cbn [newConversation Conversation.priority]. lia. }
  assert (priorities_bounded (afterMessage now p s)) as H3
    by (unfold afterMessage; now apply with_message_priorities).
  unfold afterPersist.
  destruct (conversationRef (afterMessage now p s)
              (Conversation.id (resolvedConversation now p s)))
    as [[r c]|]; [|exact H3].
  apply with_heap_priorities; [|exact H3].
  cbn [reprioritised Conversation.priority]. apply persistedPriority_range.
Qed.

Lemma ingest_priorities (now : Z) (i : Ingestion) (s : Store) :
  priorities_bounded s -> priorities_bounded (snd (fst (ingest now i s))).
Proof.
  intros Hs.
  destruct (ingest_outcomes now i s)
    as [_ [out H] | ext msg _ _ H | ext u _ _ _ _ H | ext m _ _ _ _ H
       | ext out s' resp m _ _ _ _ H _ _ _ _ _ _];
    try (rewrite H; exact Hs).
  destruct (ingest_created now i s s' out resp H)
    as (p & _ & _ & _ & _ & _ & _ & _ & -> & _).
  rewrite H. cbn [fst snd]. now apply afterPersist_priorities.
Qed.

Lemma reachable_priorities (s : Store) : reachable s -> priorities_bounded s.
Proof.
  induction 1 as [now uuid|s now request _ IH].
  - apply seedData_priorities.
  - destruct request as [uuid body|i|l|l]; cbn [handle].
    + destruct (POST_users_conversations now uuid body s) as (_ & _ & Hh).
      exact (priorities_bounded_frame _ _ Hh IH).
    + now apply ingest_priorities.
    + exact IH.
    + exact IH.
Qed.

Lemma In_conversationValues (s : Store) (c : Conversation.t) :
  In c (conversationValues s) -> exists r, deref s r = Some c.
Proof.
  unfold conversationValues. rewrite in_flat_map.
  intros (r & _ & Hc). exists r.
  destruct (deref s r) as [c'|]; [|contradiction].
  destruct Hc as [<-|[]]. reflexivity.
Qed.

(** X23.  In every store the system can reach, every conversation has a
    priority from 0 to 100: the one on record under an id, and every entry
    of a listing, before and after the inactivity rule is applied. *)
Theorem stored_priorities_stay_in_range (s : Store) :
  reachable s ->
  (forall id c,
     getConversation s id = Some c -> 0 <= Conversation.priority c <= 100)
  /\ (forall now userId opt_page opt_limit opt_source c,
        In c (fst (getConversationsForUser s userId opt_page opt_limit
                     opt_source)) ->
        0 <= Conversation.priority c <= 100
        /\ 0 <= getPriorityWithInactivityCheck now (Conversation.priority c)
                  (Conversation.lastMessageAt c) <= 100).
Proof.
  intros Hreach. pose proof (reachable_priorities s Hreach) as Hs. split.
  - intros id c. unfold getConversation.
    destruct (JsMap.get (conversations s) id) as [r|]; [|discriminate].
    apply Hs.
  - intros now userId opt_page opt_limit opt_source c Hc.
    rewrite getConversationsForUser_window in Hc. cbn [fst] in Hc.
    unfold Array_slice_num in Hc. apply Array_slice_incl in Hc.
    apply (Permutation_in c (Array_sort_perm _ _)) in Hc.
    unfold selectedConversations in Hc. apply filter_In in Hc as [Hc _].
    apply In_conversationValues in Hc as (r & Hr).
    pose proof (Hs r c Hr) as Hb. split; [exact Hb|].
    unfold getPriorityWithInactivityCheck.
    destruct (isInactive now (Conversation.lastMessageAt c)); lia.
Qed.

Lemma stored_priorities_stay_in_range_witness :
  exists c,
    getConversation demoStore "E" = Some c
    /\ 0 <= Conversation.priority c <= 100.
Proof.
  assert (exists c, getConversation demoStore "E" = Some c) as (c & Hc)
    by (eexists; vm_compute; reflexivity).
  exists c. split; [exact Hc|].
  exact (proj1 (stored_priorities_stay_in_range demoStore demoStore_reachable)
           "E" c Hc).
Defined.

(** ** The pages of a listing *)

Lemma firstn_add {A : Type} (a b : nat) (l : list A) :
  firstn (a + b) l = firstn a l ++ firstn b (skipn a l).
Proof.
  revert l; induction a as [|a IH]; intros l; [reflexivity|].
  destruct l as [|x l]; cbn [Nat.add firstn skipn app].
  - now rewrite firstn_nil.
  - now rewrite IH.
Qed.

Lemma Array_slice_firstn_skipn {A : Type} (l : list A) (a b : Z) :
  0 <= a -> 0 <= b ->
  Array_slice l a (a + b) = firstn (Z.to_nat b) (skipn (Z.to_nat a) l).
Proof.
  intros Ha Hb. unfold Array_slice.
  destruct (Z.ltb_spec a 0); [lia|]. destruct (Z.ltb_spec (a + b) 0); [lia|].
  destruct (Z.le_gt_cases a (Z.of_nat (List.length l))) as [Hle|Hgt].
  - rewrite (Z.min_l a) by lia.
    destruct (Z.le_gt_cases (a + b) (Z.of_nat (List.length l))) as [Hle'|Hgt'].
    + rewrite Z.min_l by lia. f_equal. lia.
    + rewrite Z.min_r by lia.
      rewrite !firstn_all2; [reflexivity| |]; rewrite length_skipn; lia.
  - rewrite !Z.min_r by lia. rewrite Z.sub_diag. cbn [Z.to_nat firstn].
    rewrite (skipn_all2 l) by lia. now rewrite firstn_nil.
Qed.

Lemma pages_concat {A : Type} (l : list A) (size n : nat) :
  List.concat (map (fun k => firstn size (skipn (k * size) l)) (seq 0 n))
  = firstn (n * size) l.
Proof.
  induction n as [|n IH]; [reflexivity|].
  rewrite seq_S, map_app, concat_app, IH. cbn [map List.concat Nat.add].
  rewrite app_nil_r. rewrite <- firstn_add. f_equal. lia.
Qed.

Lemma page_of_listing (s : Store) (userId : string) (opt_source : option string)
  (size : Z) (k : nat) :
  1 <= size <= 100 ->
  fst (getConversationsForUser s userId (Some (IntVal (Z.of_nat k + 1)))
         (Some (IntVal size)) opt_source)
  = firstn (Z.to_nat size)
      (skipn (k * Z.to_nat size)
         (Array_sort compareConversations
            (selectedConversations s userId opt_source))).
Proof.
  intros Hsize. rewrite getConversationsForUser_window. cbn [fst].
  unfold windowStart, pageOf, limitOf, Array_slice_num.
  cbn [Math_min Integral_pred Integral_mul Integral_add slice_index].
  rewrite (Z.min_r 100 size) by lia.
  rewrite Array_slice_firstn_skipn by nia.
  f_equal. f_equal. nia.
Qed.

(** X24.  For a limit from 1 to 100, the pages 1, 2, ... of
    [getConversationsForUser] taken one after the other give the whole
    sorted selection, each conversation once, and [totalPages] of the route
    is the number of pages this takes. *)
Theorem pages_partition_the_listing
  (s : Store) (userId : string) (opt_source : option string) (size : Z) :
  1 <= size <= 100 ->
  let sorted :=
    Array_sort compareConversations (selectedConversations s userId opt_source) in
  let total := Z.of_nat (List.length sorted) in
  exists pages,
    totalPages total (IntVal size) = IntVal (Z.of_nat pages)
    /\ List.concat
         (map (fun k =>
                 fst (getConversationsForUser s userId
                        (Some (IntVal (Z.of_nat k + 1))) (Some (IntVal size))
                        opt_source))
              (seq 0 pages))
       = sorted
    /\ ((Z.of_nat pages - 1) * size < total \/ total = 0).
Proof.
  intros Hsize sorted total.
  exists (Z.to_nat (- (- total / size))).
  assert (0 <= - (- total / size)) as Hnonneg
    by (unfold total; Z.div_mod_to_equations; nia).
  assert (total <= - (- total / size) * size) as Hcover
    by (Z.div_mod_to_equations; nia).
  split; [|split].
  - unfold totalPages. destruct (Z.eqb_spec size 0); [lia|].
    now rewrite Z2Nat.id.
  - rewrite (map_ext _ (fun k => firstn (Z.to_nat size)
                                   (skipn (k * Z.to_nat size) sorted)))
      by (intros k; now apply page_of_listing).
    rewrite pages_concat. apply firstn_all2. apply Nat2Z.inj_le.
    rewrite Nat2Z.inj_mul, !Z2Nat.id by lia. exact Hcover.
  - rewrite Z2Nat.id by exact Hnonneg.
    unfold total in *. Z.div_mod_to_equations. nia.
Qed.

Lemma pages_partition_the_listing_witness :
  exists pages,
    totalPages
      (Z.of_nat
         (List.length
            (Array_sort compareConversations
               (selectedConversations demoStore "user-demo" None))))
      (IntVal 2)
    = IntVal (Z.of_nat pages)
    /\ List.concat
         (map (fun k =>
                 fst (getConversationsForUser demoStore "user-demo"
                        (Some (IntVal (Z.of_nat k + 1))) (Some (IntVal 2)) None))
              (seq 0 pages))
       = Array_sort compareConversations
           (selectedConversations demoStore "user-demo" None).
Proof.
  destruct (pages_partition_the_listing demoStore "user-demo" None 2)
    as (pages & Htotal & Hpages & _); [lia|].
  exists pages. split; [exact Htotal|exact Hpages].
Defined.
